(** * BoodiBox API client: upload -> poll -> submit

    A shallow embedding of [index.js] and [lib/http.js].

    - JavaScript values that the client inspects dynamically (reply
      permission, quote id, the fields of a JSON answer) are kept as a small
      sum type [value], with [truthy] and [ToString] as in the language.
    - Strings are Rocq strings, read as the bytes of the text in UTF-8 (a
      surrogate without its partner as its three bytes); [trim] and
      upper-casing look at the characters beyond ASCII that JavaScript treats
      as white space or upper-cases into ASCII.
    - Every effect of the client is a timer or an HTTP exchange.  The service,
      the network and the timers are an environment [Env] that answers from
      the history of what happened so far; the client threads a [World]
      (wall clock and history) through a state-and-exception monad [M].
    - The two [while (true)] loops take fuel; [Starved] is the answer of a
      loop that was not given enough of it. *)

From Stdlib Require Import ZArith List String Ascii Bool Lia.
From Stdlib Require Import DecimalString.
Import ListNotations.

Local Open Scope string_scope.
Local Open Scope Z_scope.

(* ================================================================== *)
(** * JavaScript values *)

Module Js.

(** The primitive values the client can be handed.  Numbers are integers. *)
Inductive value : Type :=
| VUndefined
| VNull
| VBool (b : bool)
| VNum (n : Z)
| VStr (s : string).

Definition string_of_Z (n : Z) : string :=
  NilZero.string_of_int (Z.to_int n).

(** [String(v)] *)
Definition ToString (v : value) : string :=
  match v with
  | VUndefined => "undefined"
  | VNull => "null"
  | VBool true => "true"
  | VBool false => "false"
  | VNum n => string_of_Z n
  | VStr s => s
  end.

(** Truthiness: what [!v] and [if (v)] look at. *)
Definition truthy (v : value) : bool :=
  match v with
  | VUndefined | VNull => false
  | VBool b => b
  | VNum n => negb (n =? 0)
  | VStr s => negb (s =? EmptyString)%string
  end.

(** [v == null] *)
Definition nullish (v : value) : bool :=
  match v with
  | VUndefined | VNull => true
  | _ => false
  end.

(** [v === 'lit'] *)
Definition isStr (v : value) (lit : string) : bool :=
  match v with
  | VStr s => (s =? lit)%string
  | _ => false
  end.

(** [a ?? b] on an optional number. *)
Definition orElse (a : option Z) (b : Z) : Z :=
  match a with
  | Some x => x
  | None => b
  end.

(** [a || b] on an optional string: the empty string is falsy. *)
Definition strOr (a : option string) (b : string) : string :=
  match a with
  | Some s => if (s =? EmptyString)%string then b else s
  | None => b
  end.

(* ---------------------------------------------------------------- *)
(** ** Characters and strings *)

Definition code (c : ascii) : N := N_of_ascii c.

Definition isLower (c : ascii) : bool := ((97 <=? code c) && (code c <=? 122))%N.
Definition isUpper (c : ascii) : bool := ((65 <=? code c) && (code c <=? 90))%N.
Definition isDigit (c : ascii) : bool := ((48 <=? code c) && (code c <=? 57))%N.
Definition isLetter (c : ascii) : bool := isLower c || isUpper c.
Definition isAlnum (c : ascii) : bool := isLetter c || isDigit c.

(** A character of ASCII: one byte below 128. *)
Definition isAscii (c : ascii) : bool := (code c <? 128)%N.

(** Tab, line feed, vertical tab, form feed, carriage return, space. *)
Definition isSpace (c : ascii) : bool :=
  ((9 <=? code c) && (code c <=? 13) || (code c =? 32))%N.

(** White space of two bytes: U+00A0 is [C2 A0]. *)
Definition isSpace2 (a b : ascii) : bool :=
  ((code a =? 194) && (code b =? 160))%N.

(** White space of three bytes: U+1680 is [E1 9A 80]; U+2000 to U+200A,
    U+2028, U+2029 and U+202F are [E2 80] followed by [80] to [8A], [A8],
    [A9], [AF]; U+205F is [E2 81 9F]; U+3000 is [E3 80 80]; U+FEFF is
    [EF BB BF]. *)
Definition isSpace3 (a b c : ascii) : bool :=
  ((code a =? 225) && ((code b =? 154) && (code c =? 128))
   || (code a =? 226)
      && ((code b =? 128)
          && ((128 <=? code c) && (code c <=? 138)
              || (code c =? 168) || (code c =? 169) || (code c =? 175))
          || (code b =? 129) && (code c =? 159))
   || (code a =? 227) && ((code b =? 128) && (code c =? 128))
   || (code a =? 239) && ((code b =? 187) && (code c =? 191)))%N.

Definition upperChar (c : ascii) : ascii :=
  if isLower c then ascii_of_N (code c - 32) else c.

Definition lowerChar (c : ascii) : ascii :=
  if isUpper c then ascii_of_N (code c + 32) else c.

Fixpoint mapChars (f : ascii -> ascii) (s : string) : string :=
  match s with
  | EmptyString => EmptyString
  | String c r => String (f c) (mapChars f r)
  end.

(** Upper-casing of the letters of ASCII alone. *)
Definition upperAscii : string -> string := mapChars upperChar.

(** The characters of two bytes whose upper-case form is ASCII text:
    U+00DF [C3 9F], U+0131 [C4 B1] and U+017F [C5 BF]. *)
Definition upper2 (a b : ascii) : option string :=
  if (code a =? 195)%N then (if (code b =? 159)%N then Some "SS" else None)
  else if (code a =? 196)%N then (if (code b =? 177)%N then Some "I" else None)
  else if (code a =? 197)%N then (if (code b =? 191)%N then Some "S" else None)
  else None.

(** The characters of three bytes whose upper-case form is ASCII text: the
    ligatures U+FB00 to U+FB06, [EF AC 80] to [EF AC 86]. *)
Definition upper3 (a b c : ascii) : option string :=
  if (code a =? 239)%N then
    if (code b =? 172)%N then
      if (code c =? 128)%N then Some "FF"
      else if (code c =? 129)%N then Some "FI"
      else if (code c =? 130)%N then Some "FL"
      else if (code c =? 131)%N then Some "FFI"
      else if (code c =? 132)%N then Some "FFL"
      else if (code c =? 133)%N then Some "ST"
      else if (code c =? 134)%N then Some "ST"
      else None
    else None
  else None.

(** [s.toUpperCase()].  A letter of ASCII is upper-cased, and so is every
    character beyond ASCII whose upper-case form is ASCII text ([upper2],
    [upper3]: there are ten).  The other characters beyond ASCII are left as
    they are: their upper-case forms all have a character beyond ASCII, so
    the result equals a given ASCII text exactly when the JavaScript result
    does, which is all the client asks of it. *)
Fixpoint toUpperCase (s : string) : string :=
  match s with
  | EmptyString => EmptyString
  | String a r1 =>
      match r1 with
      | EmptyString => String (upperChar a) EmptyString
      | String b r2 =>
          match upper2 a b with
          | Some u => u ++ toUpperCase r2
          | None =>
              match r2 with
              | EmptyString => String (upperChar a) (toUpperCase r1)
              | String c r3 =>
                  match upper3 a b c with
                  | Some u => u ++ toUpperCase r3
                  | None => String (upperChar a) (toUpperCase r1)
                  end
              end
          end
      end
  end.

(** [s.toLowerCase()].  The letters of ASCII are lower-cased.  The one
    character beyond ASCII with an ASCII lower-case form is the Kelvin sign
    U+212A; the client compares lower-cased text only with [jpg], [jpeg],
    [png], [webp] and [gif] and lower-cases an id only after the pattern
    [CUID2_REGEX] has matched it, so the sign cannot change an answer. *)
Definition toLowerCase : string -> string := mapChars lowerChar.

Fixpoint allChars (p : ascii -> bool) (s : string) : bool :=
  match s with
  | EmptyString => true
  | String c r => p c && allChars p r
  end.

(** [s.trimStart()]: white space is the six characters of [isSpace] and the
    characters of [isSpace2] and [isSpace3], that is, WhiteSpace and
    LineTerminator of the language in UTF-8. *)
Fixpoint trimStart (s : string) : string :=
  match s with
  | EmptyString => EmptyString
  | String a r1 =>
      if isSpace a then trimStart r1
      else
        match r1 with
        | EmptyString => s
        | String b r2 =>
            if isSpace2 a b then trimStart r2
            else
              match r2 with
              | EmptyString => s
              | String c r3 => if isSpace3 a b c then trimStart r3 else s
              end
        end
  end.

(** Nothing but white space. *)
Fixpoint allSpace (s : string) : bool :=
  match s with
  | EmptyString => true
  | String a r1 =>
      if isSpace a then allSpace r1
      else
        match r1 with
        | EmptyString => false
        | String b r2 =>
            if isSpace2 a b then allSpace r2
            else
              match r2 with
              | EmptyString => false
              | String c r3 => isSpace3 a b c && allSpace r3
              end
        end
  end.

(** [s.trimEnd()]: the text stops where only white space is left. *)
Fixpoint trimEnd (s : string) : string :=
  match s with
  | EmptyString => EmptyString
  | String a r => if allSpace s then EmptyString else String a (trimEnd r)
  end.

Definition trim (s : string) : string := trimEnd (trimStart s).

(** The text after the last occurrence of [sep], the whole string when
    there is none: [s.split(sep).pop()]. *)
Fixpoint lastSegment (sep : ascii) (s acc : string) : string :=
  match s with
  | EmptyString => acc
  | String c r =>
      if Ascii.eqb c sep then lastSegment sep r EmptyString
      else lastSegment sep r (acc ++ String c EmptyString)
  end.

Definition popSplit (sep : ascii) (s : string) : string :=
  lastSegment sep s EmptyString.

End Js.

Import Js.

(* ================================================================== *)
(** * Outcomes and errors *)

(** The fields of a JSON object answer that the client reads.  A field the
    answer does not have reads as [undefined] ([None] for the list). *)
Record Json : Type := mkJson {
  success : value;
  uploads : option (list string);
  reason : value;
  status : value;
  src : value;
  missing : value
}.

Definition emptyObj : Json :=
  mkJson VUndefined None VUndefined VUndefined VUndefined VUndefined.

(** [{ missing: true }] *)
Definition missingObj : Json :=
  mkJson VUndefined None VUndefined VUndefined VUndefined (VBool true).

(** A JavaScript [Error] with the extra fields this client hangs on it.
    [err_body = Some None] is [e.body = null]. *)
Record Error : Type := mkError {
  message : string;
  err_code : option string;
  err_status : option Z;
  err_body : option (option Json);
  uploadStatus : option Json;
  statusObj : option Json
}.

(** [new Error(msg)] *)
Definition newError (msg : string) : Error :=
  mkError msg None None None None None.

Inductive Outcome (A : Type) : Type :=
| Ret (a : A)
| Throw (e : Error)
| Starved.

Arguments Ret {A} a.
Arguments Throw {A} e.
Arguments Starved {A}.

(* ================================================================== *)
(** * Validation (pure) *)

(** [REPLY_PERMISSIONS.has(up)] *)
Definition REPLY_PERMISSIONS_has (up : string) : bool :=
  (up =? "PRIVATE")%string || (up =? "PUBLIC")%string.

Definition quote : string := String (ascii_of_nat 34) EmptyString.

Definition replyPermissionEmptyMsg : string :=
  "replyPermission cannot be empty. Use " ++ quote ++ "PUBLIC" ++ quote
  ++ " or " ++ quote ++ "PRIVATE" ++ quote ++ ".".

Definition replyPermissionInvalidMsg : string :=
  "replyPermission must be one of: PRIVATE, PUBLIC".

(** [validateReplyPermission(rp)]: the result is [undefined] for an omitted
    value and the upper-cased permission otherwise. *)
Definition validateReplyPermission (rp : value) : Outcome value :=
  match rp with
  | VUndefined => Ret VUndefined
  | _ =>
      if match rp with
         | VNull => true
         | VStr s => (trim s =? EmptyString)%string || negb (truthy rp)
         | _ => negb (truthy rp)
         end
      then Throw (newError replyPermissionEmptyMsg)
      else
        let up := toUpperCase (ToString rp) in
        if negb (REPLY_PERMISSIONS_has up)
        then Throw (newError replyPermissionInvalidMsg)
        else Ret (VStr up)
  end.

(** [CUID2_REGEX.test(s)] for [/^[a-z][a-z0-9]{23,31}$/i]: one letter, then
    23 to 31 letters or digits, and nothing else; the [i] flag lets both
    classes take either case. *)
Definition CUID2_REGEX_test (s : string) : bool :=
  match s with
  | EmptyString => false
  | String c r =>
      isLetter c && allChars isAlnum r
      && (23 <=? length r)%nat && (length r <=? 31)%nat
  end.

Definition quotePostIDMsg : string :=
  "quotePostID must be a valid CUID v2-style id (letter + lowercase alphanumeric, length ~24-32).".

(** [validateQuotePostID(id)] *)
Definition validateQuotePostID (id : value) : Outcome value :=
  if nullish id then Ret VUndefined
  else
    let s := trim (ToString id) in
    if negb (CUID2_REGEX_test s)
    then Throw (newError quotePostIDMsg)
    else Ret (VStr (toLowerCase s)).

(* ================================================================== *)
(** * Requests, answers and the world *)

(** A browser or Bun [File]. *)
Record FileObj : Type := mkFileObj {
  name : string;
  fileType : string;
  fileData : list Byte.byte
}.

(** One item of the [files] argument; a property the caller left out is
    [None]. *)
Record FileInput : Type := mkFileInput {
  path : option string;
  buffer : option (list Byte.byte);
  file : option FileObj;
  filename : option string;
  contentType : option string
}.

(** One [files] entry of the multipart form. *)
Record Part : Type := mkPart {
  partFilename : string;
  partType : string;
  partData : list Byte.byte
}.

(** The JSON body of [POST postsPath]; [p_userIP] is there only when the
    caller gave a truthy one. *)
Record PostPayload : Type := mkPayload {
  p_body : string;
  p_medias : list value;
  p_replyPermission : value;
  p_quotePostID : value;
  p_userIP : option value
}.

(** The three calls the client makes; URL and headers are fixed by the
    configuration and are not kept. *)
Inductive Request : Type :=
| ReqUpload (form : list Part)
| ReqStatus (uploadId : string)
| ReqPost (payload : PostPayload).

(** An HTTP answer: [parsed] is what [resp.json()] gives, [None] when the
    body is not JSON.  A body that is JSON is an object. *)
Record Response : Type := mkResponse {
  resp_status : Z;
  statusText : string;
  parsed : option Json
}.

(** [resp.ok] *)
Definition ok (r : Response) : bool :=
  (200 <=? resp_status r) && (resp_status r <=? 299).

(** How [fetch] settles, and after how many milliseconds. *)
Inductive Settled : Type :=
| Responded (r : Response)
| Rejected (msg : string).

Record Reply : Type := mkReply {
  settled : Settled;
  elapsed : Z
}.

Inductive Event : Type :=
| EvFetch (rq : Request) (rp : Reply)
| EvWait (ms : Z).

(** Wall clock ([Date.now()]) and what happened so far, oldest first. *)
Record World : Type := mkWorld {
  now : Z;
  trace : list Event
}.

(** The collaborators: the service behind the network, the timers and the
    file system.  [lag] is by how much a timer misses the delay it was
    given: positive when it fires late. *)
Record Env : Type := mkEnv {
  net : list Event -> Request -> Reply;
  lag : list Event -> Z -> Z;
  disk : string -> option (list Byte.byte)
}.

Record Config : Type := mkConfig {
  pollIntervalMs : Z;
  pollTimeoutMs : Z;
  maxRetries : Z
}.

Definition DEFAULTS : Config := mkConfig 1000 30000 3.

Record PollOptions : Type := mkPollOptions {
  intervalMs : option Z;
  timeoutMs : option Z
}.

Record PostArgs : Type := mkPostArgs {
  a_body : string;
  a_medias : list value;
  a_replyPermission : value;
  a_quotePostID : value;
  a_userIP : value
}.

Record PostWithFilesArgs : Type := mkPostWithFilesArgs {
  f_body : string;
  f_files : list FileInput;
  f_replyPermission : value;
  f_quotePostID : value;
  f_pollOptions : PollOptions;
  f_timeoutMs : Z
}.

(* ================================================================== *)
(** * The monad of the client *)

Definition M (A : Type) : Type := World -> Outcome A * World.

Definition ret {A} (a : A) : M A := fun w => (Ret a, w).
Definition throw {A} (e : Error) : M A := fun w => (Throw e, w).
Definition starve {A} : M A := fun w => (Starved, w).

Definition bind {A B} (m : M A) (k : A -> M B) : M B :=
  fun w =>
    match m w with
    | (Ret a, w') => k a w'
    | (Throw e, w') => (Throw e, w')
    | (Starved, w') => (Starved, w')
    end.

(** [m.catch(h)] and [try { m } catch (e) { h e }] *)
Definition catch {A} (m : M A) (h : Error -> M A) : M A :=
  fun w =>
    match m w with
    | (Throw e, w') => h e w'
    | r => r
    end.

(** A pure computation that may throw. *)
Definition lift {A} (o : Outcome A) : M A := fun w => (o, w).

(** [Date.now()] *)
Definition dateNow : M Z := fun w => (Ret (now w), w).

Declare Scope client_scope.
Delimit Scope client_scope with client.
Notation "x <- m ;; k" := (bind m (fun x => k))
  (at level 61, m at next level, right associativity) : client_scope.
Notation "m ;;; k" := (bind m (fun _ => k))
  (at level 61, right associativity) : client_scope.
Local Open Scope client_scope.

(* ================================================================== *)
(** * The client *)

(** The delay [setTimeout(f, ms)] really sets: a delay below 1 or above
    2^31-1 is taken as 1. *)
Definition timerDelay (ms : Z) : Z :=
  if (ms <? 1) || (2147483647 <? ms) then 1 else ms.

(** The type a [File] or [Blob] made with [{ type }] has: the text in lower
    case, or nothing when a character of it is outside U+0020 to U+007E. *)
Definition blobType (t : string) : string :=
  if allChars (fun c => (32 <=? code c) && (code c <=? 126))%N t
  then toLowerCase t else EmptyString.

Section Client.

Variable E : Env.
Variable config : Config.

(** [wait(ms)]: the clock moves on by the delay asked for and by [lag], the
    amount by which the timer of the environment misses that delay.  The lag
    is negative for a timer that fires early, as the timer of Node does for a
    delay above 2^31-1, which it takes as 1 ms; [steadyClock] below is the
    assumption that no timer does. *)
Definition wait (ms : Z) : M unit :=
  fun w =>
    (Ret tt, mkWorld (now w + Z.max 0 ms + lag E (trace w) ms)
                     (trace w ++ [EvWait ms])).

Definition timedOut (ms : Z) : Error :=
  mkError ("Request timed out after " ++ string_of_Z ms ++ "ms")
          (Some "ETIMEDOUT") None None None None.

(** [fetchWithTimeout]: the abort timer and the exchange race; the timer
    wins when the answer would come after its delay, which is [ms] as
    [setTimeout] takes it.  The message names [ms] as given. *)
Definition fetchWithTimeout (rq : Request) (ms : Z) : M Response :=
  fun w =>
    let rp := net E (trace w) rq in
    let after t := mkWorld (now w + t) (trace w ++ [EvFetch rq rp]) in
    if timerDelay ms <? elapsed rp then (Throw (timedOut ms), after (timerDelay ms))
    else
      match settled rp with
      | Responded r => (Ret r, after (elapsed rp))
      | Rejected msg => (Throw (newError msg), after (elapsed rp))
      end.

(** [_doFetch]: adds the two headers, which the model does not keep. *)
Definition _doFetch (rq : Request) (ms : Z) : M Response :=
  fetchWithTimeout rq ms.

(** [resp.json()] *)
Definition json (r : Response) : M Json :=
  match parsed r with
  | Some j => ret j
  | None => throw (newError "SyntaxError: the body is not valid JSON")
  end.

(** [safeParseJSON(resp)]: [None] is [null]. *)
Definition safeParseJSON (r : Response) : option Json := parsed r.

Definition guessContentTypeFromFilename (nm : string) : option string :=
  if (nm =? EmptyString)%string then None
  else
    let ext := toLowerCase (popSplit "." nm) in
    if ((ext =? "jpg") || (ext =? "jpeg"))%string then Some "image/jpeg"
    else if (ext =? "png")%string then Some "image/png"
    else if (ext =? "webp")%string then Some "image/webp"
    else if (ext =? "gif")%string then Some "image/gif"
    else None.

(** [path.basename(p)]: the last component, slashes at the end dropped. *)
Fixpoint dropSlashes (s : string) : string :=
  match s with
  | EmptyString => EmptyString
  | String c r =>
      match dropSlashes r with
      | EmptyString => if Ascii.eqb c "/" then EmptyString else String c EmptyString
      | r' => String c r'
      end
  end.

Definition basename (p : string) : string := popSplit "/" (dropSlashes p).

(** [f.contentType || guessContentTypeFromFilename(filename) ||
    'application/octet-stream'] *)
Definition typeFor (f : FileInput) (fname : string) : string :=
  match contentType f with
  | Some t => if (t =? EmptyString)%string
              then match guessContentTypeFromFilename fname with
                   | Some g => g
                   | None => "application/octet-stream"
                   end
              else t
  | None => match guessContentTypeFromFilename fname with
            | Some g => g
            | None => "application/octet-stream"
            end
  end.

Definition truthyPath (f : FileInput) : option string :=
  match path f with
  | Some p => if (p =? EmptyString)%string then None else Some p
  | None => None
  end.

(** The body of the [for (const f of files)] loop.  The part made from a
    path or a buffer is a [File] (or a [Blob] with a file name) of type
    [contentType]; the part made from a [File] is that file. *)
Definition appendFile (f : FileInput) : Outcome Part :=
  match truthyPath f with
  | Some p =>
      let fname := strOr (filename f) (basename p) in
      match disk E p with
      | None => Throw (mkError ("ENOENT: no such file or directory, open '" ++ p ++ "'")
                               (Some "ENOENT") None None None None)
      | Some bytes => Ret (mkPart fname (blobType (typeFor f fname)) bytes)
      end
  | None =>
      match buffer f with
      | Some bytes =>
          let fname := strOr (filename f) "file" in
          Ret (mkPart fname (blobType (typeFor f fname)) bytes)
      | None =>
          match file f with
          | Some fo =>
              Ret (mkPart (strOr (Some (name fo)) "file") (fileType fo) (fileData fo))
          | None => Throw (newError "each file must contain either path, buffer, or file")
          end
      end
  end.

Fixpoint buildForm (files : list FileInput) : Outcome (list Part) :=
  match files with
  | [] => Ret []
  | f :: rest =>
      match appendFile f with
      | Ret p =>
          match buildForm rest with
          | Ret ps => Ret (p :: ps)
          | other => other
          end
      | Throw e => Throw e
      | Starved => Starved
      end
  end.

Definition uploadFailed (resp : Response) : Error :=
  let body := safeParseJSON resp in
  let fallback := string_of_Z (resp_status resp) ++ " " ++ statusText resp in
  let why := match body with
             | Some j => if truthy (reason j) then ToString (reason j) else fallback
             | None => fallback
             end in
  mkError ("Upload failed: " ++ why) None (Some (resp_status resp)) (Some body) None None.

Definition uploadNotSuccess (j : Json) : Error :=
  mkError "upload endpoint returned success=false" None None (Some (Some j)) None None.

(** [uploadFiles(files)] for an array [files] and a URL that [new URL]
    builds; [uploadFilesCall] below has the lines before.  A body that is
    JSON is taken to be an object, as [Json] has it. *)
Definition uploadFiles (files : list FileInput) : M (list string) :=
  match files with
  | [] => throw (newError "files must be a non-empty array")
  | _ =>
      form <- lift (buildForm files) ;;
      resp <- _doFetch (ReqUpload form) 60000 ;;
      if negb (ok resp) then throw (uploadFailed resp)
      else
        j <- json resp ;;
        if negb (truthy (success j)) then throw (uploadNotSuccess j)
        else ret (match uploads j with Some l => l | None => [] end)
  end.

Definition statusFetchFailed (resp : Response) : Error :=
  mkError "Failed to fetch upload status" None (Some (resp_status resp))
          (Some (safeParseJSON resp)) None None.

(** [getUploadStatus(uploadId)] from its request on, the URL being built;
    [getUploadStatusCall] below has the line before. *)
Definition getUploadStatus (uploadId : string) : M Json :=
  resp <- _doFetch (ReqStatus uploadId) 15000 ;;
  if resp_status resp =? 404 then ret missingObj
  else if negb (ok resp) then throw (statusFetchFailed resp)
  else json resp.

Definition pollTimeout (st : Json) : Error :=
  mkError "polling timeout waiting for processed" None None None (Some st) None.

(** The [while (true)] of [pollUntilProcessed]. *)
Fixpoint pollLoop (fuel : nat) (uploadId : string) (interval tmo start : Z) : M Json :=
  match fuel with
  | O => starve
  | S k =>
      st <- getUploadStatus uploadId ;;
      if isStr (status st) "PROCESSED" then ret st
      else if isStr (status st) "DELETED" || isStr (status st) "ATTACHED" then ret st
      else
        t <- dateNow ;;
        if t - start >? tmo then throw (pollTimeout st)
        else wait interval ;;; pollLoop k uploadId interval tmo start
  end.

(** [pollUntilProcessed(uploadId, options)] *)
Definition pollUntilProcessed (fuel : nat) (uploadId : string) (options : PollOptions) : M Json :=
  let interval := orElse (intervalMs options) (pollIntervalMs config) in
  let tmo := orElse (timeoutMs options) (pollTimeoutMs config) in
  start <- dateNow ;;
  pollLoop fuel uploadId interval tmo start.

Definition submitFailed (resp : Response) : Error :=
  mkError "submit post failed" None (Some (resp_status resp))
          (Some (safeParseJSON resp)) None None.

(** [submitPost({ body, medias, replyPermission, quotePostID, userIP })]
    with a URL that [new URL] builds; [submitPostCall] below has that line
    too. *)
Definition submitPost (a : PostArgs) : M Json :=
  rp <- lift (match a_replyPermission a with
              | VUndefined => Ret (VStr "PUBLIC")
              | other => validateReplyPermission other
              end) ;;
  qid <- lift (if nullish (a_quotePostID a) then Ret VNull
               else validateQuotePostID (a_quotePostID a)) ;;
  let payload :=
    mkPayload (a_body a) (a_medias a) rp qid
              (if truthy (a_userIP a) then Some (a_userIP a) else None) in
  resp <- _doFetch (ReqPost payload) 20000 ;;
  if negb (ok resp) then throw (submitFailed resp)
  else json resp.

(** The [while (true)] of [retryAsync]; [i] counts the failures so far. *)
Fixpoint retryLoop {A} (fuel : nat) (fn : M A) (retries backoffMs i : Z) : M A :=
  match fuel with
  | O => starve
  | S k =>
      catch fn (fun e =>
        let i' := i + 1 in
        if i' >? retries then throw e
        else wait (backoffMs * i') ;;; retryLoop k fn retries backoffMs i')
  end.

(** [retryAsync(fn, retries, backoffMs)] *)
Definition retryAsync {A} (fuel : nat) (fn : M A) (retries backoffMs : Z) : M A :=
  retryLoop fuel fn retries backoffMs 0.

Definition terminalState (uploadId : string) (st : Json) : Error :=
  mkError ("Upload " ++ uploadId ++ " terminal state: " ++ ToString (status st))
          None None None None (Some st).

Definition processedNoSrc (uploadId : string) (st : Json) : Error :=
  mkError ("Upload " ++ uploadId ++ " processed but no src returned")
          None None None None (Some st).

Definition deadlineError : Error :=
  newError "Timeout while waiting for files to be processed".

(** The [for (const uploadId of uploads)] loop of [submitPostWithFiles]. *)
Fixpoint pollEach (fuel : nat) (pollOptions : PollOptions) (tmo start : Z)
         (ids : list string) (finalSrcs : list value) : M (list value) :=
  match ids with
  | [] => ret finalSrcs
  | uploadId :: rest =>
      t <- dateNow ;;
      let remainingTime := tmo - (t - start) in
      if remainingTime <=? 0 then throw deadlineError
      else
        st <- pollUntilProcessed fuel uploadId
                (mkPollOptions (intervalMs pollOptions)
                   (Some (Z.min remainingTime
                            (orElse (timeoutMs pollOptions) (pollTimeoutMs config))))) ;;
        if negb (isStr (status st) "PROCESSED") then throw (terminalState uploadId st)
        else if negb (truthy (src st)) then throw (processedNoSrc uploadId st)
        else pollEach fuel pollOptions tmo start rest (finalSrcs ++ [src st])
  end.

(** The upload step of [submitPostWithFiles]: the retried call with its
    [.catch] handler. *)
Definition uploadWithRetry (fuel : nat) (files : list FileInput) : M (list string) :=
  catch (retryAsync fuel (uploadFiles files) (maxRetries config) 300)
        (fun err => throw (newError ("Uploading files failed: " ++ message err))).

(** [submitPostWithFiles({ body, files, replyPermission, quotePostID,
    pollOptions, timeoutMs })] *)
Definition submitPostWithFiles (fuel : nat) (a : PostWithFilesArgs) : M Json :=
  match f_files a with
  | [] => submitPost (mkPostArgs (f_body a) [] (f_replyPermission a) (f_quotePostID a) VNull)
  | _ =>
      lift (match f_replyPermission a with
            | VUndefined => Ret VUndefined
            | other => validateReplyPermission other
            end) ;;;
      lift (if negb (nullish (f_quotePostID a)) then validateQuotePostID (f_quotePostID a)
            else Ret VUndefined) ;;;
      ids <- uploadWithRetry fuel (f_files a) ;;
      start <- dateNow ;;
      finalSrcs <- pollEach fuel (f_pollOptions a) (f_timeoutMs a) start ids [] ;;
      submitPost (mkPostArgs (f_body a) finalSrcs (f_replyPermission a) (f_quotePostID a) VNull)
  end.

End Client.

(* ================================================================== *)
(** * Shapes named by the specification *)

(** What [validateQuotePostID] accepts: a letter, then letters or digits,
    24 to 32 characters in all, either case. *)
Definition cuidShape (s : string) : Prop :=
  exists c r, s = String c r /\ isLetter c = true /\ allChars isAlnum r = true
              /\ (24 <= length s <= 32)%nat.

(** The shape as worded: a leading letter followed by lower-case letters or
    digits, 24 to 32 characters in all. *)
Definition lowerCuidShape (s : string) : bool :=
  match s with
  | EmptyString => false
  | String c r =>
      isLetter c && allChars (fun x => isLower x || isDigit x) r
      && (24 <=? length s)%nat && (length s <=? 32)%nat
  end.

(** Equal once upper-cased: a match that ignores case. *)
Definition sameIgnoringCase (s t : string) : Prop :=
  toUpperCase s = toUpperCase t.

(** The reply permission an explicitly supplied value stands for. *)
Definition standsFor (rp : value) (up : string) : Prop :=
  (up = "PUBLIC" \/ up = "PRIVATE") /\
  exists s, rp = VStr s /\ sameIgnoringCase s up.

(** What [submitPost] makes of the reply permission before it sends
    anything. *)
Definition permissionResolved (rp : value) : Outcome value :=
  match rp with
  | VUndefined => Ret (VStr "PUBLIC")
  | other => validateReplyPermission other
  end.

(** What [submitPost] makes of the quote id before it sends anything. *)
Definition quoteResolved (id : value) : Outcome value :=
  if nullish id then Ret VNull else validateQuotePostID id.

(** [submitPost] performs exactly one exchange, a post of payload [p]. *)
Definition sends (E : Env) (a : PostArgs) (w : World) (p : PostPayload) : Prop :=
  trace (snd (submitPost E a w)) =
  (trace w ++ [EvFetch (ReqPost p) (net E (trace w) (ReqPost p))])%list.

Definition userIPField (a : PostArgs) : option value :=
  if truthy (a_userIP a) then Some (a_userIP a) else None.

(** A status answer on which [pollUntilProcessed] returns. *)
Definition isTerminal (st : Json) : bool :=
  isStr (status st) "PROCESSED"
  || (isStr (status st) "DELETED" || isStr (status st) "ATTACHED").

(** What [getUploadStatus] makes of the reply to its request. *)
Definition statusOf (rp : Reply) : Outcome Json :=
  if 15000 <? elapsed rp then Throw (timedOut 15000)
  else
    match settled rp with
    | Rejected msg => Throw (newError msg)
    | Responded r =>
        if resp_status r =? 404 then Ret missingObj
        else if negb (ok r) then Throw (statusFetchFailed r)
        else match parsed r with
             | Some j => Ret j
             | None => Throw (newError "SyntaxError: the body is not valid JSON")
             end
    end.

(** The status results seen in a stretch of history, oldest first. *)
Fixpoint observed (evs : list Event) : list (Outcome Json) :=
  match evs with
  | [] => []
  | EvFetch (ReqStatus _) rp :: rest => statusOf rp :: observed rest
  | _ :: rest => observed rest
  end.

(** A status result that is an answer and is not terminal. *)
Definition stillWaiting (o : Outcome Json) : Prop :=
  exists st, o = Ret st /\ isTerminal st = false.

(** Time does not run backwards: exchanges take no negative time and timers
    do not fire early. *)
Definition steadyClock (E : Env) : Prop :=
  (forall h rq, 0 <= elapsed (net E h rq)) /\ (forall h ms, 0 <= lag E h ms).

(* ================================================================== *)
(** * Reading a history *)

(** How many upload requests a history holds. *)
Fixpoint uploadRequests (h : list Event) : nat :=
  match h with
  | [] => 0
  | EvFetch (ReqUpload _) _ :: r => S (uploadRequests r)
  | _ :: r => uploadRequests r
  end.

(** The payloads posted in a stretch of history, oldest first. *)
Fixpoint posts (evs : list Event) : list PostPayload :=
  match evs with
  | [] => []
  | EvFetch (ReqPost p) _ :: rest => p :: posts rest
  | _ :: rest => posts rest
  end.

(** The terminal status answers in a stretch of history, each with the
    upload it is about, oldest first: the final polled status of every
    upload whose polling came to an end. *)
Fixpoint finals (evs : list Event) : list (string * Json) :=
  match evs with
  | [] => []
  | EvFetch (ReqStatus id) rp :: rest =>
      match statusOf rp with
      | Ret st => if isTerminal st then (id, st) :: finals rest else finals rest
      | _ => finals rest
      end
  | _ :: rest => finals rest
  end.

(** A status that [submitPostWithFiles] lets through. *)
Definition usable (st : Json) : bool :=
  isStr (status st) "PROCESSED" && truthy (src st).

(** A call ended by throwing. *)
Definition failed {A} (r : Outcome A * World) : Prop :=
  exists e, fst r = Throw e.

(** The world in which attempt number [k + 1] of a retried [fn] starts, when
    every attempt before it failed and [i] failures had been counted at the
    outset: after failure number [n] the loop waits [backoffMs * n]. *)
Fixpoint attemptAt {A} (E : Env) (fn : M A) (backoffMs i : Z) (k : nat) (w : World) : World :=
  match k with
  | O => w
  | S j =>
      snd (wait E (backoffMs * (i + Z.of_nat (S j)))
             (snd (fn (attemptAt E fn backoffMs i j w))))
  end.

(** What [uploadFiles] makes of the reply to its request. *)
Definition uploadOutcome (rp : Reply) : Outcome (list string) :=
  if 60000 <? elapsed rp then Throw (timedOut 60000)
  else
    match settled rp with
    | Rejected msg => Throw (newError msg)
    | Responded r =>
        if negb (ok r) then Throw (uploadFailed r)
        else match parsed r with
             | None => Throw (newError "SyntaxError: the body is not valid JSON")
             | Some j =>
                 if negb (truthy (success j)) then Throw (uploadNotSuccess j)
                 else Ret (match uploads j with Some l => l | None => [] end)
             end
    end.

(** An item with none of the three forms. *)
Definition noForm (f : FileInput) : Prop :=
  truthyPath f = None /\ buffer f = None /\ file f = None.

(** An item that names a path the file system cannot read. *)
Definition unreadable (E : Env) (f : FileInput) : Prop :=
  exists p, truthyPath f = Some p /\ disk E p = None.

(** The upload request got an HTTP answer [r] in time. *)
Definition answered (E : Env) (files : list FileInput) (w : World) (r : Response) : Prop :=
  exists form,
    buildForm E files = Ret form
    /\ elapsed (net E (trace w) (ReqUpload form)) <= 60000
    /\ settled (net E (trace w) (ReqUpload form)) = Responded r.

(** The upload request got no HTTP answer: the abort timer fired first, or
    the transport rejected the request. *)
Definition unanswered (E : Env) (files : list FileInput) (w : World) : Prop :=
  exists form,
    buildForm E files = Ret form
    /\ (60000 < elapsed (net E (trace w) (ReqUpload form))
        \/ exists msg, settled (net E (trace w) (ReqUpload form)) = Rejected msg).

(** The failure conditions as listed: empty list, an item with none of the
    three forms, a non-success HTTP status, a body whose [success] is
    falsy. *)
Definition listedFailure (E : Env) (files : list FileInput) (w : World) : Prop :=
  files = []
  \/ (exists f, In f files /\ noForm f)
  \/ (exists r, answered E files w r
                /\ (ok r = false
                    \/ exists j, parsed r = Some j /\ truthy (success j) = false)).

(** The failure conditions of the code: the listed ones, and an unreadable
    path, a request without an answer, a success answer that is not JSON. *)
Definition actualFailure (E : Env) (files : list FileInput) (w : World) : Prop :=
  listedFailure E files w
  \/ (exists f, In f files /\ unreadable E f)
  \/ unanswered E files w
  \/ (exists r, answered E files w r /\ ok r = true /\ parsed r = None).

(* ================================================================== *)
(** * Scenarios *)

Module Scenario.

Definition pending : Json :=
  mkJson VUndefined None VUndefined (VStr "PENDING") VUndefined VUndefined.

Definition processed (s : string) : Json :=
  mkJson VUndefined None VUndefined (VStr "PROCESSED") (VStr s) VUndefined.

Definition deleted : Json :=
  mkJson VUndefined None VUndefined (VStr "DELETED") VUndefined VUndefined.

Definition uploaded (ids : list string) : Json :=
  mkJson (VBool true) (Some ids) VUndefined VUndefined VUndefined VUndefined.

Definition accepted : Json :=
  mkJson (VBool true) None VUndefined VUndefined VUndefined VUndefined.

Definition answer (code : Z) (j : Json) (ms : Z) : Reply :=
  mkReply (Responded (mkResponse code EmptyString (Some j))) ms.

(** How many status requests the history holds. *)
Fixpoint countStatus (h : list Event) : nat :=
  match h with
  | [] => 0
  | EvFetch (ReqStatus _) _ :: r => S (countStatus r)
  | _ :: r => countStatus r
  end.

Definition noLag : list Event -> Z -> Z := fun _ _ => 0.
Definition noDisk : string -> option (list Byte.byte) := fun _ => None.

(** A service whose uploads never leave PENDING; every exchange takes 10 ms. *)
Definition stuck : Env :=
  mkEnv (fun _ rq =>
           match rq with
           | ReqStatus _ => answer 200 pending 10
           | ReqUpload _ => answer 200 (uploaded ["U1"]) 10
           | ReqPost _ => answer 200 accepted 10
           end)
        noLag noDisk.

(** A service that does not know the upload at the first query (404) and has
    processed it at the second. *)
Definition lateKnown : Env :=
  mkEnv (fun h rq =>
           match rq with
           | ReqStatus _ =>
               match countStatus h with
               | O => answer 404 emptyObj 10
               | _ => answer 200 (processed "S1") 10
               end
           | ReqUpload _ => answer 200 (uploaded ["U1"]) 10
           | ReqPost _ => answer 200 accepted 10
           end)
        noLag noDisk.

(** A service that processes at once: upload gives U1 and U2, a status query
    gives PROCESSED with the id as media reference. *)
Definition smooth : Env :=
  mkEnv (fun _ rq =>
           match rq with
           | ReqStatus id => answer 200 (processed id) 10
           | ReqUpload _ => answer 200 (uploaded ["U1"; "U2"]) 10
           | ReqPost _ => answer 200 accepted 10
           end)
        noLag noDisk.

(** The upload endpoint fails twice with 503, then succeeds. *)
Definition flaky : Env :=
  mkEnv (fun h rq =>
           match rq with
           | ReqStatus id => answer 200 (processed id) 10
           | ReqUpload _ =>
               match uploadRequests h with
               | O | 1%nat => answer 503 emptyObj 10
               | _ => answer 200 (uploaded ["U1"]) 10
               end
           | ReqPost _ => answer 200 accepted 10
           end)
        noLag noDisk.

(** The upload endpoint answers success without an [uploads] field. *)
Definition bare : Env :=
  mkEnv (fun _ rq =>
           match rq with
           | ReqStatus id => answer 200 pending 10
           | ReqUpload _ => answer 200 accepted 10
           | ReqPost _ => answer 200 accepted 10
           end)
        noLag noDisk.

(** The upload request is never answered. *)
Definition silent : Env :=
  mkEnv (fun _ rq =>
           match rq with
           | ReqUpload _ => mkReply (Rejected "unreachable") 70000
           | _ => answer 200 accepted 10
           end)
        noLag noDisk.

(** Upload gives U1 and U2; U1 is processed, U2 has been deleted. *)
Definition spoiled : Env :=
  mkEnv (fun _ rq =>
           match rq with
           | ReqStatus id =>
               if (id =? "U1")%string then answer 200 (processed "S1") 10
               else answer 200 deleted 10
           | ReqUpload _ => answer 200 (uploaded ["U1"; "U2"]) 10
           | ReqPost _ => answer 200 accepted 10
           end)
        noLag noDisk.

Definition w0 : World := mkWorld 0 [].

Definition oneBuffer : FileInput :=
  mkFileInput None (Some []) None (Some "a.png") None.

Definition post (files : list FileInput) : PostWithFilesArgs :=
  mkPostWithFilesArgs "hello" files VUndefined VNull (mkPollOptions None None) 120000.

End Scenario.

(* ================================================================== *)
(** * Creating a client *)

(** [normalizeApiKey(raw)]: [None] is a missing key on the way in and
    [null] on the way out. *)
Definition normalizeApiKey (raw : option string) : option string :=
  match raw with
  | None => None
  | Some s =>
      if (s =? EmptyString)%string then None
      else if prefix "Bearer " s then Some s
      else Some ("Bearer " ++ s)
  end.

(** The globals [createClient] looks at: [process.env.BASE_URL] and whether
    [FormData] and [Blob] are defined. *)
Record Host : Type := mkHost {
  BASE_URL : option string;
  hasFormData : bool;
  hasBlob : bool
}.

(** The [opts] argument; a key the caller left out is [None]. *)
Record Options : Type := mkOptions {
  o_baseUrl : option string;
  o_uploadPath : option string;
  o_postsPath : option string;
  o_pollIntervalMs : option Z;
  o_pollTimeoutMs : option Z;
  o_maxRetries : option Z;
  o_apiKey : option string
}.

(** What the closures of a client hold: the merged configuration and the
    authorization header. *)
Record Client : Type := mkClient {
  baseUrl : string;
  uploadPath : string;
  postsPath : string;
  settings : Config;
  apiKey : string;
  authHeader : option string
}.

Definition formDataMissingMsg : string :=
  "Global FormData/Blob not available. Run in Node >=18 or provide a polyfill (e.g. formdata-node).".

(** [ensureFormDataSupport()] *)
Definition ensureFormDataSupport (h : Host) : Outcome unit :=
  if negb (hasFormData h) || negb (hasBlob h)
  then Throw (newError formDataMissingMsg)
  else Ret tt.

(** [opts.k] over [DEFAULTS.k] in [{ ...DEFAULTS, ...opts }]. *)
Definition spread {A} (o : option A) (d : A) : A :=
  match o with
  | Some x => x
  | None => d
  end.

(** [createClient(opts)] *)
Definition createClient (h : Host) (opts : Options) : Outcome Client :=
  match o_apiKey opts with
  | None => Throw (newError "apiKey is required to create BoodiBox client")
  | Some key =>
      if (key =? EmptyString)%string
      then Throw (newError "apiKey is required to create BoodiBox client")
      else
        match ensureFormDataSupport h with
        | Ret _ =>
            Ret (mkClient
                   (spread (o_baseUrl opts) (strOr (BASE_URL h) "https://boodibox.com"))
                   (spread (o_uploadPath opts) "/api/v1/uploads")
                   (spread (o_postsPath opts) "/api/v1/posts")
                   (mkConfig (spread (o_pollIntervalMs opts) (pollIntervalMs DEFAULTS))
                             (spread (o_pollTimeoutMs opts) (pollTimeoutMs DEFAULTS))
                             (spread (o_maxRetries opts) (maxRetries DEFAULTS)))
                   key
                   (normalizeApiKey (Some key)))
        | Throw e => Throw e
        | Starved => Starved
        end
  end.

(* ---------------------------------------------------------------- *)
(** ** Request headers *)

(** A plain object with string values: its keys in insertion order. *)
Definition Headers : Type := list (string * string).

Fixpoint getHeader (k : string) (h : Headers) : option string :=
  match h with
  | [] => None
  | (k', v) :: rest => if (k' =? k)%string then Some v else getHeader k rest
  end.

(** [target[k] = v] *)
Fixpoint setHeader (k v : string) (target : Headers) : Headers :=
  match target with
  | [] => [(k, v)]
  | (k', v') :: rest =>
      if (k' =? k)%string then (k, v) :: rest else (k', v') :: setHeader k v rest
  end.

(** [Object.assign(target, source)] *)
Definition assign (target source : Headers) : Headers :=
  fold_left (fun t kv => setHeader (fst kv) (snd kv) t) source target.

(** The headers [_doFetch] puts on a request:
    [Object.assign({}, options.headers || {}, { Authorization, Accept })]. *)
Definition requestHeaders (auth : string) (optionsHeaders : option Headers) : Headers :=
  assign (assign [] (match optionsHeaders with Some h => h | None => [] end))
         [("Authorization", auth); ("Accept", "application/json")].

(* ---------------------------------------------------------------- *)
(** ** The path of a status request *)

(** The characters [encodeURIComponent] leaves alone: letters, digits and
    [- _ . ! ~ * ' ( )]. *)
Definition unreserved (c : ascii) : bool :=
  isAlnum c
  || (code c =? 45)%N || (code c =? 95)%N || (code c =? 46)%N || (code c =? 33)%N
  || (code c =? 126)%N || (code c =? 42)%N || (code c =? 39)%N
  || (code c =? 40)%N || (code c =? 41)%N.

Definition hexDigit (n : N) : ascii :=
  if (n <? 10)%N then ascii_of_N (48 + n) else ascii_of_N (55 + n).

(** One byte of the UTF-8 text, kept or written [%XX]. *)
Definition encodeByte (c : ascii) : string :=
  if unreserved c then String c EmptyString
  else String "%" (String (hexDigit (code c / 16)) (String (hexDigit (code c mod 16)) EmptyString)).

(** [encodeURIComponent(s)] on the UTF-8 bytes of a well-formed text. *)
Fixpoint encodeURIComponent (s : string) : string :=
  match s with
  | EmptyString => EmptyString
  | String c r => encodeByte c ++ encodeURIComponent r
  end.

(** The relative reference [getUploadStatus] hands to [new URL]:
    [`${config.uploadPath}/${encodeURIComponent(uploadId)}`]. *)
Definition statusReference (c : Client) (uploadId : string) : string :=
  uploadPath c ++ "/" ++ encodeURIComponent uploadId.

(* ================================================================== *)
(** * More ways to read a history *)

(** How many status requests and how many waits a history holds. *)
Fixpoint statusRequests (h : list Event) : nat :=
  match h with
  | [] => 0
  | EvFetch (ReqStatus _) _ :: r => S (statusRequests r)
  | _ :: r => statusRequests r
  end.

Fixpoint waits (h : list Event) : nat :=
  match h with
  | [] => 0
  | EvWait _ :: r => S (waits r)
  | _ :: r => waits r
  end.

(** The history of a finished poll of [id]: status queries for [id] with
    one wait of the interval between each two of them. *)
Inductive PollHistory (id : string) (interval : Z) : list Event -> Prop :=
| ph_last rp : PollHistory id interval [EvFetch (ReqStatus id) rp]
| ph_more rp rest :
    PollHistory id interval rest ->
    PollHistory id interval (EvFetch (ReqStatus id) rp :: EvWait interval :: rest).

(** The three phases of [submitPostWithFiles] by their events. *)
Definition uploadEvent (e : Event) : Prop :=
  match e with
  | EvFetch (ReqUpload _) _ | EvWait _ => True
  | _ => False
  end.

Definition pollEvent (e : Event) : Prop :=
  match e with
  | EvFetch (ReqStatus _) _ | EvWait _ => True
  | _ => False
  end.

(** A payload the service is meant to get: PUBLIC or PRIVATE, and a quote id
    that is null or a letter followed by lower-case letters and digits. *)
Definition wellFormed (p : PostPayload) : Prop :=
  (p_replyPermission p = VStr "PUBLIC" \/ p_replyPermission p = VStr "PRIVATE")
  /\ (p_quotePostID p = VNull
      \/ exists s, p_quotePostID p = VStr s /\ lowerCuidShape s = true).

(** What [submitPost] makes of the reply to its request. *)
Definition postOutcome (rp : Reply) : Outcome Json :=
  if 20000 <? elapsed rp then Throw (timedOut 20000)
  else
    match settled rp with
    | Rejected msg => Throw (newError msg)
    | Responded r =>
        if negb (ok r) then Throw (submitFailed r)
        else match parsed r with
             | Some j => Ret j
             | None => Throw (newError "SyntaxError: the body is not valid JSON")
             end
    end.

(** An upload function never moves the clock back. *)
Definition forward {A} (fn : M A) : Prop :=
  forall w, now w <= now (snd (fn w)).

Module Cases.

(** Every exchange takes 7 ms and is answered 500 with a body. *)
Definition broken : Env :=
  mkEnv (fun _ _ => mkReply (Responded (mkResponse 500 "Internal Server Error" (Some emptyObj))) 7)
        (fun _ _ => 0) (fun _ => None).

(** The status is PENDING twice, then PROCESSED with media reference X;
    every exchange takes 10 ms. *)
Definition thirdTime : Env :=
  mkEnv (fun h rq =>
           match rq with
           | ReqStatus _ =>
               match statusRequests h with
               | O | 1%nat => Scenario.answer 200 Scenario.pending 10
               | _ => Scenario.answer 200 (Scenario.processed "X") 10
               end
           | _ => Scenario.answer 200 Scenario.accepted 10
           end)
        (fun _ _ => 0) (fun _ => None).

Definition node : Host := mkHost None true true.

Definition keyOnly (k : string) : Options :=
  mkOptions None None None None None None (Some k).

End Cases.

(** The characters an encoded component is made of: the unreserved ones and
    the percent sign. *)
Definition uriSafe (c : ascii) : bool := unreserved c || (code c =? 37)%N.

(** The value of a hexadecimal digit as [hexDigit] writes it. *)
Definition hexValue (c : ascii) : N :=
  if isDigit c then (code c - 48)%N else (code c - 55)%N.


(** The ids of the status requests in a stretch of history, oldest first. *)
Fixpoint statusIds (evs : list Event) : list string :=
  match evs with
  | [] => []
  | EvFetch (ReqStatus id) _ :: rest => id :: statusIds rest
  | _ :: rest => statusIds rest
  end.

(** [Blocks ids l]: [l] is made of one block of equal ids for each id of a
    front part of [ids], in the order of [ids]; every block has at least one
    member. *)
Inductive Blocks : list string -> list string -> Prop :=
| blocks_stop ids : Blocks ids []
| blocks_poll id rest n l :
    Blocks rest l -> Blocks (id :: rest) (repeat id (S n) ++ l).


(* ================================================================== *)
(** * The calls from their first line

    [uploadFiles], [getUploadStatus] and [submitPost] above are the calls
    for an array of files and with the URL of the request built.  The lines
    before that are here: the test of the [files] argument,
    [encodeURIComponent] and [new URL]. *)

(** [new URL(input, base).toString()] as the host computes it; [None] when
    the constructor throws, as it does for a base that is no absolute URL. *)
Definition UrlParser : Type := string -> string -> option string.

(** The [TypeError] of [new URL]. *)
Definition invalidUrl : Error :=
  mkError "Invalid URL" (Some "ERR_INVALID_URL") None None None None.

Definition newURL (U : UrlParser) (input base : string) : Outcome string :=
  match U input base with
  | Some u => Ret u
  | None => Throw invalidUrl
  end.

(** The [URIError] of [encodeURIComponent]. *)
Definition uriMalformed : Error := newError "URI malformed".

(** A surrogate without its partner.  In the bytes of a text it is [ED]
    followed by [A0] to [BF]; a pair is a character of four bytes. *)
Fixpoint loneSurrogate (s : string) : bool :=
  match s with
  | EmptyString => false
  | String a r =>
      match r with
      | EmptyString => false
      | String b _ =>
          ((code a =? 237) && (160 <=? code b) && (code b <=? 191))%N
          || loneSurrogate r
      end
  end.

(** [`${config.uploadPath}/${encodeURIComponent(uploadId)}`] *)
Definition statusPath (c : Client) (uploadId : string) : Outcome string :=
  if loneSurrogate uploadId then Throw uriMalformed
  else Ret (statusReference c uploadId).

(** The [files] argument as the caller passes it: an array, or a value that
    is no array.  An argument left out is the empty array. *)
Inductive FilesArg : Type :=
| NotArray
| ArrayOf (files : list FileInput).

(** [uploadFiles(files)], lines 91 to 142. *)
Definition uploadFilesCall (U : UrlParser) (c : Client) (E : Env) (a : FilesArg)
  : M (list string) :=
  match a with
  | NotArray | ArrayOf [] => throw (newError "files must be a non-empty array")
  | ArrayOf files =>
      lift (newURL U (uploadPath c) (baseUrl c)) ;;;
      form <- lift (buildForm E files) ;;
      resp <- _doFetch E (ReqUpload form) 60000 ;;
      if negb (ok resp) then throw (uploadFailed resp)
      else
        j <- json resp ;;
        if negb (truthy (success j)) then throw (uploadNotSuccess j)
        else ret (match uploads j with Some l => l | None => [] end)
  end.

(** [getUploadStatus(uploadId)], lines 144 to 156. *)
Definition getUploadStatusCall (U : UrlParser) (c : Client) (E : Env) (uploadId : string)
  : M Json :=
  ref <- lift (statusPath c uploadId) ;;
  lift (newURL U ref (baseUrl c)) ;;;
  resp <- _doFetch E (ReqStatus uploadId) 15000 ;;
  if resp_status resp =? 404 then ret missingObj
  else if negb (ok resp) then throw (statusFetchFailed resp)
  else json resp.

(** [submitPost({ ... })], lines 190 to 219. *)
Definition submitPostCall (U : UrlParser) (c : Client) (E : Env) (a : PostArgs) : M Json :=
  rp <- lift (match a_replyPermission a with
              | VUndefined => Ret (VStr "PUBLIC")
              | other => validateReplyPermission other
              end) ;;
  qid <- lift (if nullish (a_quotePostID a) then Ret VNull
               else validateQuotePostID (a_quotePostID a)) ;;
  lift (newURL U (postsPath c) (baseUrl c)) ;;;
  let payload :=
    mkPayload (a_body a) (a_medias a) rp qid
              (if truthy (a_userIP a) then Some (a_userIP a) else None) in
  resp <- _doFetch E (ReqPost payload) 20000 ;;
  if negb (ok resp) then throw (submitFailed resp)
  else json resp.

(** The upload request was sent and got the HTTP answer [r] in time. *)
Definition sent (U : UrlParser) (c : Client) (E : Env) (files : list FileInput)
           (w : World) (r : Response) : Prop :=
  files <> [] /\ U (uploadPath c) (baseUrl c) <> None /\ answered E files w r.

(** The failure conditions as listed, for any argument: not a list, an empty
    list, an item with none of the three forms, a non-success HTTP status, a
    body whose [success] is falsy. *)
Definition listedFailureOf (U : UrlParser) (c : Client) (E : Env) (a : FilesArg)
           (w : World) : Prop :=
  a = NotArray
  \/ exists files,
       a = ArrayOf files
       /\ (files = []
           \/ (exists f, In f files /\ noForm f)
           \/ (exists r, sent U c E files w r
                         /\ (ok r = false
                             \/ exists j, parsed r = Some j /\ truthy (success j) = false))).

(** The time limit [_doFetch] is given with each kind of request. *)
Definition limitOf (rq : Request) : Z :=
  match rq with
  | ReqUpload _ => 60000
  | ReqStatus _ => 15000
  | ReqPost _ => 20000
  end.

(** The world after an event of the history. *)
Definition afterEvent (E : Env) (w : World) (ev : Event) : World :=
  match ev with
  | EvFetch rq rp => mkWorld (now w + Z.min (limitOf rq) (elapsed rp)) (trace w ++ [ev])
  | EvWait ms => snd (wait E ms w)
  end.

(** The statuses observed by [deadline]: what the status queries of [evs], a
    stretch of history that starts in [w], gave when their answer had come
    by then. *)
Fixpoint observedBy (E : Env) (deadline : Z) (w : World) (evs : list Event)
  : list (Outcome Json) :=
  match evs with
  | [] => []
  | ev :: rest =>
      let w' := afterEvent E w ev in
      match ev with
      | EvFetch (ReqStatus _) rp =>
          if now w' <=? deadline
          then statusOf rp :: observedBy E deadline w' rest
          else observedBy E deadline w' rest
      | _ => observedBy E deadline w' rest
      end
  end.

Module Calls.

(** A host whose [new URL] accepts every base. *)
Definition resolving : UrlParser := fun input base => Some (base ++ input).

(** A host whose [new URL] accepts no base. *)
Definition refusing : UrlParser := fun _ _ => None.

Definition client : Client :=
  mkClient "https://boodibox.com" "/api/v1/uploads" "/api/v1/posts" DEFAULTS
           "k" (Some "Bearer k").

(** U+00A0 and U+0131 in UTF-8. *)
Definition noBreakSpace : string :=
  String (ascii_of_nat 194) (String (ascii_of_nat 160) EmptyString).

Definition dotlessI : string :=
  String (ascii_of_nat 196) (String (ascii_of_nat 177) EmptyString).

(** U+D800 on its own, as bytes. *)
Definition halfPair : string :=
  String (ascii_of_nat 237) (String (ascii_of_nat 160) (String (ascii_of_nat 128) EmptyString)).

End Calls.


(* ================================================================== *)
(** * Characters *)

Example trim_ex : trim "  a b	 " = "a b".
Proof. reflexivity. Qed.
Example trim_ex2 :
  trim (Calls.noBreakSpace ++ " a" ++ Calls.noBreakSpace ++ "b " ++ Calls.noBreakSpace)
  = "a" ++ Calls.noBreakSpace ++ "b".
Proof. reflexivity. Qed.
Example upper_ex : toUpperCase "Public-1" = "PUBLIC-1".
Proof. reflexivity. Qed.
Example upper_ex2 : toUpperCase ("publ" ++ Calls.dotlessI ++ "c") = "PUBLIC".
Proof. reflexivity. Qed.
Example tostr_ex : ToString (VNum (-120)) = "-120".
Proof. reflexivity. Qed.
Example tostr_ex0 : ToString (VNum 0) = "0".
Proof. reflexivity. Qed.
Example pop_ex : popSplit "." "a.b.JPG" = "JPG" /\ popSplit "." "abc" = "abc" /\ popSplit "." "abc." = EmptyString.
Proof. repeat split. Qed.
Example cuid_ex : validateQuotePostID (VStr "a1b2c3d4e5f6g7h8i9j0k1l2") = Ret (VStr "a1b2c3d4e5f6g7h8i9j0k1l2").
Proof. reflexivity. Qed.
Example cuid_ex2 : validateQuotePostID (VStr " A1B2c3d4e5f6g7h8i9j0k1l2 ") = Ret (VStr "a1b2c3d4e5f6g7h8i9j0k1l2").
Proof. reflexivity. Qed.

Lemma lower_upper_char c : lowerChar (upperChar c) = lowerChar c.
Proof. destruct c as [[] [] [] [] [] [] [] []]; reflexivity. Qed.

Lemma upper_lower_char c : upperChar (lowerChar c) = upperChar c.
Proof. destruct c as [[] [] [] [] [] [] [] []]; reflexivity. Qed.

Lemma lowerChar_class c :
  isAlnum c = true -> isLower (lowerChar c) || isDigit (lowerChar c) = true.
Proof. destruct c as [[] [] [] [] [] [] [] []]; vm_compute; intro H; congruence. Qed.

Lemma lowerChar_letter c : isLetter c = true -> isLetter (lowerChar c) = true.
Proof. destruct c as [[] [] [] [] [] [] [] []]; vm_compute; intro H; congruence. Qed.

Lemma toLower_upperAscii s : toLowerCase (upperAscii s) = toLowerCase s.
Proof.
  induction s as [|c r IH]; simpl; [reflexivity|].
  unfold toLowerCase, upperAscii in *; simpl. now rewrite lower_upper_char, IH.
Qed.

Lemma upperAscii_toLower s : upperAscii (toLowerCase s) = upperAscii s.
Proof.
  induction s as [|c r IH]; simpl; [reflexivity|].
  unfold toLowerCase, upperAscii in *; simpl. now rewrite upper_lower_char, IH.
Qed.

Lemma mapChars_length f s : length (mapChars f s) = length s.
Proof. induction s; simpl; congruence. Qed.

Lemma toLower_all_lower s :
  allChars isAlnum s = true ->
  allChars (fun x => isLower x || isDigit x) (toLowerCase s) = true.
Proof.
  induction s as [|c r IH]; simpl; [reflexivity|].
  intro H. apply andb_true_iff in H as [Hc Hr].
  apply andb_true_iff. split; [now apply lowerChar_class | now apply IH].
Qed.

(** ** Upper-casing, character by character *)

Lemma upper2_ascii a b : isAscii a = true -> upper2 a b = None.
Proof. destruct a as [[] [] [] [] [] [] [] []]; intro H; try discriminate H; reflexivity. Qed.

Lemma upper3_ascii a b c : isAscii a = true -> upper3 a b c = None.
Proof. destruct a as [[] [] [] [] [] [] [] []]; intro H; try discriminate H; reflexivity. Qed.

Lemma toUpperCase_eq s :
  toUpperCase s =
  match s with
  | EmptyString => EmptyString
  | String a r1 =>
      match r1 with
      | EmptyString => String (upperChar a) EmptyString
      | String b r2 =>
          match upper2 a b with
          | Some u => u ++ toUpperCase r2
          | None =>
              match r2 with
              | EmptyString => String (upperChar a) (toUpperCase r1)
              | String c r3 =>
                  match upper3 a b c with
                  | Some u => u ++ toUpperCase r3
                  | None => String (upperChar a) (toUpperCase r1)
                  end
              end
          end
      end
  end.
Proof. destruct s; reflexivity. Qed.

(** A character of ASCII is upper-cased on its own. *)
Lemma toUpperCase_ascii_head a r :
  isAscii a = true -> toUpperCase (String a r) = String (upperChar a) (toUpperCase r).
Proof.
  intro Ha. rewrite (toUpperCase_eq (String a r)).
  destruct r as [|b r2]; [reflexivity|].
  rewrite (upper2_ascii a b Ha).
  destruct r2 as [|c r3]; [reflexivity|].
  now rewrite (upper3_ascii a b c Ha).
Qed.

(** On a text of ASCII, upper-casing is upper-casing of its letters. *)
Lemma toUpperCase_ascii s : allChars isAscii s = true -> toUpperCase s = upperAscii s.
Proof.
  induction s as [|a r IH]; [reflexivity|].
  cbn [allChars]. intro H. apply andb_true_iff in H as [Ha Hr].
  rewrite toUpperCase_ascii_head by exact Ha.
  unfold upperAscii. cbn [mapChars]. f_equal. now apply IH.
Qed.

Lemma upper2_values a b u :
  upper2 a b = Some u -> u = "SS" \/ u = "I" \/ u = "S".
Proof.
  unfold upper2.
  repeat match goal with
         | |- context [if ?c then _ else _] => destruct c
         end; intro H; inversion H; auto.
Qed.

Lemma upper3_values a b c u :
  upper3 a b c = Some u -> exists t, u = String "F" t \/ u = String "S" t.
Proof.
  unfold upper3.
  repeat match goal with
         | |- context [if ?c then _ else _] => destruct c
         end; intro H; inversion H; eexists; auto.
Qed.

(** The first character of an upper-cased text is the first character
    upper-cased, or the S, I or F that a character beyond ASCII turns into. *)
Lemma toUpperCase_first a r h t :
  toUpperCase (String a r) = String h t ->
  h = upperChar a \/ h = "S"%char \/ h = "I"%char \/ h = "F"%char.
Proof.
  rewrite (toUpperCase_eq (String a r)).
  destruct r as [|b r2]; [intro H; injection H as H _; auto|].
  destruct (upper2 a b) as [u|] eqn:Hu.
  - apply upper2_values in Hu. intro H.
    destruct Hu as [Hu|[Hu|Hu]]; subst u; injection H as H _; auto.
  - destruct r2 as [|c r3]; [intro H; injection H as H _; auto|].
    destruct (upper3 a b c) as [u|] eqn:Hu3.
    + apply upper3_values in Hu3. destruct Hu3 as [t' [Hu3|Hu3]]; subst u;
        intro H; injection H as H _; auto.
    + intro H; injection H as H _; auto.
Qed.

(** ** White space *)

Lemma isSpace2_ascii a b : isAscii a = true -> isSpace2 a b = false.
Proof. destruct a as [[] [] [] [] [] [] [] []]; intro H; try discriminate H; reflexivity. Qed.

Lemma isSpace3_ascii a b c : isAscii a = true -> isSpace3 a b c = false.
Proof. destruct a as [[] [] [] [] [] [] [] []]; intro H; try discriminate H; reflexivity. Qed.

(** A text that starts with a character of ASCII other than white space
    keeps it. *)
Lemma trimStart_kept a r :
  isAscii a = true -> isSpace a = false -> trimStart (String a r) = String a r.
Proof.
  intros Ha Hs. cbn [trimStart]. rewrite Hs.
  destruct r as [|b r2]; [reflexivity|]. rewrite (isSpace2_ascii a b Ha).
  destruct r2 as [|c r3]; [reflexivity|]. now rewrite (isSpace3_ascii a b c Ha).
Qed.

Lemma allSpace_kept a r :
  isAscii a = true -> isSpace a = false -> allSpace (String a r) = false.
Proof.
  intros Ha Hs. cbn [allSpace]. rewrite Hs.
  destruct r as [|b r2]; [reflexivity|]. rewrite (isSpace2_ascii a b Ha).
  destruct r2 as [|c r3]; [reflexivity|]. now rewrite (isSpace3_ascii a b c Ha).
Qed.

Lemma trimEnd_kept a r :
  isAscii a = true -> isSpace a = false -> trimEnd (String a r) = String a (trimEnd r).
Proof.
  intros Ha Hs. cbn [trimEnd]. now rewrite (allSpace_kept a r Ha Hs).
Qed.

Lemma has_iff up :
  REPLY_PERMISSIONS_has up = true <-> up = "PUBLIC" \/ up = "PRIVATE".
Proof.
  unfold REPLY_PERMISSIONS_has. rewrite orb_true_iff, !String.eqb_eq. tauto.
Qed.

(** A printed integer starts with a digit or a minus sign, so it is no
    permission. *)
Lemma number_no_permission n :
  REPLY_PERMISSIONS_has (toUpperCase (string_of_Z n)) = false.
Proof.
  unfold string_of_Z.
  destruct n as [|p|p]; [reflexivity| |].
  - simpl. unfold NilZero.string_of_uint.
    destruct (Pos.to_uint p); try reflexivity; cbn [NilEmpty.string_of_uint];
      rewrite toUpperCase_ascii_head by reflexivity; reflexivity.
  - change (REPLY_PERMISSIONS_has
              (toUpperCase (String "-" (NilZero.string_of_uint (Pos.to_uint p)))) = false).
    rewrite toUpperCase_ascii_head by reflexivity. reflexivity.
Qed.

(** A text that upper-cases to a permission starts with p or P. *)
Lemma permission_first s :
  REPLY_PERMISSIONS_has (toUpperCase s) = true ->
  exists a r, s = String a r /\ isAscii a = true /\ isSpace a = false.
Proof.
  intro Hh. apply has_iff in Hh.
  destruct s as [|a r]; [destruct Hh; discriminate|].
  exists a, r. split; [reflexivity|].
  assert (Hp : upperChar a = "P"%char).
  { destruct (toUpperCase (String a r)) as [|h t] eqn:Hu;
      [destruct Hh; discriminate|].
    assert (h = "P"%char) by (destruct Hh as [Hh|Hh]; injection Hh as Hh _; exact Hh).
    subst h. apply toUpperCase_first in Hu.
    destruct Hu as [Hu|[Hu|[Hu|Hu]]]; [now symmetry| discriminate Hu ..]. }
  destruct a as [[] [] [] [] [] [] [] []]; try discriminate Hp; split; reflexivity.
Qed.

Lemma trim_empty_not_permission s :
  trim s = EmptyString -> REPLY_PERMISSIONS_has (toUpperCase s) = false.
Proof.
  intros H.
  destruct (REPLY_PERMISSIONS_has (toUpperCase s)) eqn:Hh; [|reflexivity].
  exfalso. destruct (permission_first s Hh) as [a [r [-> [Ha Hs]]]].
  unfold trim in H. rewrite (trimStart_kept a r Ha Hs), (trimEnd_kept a r Ha Hs) in H.
  discriminate H.
Qed.

(* ================================================================== *)
(** * Reply permission and quote id *)

Lemma upper_of_permission up :
  up = "PUBLIC" \/ up = "PRIVATE" -> toUpperCase up = up.
Proof. intros [->| ->]; reflexivity. Qed.

Lemma validateReplyPermission_accepts rp up :
  standsFor rp up -> validateReplyPermission rp = Ret (VStr up).
Proof.
  intros [Hup [s [-> Hs]]].
  unfold sameIgnoringCase in Hs. rewrite (upper_of_permission up Hup) in Hs.
  assert (Hh : REPLY_PERMISSIONS_has (toUpperCase s) = true)
    by (rewrite Hs; apply has_iff; exact Hup).
  unfold validateReplyPermission.
  destruct (trim s =? EmptyString)%string eqn:Ht.
  - apply String.eqb_eq in Ht. apply trim_empty_not_permission in Ht. congruence.
  - destruct (permission_first s Hh) as [a [r [-> _]]].
    cbn [orb truthy negb String.eqb ToString].
    rewrite Hh. cbn [negb]. now rewrite Hs.
Qed.

Lemma validateReplyPermission_rejects rp :
  rp <> VUndefined -> (forall up, ~ standsFor rp up) ->
  exists e, validateReplyPermission rp = Throw e.
Proof.
  intros Hdef Hno. unfold validateReplyPermission.
  destruct rp as [| |b|n|s]; try congruence; try (eexists; reflexivity).
  - destruct b; eexists; reflexivity.
  - destruct (negb (truthy (VNum n))); [eexists; reflexivity|].
    cbn [ToString]. rewrite number_no_permission. eexists; reflexivity.
  - destruct ((trim s =? EmptyString)%string || negb (truthy (VStr s))); [eexists; reflexivity|].
    cbn [ToString]. destruct (REPLY_PERMISSIONS_has (toUpperCase s)) eqn:Hh; [|eexists; reflexivity].
    exfalso. apply has_iff in Hh. apply (Hno (toUpperCase s)).
    split; [exact Hh|]. exists s. split; [reflexivity|].
    unfold sameIgnoringCase. now rewrite (upper_of_permission _ Hh).
Qed.

Lemma CUID2_REGEX_test_iff s : CUID2_REGEX_test s = true <-> cuidShape s.
Proof.
  unfold cuidShape. split.
  - destruct s as [|c r]; unfold CUID2_REGEX_test; [discriminate|]. intro H.
    rewrite !andb_true_iff in H. destruct H as [[[Hc Hr] Hlo] Hhi].
    apply Nat.leb_le in Hlo, Hhi.
    exists c, r. cbn [length]. repeat split; auto; lia.
  - intros [c [r [-> [Hc [Hr [Hlo Hhi]]]]]]. cbn [length] in *.
    unfold CUID2_REGEX_test. rewrite Hc, Hr. cbn [andb].
    apply andb_true_iff. split; apply Nat.leb_le; lia.
Qed.

Lemma toLower_shape s : cuidShape s -> lowerCuidShape (toLowerCase s) = true.
Proof.
  intros [c [r [-> [Hc [Hr [Hlo Hhi]]]]]].
  unfold lowerCuidShape, toLowerCase. simpl mapChars. cbv iota beta.
  rewrite lowerChar_letter by exact Hc.
  change (mapChars lowerChar r) with (toLowerCase r).
  rewrite toLower_all_lower by exact Hr.
  cbn [length andb] in *. unfold toLowerCase. rewrite mapChars_length.
  apply andb_true_iff; split; apply Nat.leb_le; lia.
Qed.

(** ** [submitPost] up to its one request *)

Section SubmitPost.

Variable E : Env.

Lemma submitPost_unfold a w :
  submitPost E a w =
  match permissionResolved (a_replyPermission a) with
  | Ret rp =>
      match quoteResolved (a_quotePostID a) with
      | Ret qid =>
          (resp <- _doFetch E (ReqPost (mkPayload (a_body a) (a_medias a) rp qid (userIPField a))) 20000 ;;
           if negb (ok resp) then throw (submitFailed resp) else json resp) w
      | Throw e => (Throw e, w)
      | Starved => (Starved, w)
      end
  | Throw e => (Throw e, w)
  | Starved => (Starved, w)
  end.
Proof.
  unfold submitPost, permissionResolved, quoteResolved, userIPField, bind, lift.
  destruct (a_replyPermission a); simpl;
    repeat match goal with
           | |- context [match ?x with Ret _ => _ | Throw _ => _ | Starved => _ end] =>
               destruct x; simpl
           end; reflexivity.
Qed.

Lemma fetch_trace rq ms w :
  trace (snd (fetchWithTimeout E rq ms w)) =
  (trace w ++ [EvFetch rq (net E (trace w) rq)])%list.
Proof.
  unfold fetchWithTimeout.
  destruct (timerDelay ms <? elapsed (net E (trace w) rq)); [reflexivity|].
  destruct (settled (net E (trace w) rq)); reflexivity.
Qed.

Lemma submitPost_sends a w rp qid :
  permissionResolved (a_replyPermission a) = Ret rp ->
  quoteResolved (a_quotePostID a) = Ret qid ->
  sends E a w (mkPayload (a_body a) (a_medias a) rp qid (userIPField a)).
Proof.
  intros Hrp Hq. unfold sends. rewrite submitPost_unfold, Hrp, Hq.
  unfold bind, _doFetch.
  set (rq := ReqPost _).
  pose proof (fetch_trace rq 20000 w) as Ht.
  destruct (fetchWithTimeout E rq 20000 w) as [[resp|e|] w'] eqn:Hf; simpl in *; auto.
  destruct (negb (ok resp)); simpl; auto.
  unfold json. destruct (parsed resp); simpl; auto.
Qed.

Lemma submitPost_rejects_permission a w e :
  permissionResolved (a_replyPermission a) = Throw e ->
  submitPost E a w = (Throw e, w).
Proof. intros H. now rewrite submitPost_unfold, H. Qed.

Lemma submitPost_rejects_quote a w rp e :
  permissionResolved (a_replyPermission a) = Ret rp ->
  quoteResolved (a_quotePostID a) = Throw e ->
  submitPost E a w = (Throw e, w).
Proof. intros H H'. now rewrite submitPost_unfold, H, H'. Qed.

End SubmitPost.

(** On a text of ASCII, matching a permission without regard to case is
    being equal to it up to the case of the letters. *)
Lemma sameIgnoringCase_ascii s up :
  allChars isAscii s = true -> up = "PUBLIC" \/ up = "PRIVATE" ->
  sameIgnoringCase s up <-> toLowerCase s = toLowerCase up.
Proof.
  intros Hs Hup. unfold sameIgnoringCase.
  rewrite (toUpperCase_ascii s Hs), (upper_of_permission up Hup). split; intro H.
  - rewrite <- (toLower_upperAscii s), H. reflexivity.
  - rewrite <- (upperAscii_toLower s), H. destruct Hup; subst; reflexivity.
Qed.

(** C3.  Reply permission in [submitPost].  Omitted: the one request sent
    carries PUBLIC.  Supplied but null, false, 0, empty or blank: the call
    throws the "cannot be empty" error and the world is untouched, so nothing
    was sent.  Supplied otherwise: a text that is PUBLIC or PRIVATE once
    upper-cased is sent upper-cased, and every other value throws with the
    world untouched.  For a text of ASCII that is a text equal to PUBLIC or
    PRIVATE up to the case of its letters; beyond ASCII the dotless i, whose
    upper-case form is I, is accepted in the place of an i.  The quote id is
    taken to be acceptable, so that only the permission decides. *)
Theorem submitPost_reply_permission (E : Env) (a : PostArgs) (w : World) (qid : value) :
  quoteResolved (a_quotePostID a) = Ret qid ->
  let rp := a_replyPermission a in
  let payload up := mkPayload (a_body a) (a_medias a) (VStr up) qid (userIPField a) in
  (rp = VUndefined -> sends E a w (payload "PUBLIC"))
  /\ (rp = VNull \/ rp = VBool false \/ rp = VNum 0
      \/ (exists s, rp = VStr s /\ trim s = EmptyString) ->
      submitPost E a w = (Throw (newError replyPermissionEmptyMsg), w))
  /\ (forall up, standsFor rp up -> sends E a w (payload up))
  /\ (rp <> VUndefined -> (forall up, ~ standsFor rp up) ->
      exists e, submitPost E a w = (Throw e, w))
  /\ (standsFor (VStr "public") "PUBLIC" /\ standsFor (VStr "PUBLIC") "PUBLIC"
      /\ standsFor (VStr "Public") "PUBLIC" /\ standsFor (VStr "private") "PRIVATE")
  /\ (forall s up, allChars isAscii s = true ->
      (standsFor (VStr s) up <->
       (up = "PUBLIC" \/ up = "PRIVATE") /\ toLowerCase s = toLowerCase up))
  /\ standsFor (VStr ("publ" ++ Calls.dotlessI ++ "c")) "PUBLIC"
  /\ (forall up, ~ standsFor (VStr (Calls.noBreakSpace ++ " ")) up)
  /\ trim (Calls.noBreakSpace ++ " ") = EmptyString.
Proof.
  intros Hq rp payload. subst rp payload.
  split; [|split; [|split; [|split; [|split; [|split; [|split; [|split]]]]]]].
  - intros Hrp. apply submitPost_sends; [|exact Hq].
    rewrite Hrp. reflexivity.
  - intros H. apply submitPost_rejects_permission.
    destruct H as [H|[H|[H|[s [H Hs]]]]]; rewrite H; try reflexivity.
    unfold permissionResolved, validateReplyPermission. now rewrite Hs.
  - intros up Hup. apply submitPost_sends; [|exact Hq].
    pose proof (validateReplyPermission_accepts _ _ Hup) as Hv.
    destruct Hup as [_ [s [Hs _]]]. rewrite Hs in *. exact Hv.
  - intros Hdef Hno.
    destruct (validateReplyPermission_rejects _ Hdef Hno) as [e He].
    exists e. apply submitPost_rejects_permission.
    destruct (a_replyPermission a); try exact He. congruence.
  - repeat split; try (left; reflexivity); try (right; reflexivity);
      eexists; split; reflexivity.
  - intros s up Hs. split.
    + intros [Hup [s' [Heq Hm]]]. injection Heq as <-.
      split; [exact Hup|]. now apply sameIgnoringCase_ascii.
    + intros [Hup Hm]. split; [exact Hup|]. exists s. split; [reflexivity|].
      now apply sameIgnoringCase_ascii.
  - split; [left; reflexivity|]. eexists. split; reflexivity.
  - intros up [Hup [s [Heq Hm]]]. injection Heq as <-.
    unfold sameIgnoringCase in Hm. rewrite (upper_of_permission up Hup) in Hm.
    destruct Hup; subst up; discriminate Hm.
  - reflexivity.
Qed.

Lemma submitPost_reply_permission_witness :
  quoteResolved VNull = Ret VNull
  /\ sends Scenario.smooth (mkPostArgs "hi" [] VUndefined VNull VNull) Scenario.w0
           (mkPayload "hi" [] (VStr "PUBLIC") VNull None).
Proof.
  split; [reflexivity|].
  exact (proj1 (submitPost_reply_permission Scenario.smooth
                  (mkPostArgs "hi" [] VUndefined VNull VNull) Scenario.w0 VNull eq_refl)
               eq_refl).
Defined.

(** C6, as worded, fails: an id with upper-case letters after the first
    character is accepted although it is not a letter followed by lower-case
    letters and digits. *)
Lemma quote_id_upper_case_accepted :
  ~ ((exists v, validateQuotePostID (VStr "aBCDEFGHIJKLMNOPQRSTUVWX") = Ret v)
     <-> lowerCuidShape (trim (ToString (VStr "aBCDEFGHIJKLMNOPQRSTUVWX"))) = true).
Proof.
  intros [H _].
  assert (Hf : lowerCuidShape (trim (ToString (VStr "aBCDEFGHIJKLMNOPQRSTUVWX"))) = false)
    by reflexivity.
  rewrite H in Hf; [discriminate|].
  eexists. reflexivity.
Qed.

(** C6, amended.  For a quote id that is not null or undefined, validation
    succeeds exactly when the trimmed text is a letter followed by letters or
    digits of either case, 24 to 32 characters in all; the result is that text
    lower-cased, which then is a letter followed by lower-case letters and
    digits; every other text throws.  A leading digit and a 10-character text
    throw.  Trimming takes away all white space of the language, the
    no-break space for one.  A null or undefined id goes into the payload as
    null. *)
Theorem validateQuotePostID_shape (id : value) :
  (nullish id = false ->
   let s := trim (ToString id) in
   (cuidShape s ->
    validateQuotePostID id = Ret (VStr (toLowerCase s))
    /\ lowerCuidShape (toLowerCase s) = true)
   /\ (~ cuidShape s -> validateQuotePostID id = Throw (newError quotePostIDMsg)))
  /\ (nullish id = true ->
      forall E a w rp,
        a_quotePostID a = id -> permissionResolved (a_replyPermission a) = Ret rp ->
        sends E a w (mkPayload (a_body a) (a_medias a) rp VNull (userIPField a)))
  /\ validateQuotePostID (VStr "a1b2c3d4e5f6g7h8i9j0k1l2") = Ret (VStr "a1b2c3d4e5f6g7h8i9j0k1l2")
  /\ validateQuotePostID (VStr "1abcdefghijklmnopqrstuvw") = Throw (newError quotePostIDMsg)
  /\ validateQuotePostID (VStr "abcdefghij") = Throw (newError quotePostIDMsg)
  /\ validateQuotePostID
       (VStr (Calls.noBreakSpace ++ "a1b2c3d4e5f6g7h8i9j0k1l2" ++ Calls.noBreakSpace))
     = Ret (VStr "a1b2c3d4e5f6g7h8i9j0k1l2").
Proof.
  split; [|split; [|repeat split]].
  - intros Hn s. unfold validateQuotePostID. rewrite Hn. fold s. split.
    + intros Hs. split; [|now apply toLower_shape].
      apply CUID2_REGEX_test_iff in Hs. now rewrite Hs.
    + intros Hs. destruct (CUID2_REGEX_test s) eqn:Ht; [|reflexivity].
      exfalso. apply Hs. now apply CUID2_REGEX_test_iff.
  - intros Hn E a w rp Ha Hrp. apply submitPost_sends; [exact Hrp|].
    unfold quoteResolved. now rewrite Ha, Hn.
Qed.

Lemma validateQuotePostID_shape_witness :
  nullish (VStr "A1B2C3D4E5F6G7H8I9J0K1L2") = false
  /\ cuidShape "A1B2C3D4E5F6G7H8I9J0K1L2"
  /\ validateQuotePostID (VStr "A1B2C3D4E5F6G7H8I9J0K1L2") = Ret (VStr "a1b2c3d4e5f6g7h8i9j0k1l2").
Proof.
  assert (Hs : cuidShape "A1B2C3D4E5F6G7H8I9J0K1L2").
  { exists "A"%char, "1B2C3D4E5F6G7H8I9J0K1L2". cbn [length]. repeat split; lia. }
  split; [reflexivity|]. split; [exact Hs|].
  exact (proj1 (proj1 (proj1 (validateQuotePostID_shape (VStr "A1B2C3D4E5F6G7H8I9J0K1L2")) eq_refl) Hs)).
Defined.

(* ================================================================== *)
(** * Status queries and polling *)

Section Polling.

Variable E : Env.

Lemma fetch_now rq ms w :
  now (snd (fetchWithTimeout E rq ms w)) =
  now w + (if timerDelay ms <? elapsed (net E (trace w) rq)
           then timerDelay ms else elapsed (net E (trace w) rq)).
Proof.
  unfold fetchWithTimeout.
  destruct (timerDelay ms <? elapsed (net E (trace w) rq)); [reflexivity|].
  destruct (settled (net E (trace w) rq)); reflexivity.
Qed.

Lemma fetch_not_starved rq ms w : fst (fetchWithTimeout E rq ms w) <> Starved.
Proof.
  unfold fetchWithTimeout.
  destruct (timerDelay ms <? elapsed (net E (trace w) rq)); [discriminate|].
  destruct (settled (net E (trace w) rq)); discriminate.
Qed.

(** A status query is one exchange, read by [statusOf]. *)
Lemma getUploadStatus_run id w :
  getUploadStatus E id w =
  (statusOf (net E (trace w) (ReqStatus id)),
   snd (fetchWithTimeout E (ReqStatus id) 15000 w)).
Proof.
  unfold getUploadStatus, statusOf, bind, _doFetch, fetchWithTimeout.
  change (timerDelay 15000) with 15000.
  destruct (15000 <? elapsed (net E (trace w) (ReqStatus id))); [reflexivity|].
  destruct (settled (net E (trace w) (ReqStatus id))) as [r|msg]; [|reflexivity].
  simpl. destruct (resp_status r =? 404); [reflexivity|].
  destruct (negb (ok r)); [reflexivity|].
  unfold json. destruct (parsed r); reflexivity.
Qed.

Lemma statusOf_not_starved rp : statusOf rp <> Starved.
Proof.
  unfold statusOf. destruct (15000 <? elapsed rp); [discriminate|].
  destruct (settled rp) as [r|msg]; [|discriminate].
  destruct (resp_status r =? 404); [discriminate|].
  destruct (negb (ok r)); [discriminate|].
  destruct (parsed r); discriminate.
Qed.

(** No error of a status query carries an [uploadStatus]. *)
Lemma statusOf_error_plain rp e : statusOf rp = Throw e -> uploadStatus e = None.
Proof.
  unfold statusOf. destruct (15000 <? elapsed rp); [intro H; now inversion H|].
  destruct (settled rp) as [r|msg]; [|intro H; now inversion H].
  destruct (resp_status r =? 404); [discriminate|].
  destruct (negb (ok r)); [intro H; now inversion H|].
  destruct (parsed r); [discriminate|intro H; now inversion H].
Qed.

Lemma getUploadStatus_trace id w :
  trace (snd (getUploadStatus E id w)) =
  (trace w ++ [EvFetch (ReqStatus id) (net E (trace w) (ReqStatus id))])%list.
Proof. rewrite getUploadStatus_run. simpl. apply fetch_trace. Qed.

Lemma getUploadStatus_clock id w :
  steadyClock E -> now w <= now (snd (getUploadStatus E id w)).
Proof.
  intros [Hnet _]. rewrite getUploadStatus_run. simpl. rewrite fetch_now.
  specialize (Hnet (trace w) (ReqStatus id)).
  change (timerDelay 15000) with 15000.
  destruct (15000 <? elapsed (net E (trace w) (ReqStatus id))); lia.
Qed.

Lemma wait_clock ms w :
  steadyClock E -> now w + ms <= now (snd (wait E ms w)).
Proof. intros [_ Hlag]. simpl. specialize (Hlag (trace w) ms). lia. Qed.

Variable id : string.
Variables interval tmo start : Z.

(** One turn of the loop. *)
Lemma pollLoop_step k w :
  pollLoop E (S k) id interval tmo start w =
  match getUploadStatus E id w with
  | (Ret st, w1) =>
      if isTerminal st then (Ret st, w1)
      else if now w1 - start >? tmo then (Throw (pollTimeout st), w1)
      else pollLoop E k id interval tmo start (snd (wait E interval w1))
  | (Throw e, w1) => (Throw e, w1)
  | (Starved, w1) => (Starved, w1)
  end.
Proof.
  cbn [pollLoop]. unfold bind at 1.
  destruct (getUploadStatus E id w) as [[st|e|] w1]; try reflexivity.
  unfold isTerminal.
  destruct (isStr (status st) "PROCESSED"); [reflexivity|].
  destruct (isStr (status st) "DELETED" || isStr (status st) "ATTACHED"); [reflexivity|].
  cbn [orb]. unfold bind, dateNow.
  destruct (now w1 - start >? tmo); reflexivity.
Qed.


(** What a finished run of the loop has seen. *)
Lemma pollLoop_seen fuel : forall w r w',
  pollLoop E fuel id interval tmo start w = (r, w') -> r <> Starved ->
  exists evs,
    trace w' = (trace w ++ evs)%list
    /\ (forall st, r = Ret st ->
          isTerminal st = true /\ last (observed evs) Starved = Ret st)
    /\ (Forall stillWaiting (observed evs) ->
        exists st, r = Throw (pollTimeout st)
                   /\ last (observed evs) Starved = Ret st
                   /\ now w' - start > tmo).
Proof.
  induction fuel as [|k IH]; intros w r w' Hrun Hr.
  - simpl in Hrun. inversion Hrun; subst. congruence.
  - rewrite pollLoop_step in Hrun.
    pose proof (getUploadStatus_trace id w) as Ht.
    rewrite getUploadStatus_run in Hrun, Ht. simpl in Ht.
    set (ev := EvFetch (ReqStatus id) (net E (trace w) (ReqStatus id))) in *.
    destruct (statusOf (net E (trace w) (ReqStatus id))) as [st|e|] eqn:Hst.
    + destruct (isTerminal st) eqn:Hterm.
      * inversion Hrun; subst. exists [ev]. split; [exact Ht|].
        simpl. rewrite Hst. simpl. split.
        -- intros st' Heq. inversion Heq; subst. auto.
        -- intros Hall. inversion Hall as [|? ? [st' [Heq Hno]] _]; subst.
           inversion Heq; subst. congruence.
      * destruct (now _ - start >? tmo) eqn:Hlate.
        -- inversion Hrun; subst. exists [ev]. split; [exact Ht|].
           simpl. rewrite Hst. simpl. split; [discriminate|].
           intros _. exists st. repeat split. apply Z.gtb_lt in Hlate. lia.
        -- destruct (IH _ _ _ Hrun Hr) as [evs [Htr [Hret Hall]]].
           exists (ev :: EvWait interval :: evs). split.
           { rewrite Htr. simpl. rewrite Ht, <- !app_assoc. reflexivity. }
           simpl. rewrite Hst. split.
           ++ intros st' Heq. destruct (Hret st' Heq) as [H1 H2]. split; [exact H1|].
              destruct (observed evs); [discriminate H2 | exact H2].
           ++ intros Hw. inversion Hw as [|? ? _ Hrest]; subst.
              destruct (Hall Hrest) as [st' [H1 [H2 H3]]].
              exists st'. repeat split; auto.
              destruct (observed evs); [discriminate H2 | exact H2].
    + inversion Hrun; subst. exists [ev]. split; [exact Ht|].
      simpl. rewrite Hst. split; [discriminate|].
      intros Hall. inversion Hall as [|? ? [st' [Heq _]] _]; discriminate.
    + exfalso. now apply (statusOf_not_starved _ Hst).
Qed.

(** A timeout error comes right after a query, with the answer of that
    query, which was not terminal. *)
Lemma pollLoop_timeout_origin fuel : forall w e w' st,
  pollLoop E fuel id interval tmo start w = (Throw e, w') ->
  uploadStatus e = Some st ->
  exists wq, getUploadStatus E id wq = (Ret st, w')
             /\ isTerminal st = false /\ now w' - start > tmo.
Proof.
  induction fuel as [|k IH]; intros w e w' st Hrun Hst.
  - discriminate Hrun.
  - rewrite pollLoop_step in Hrun.
    destruct (getUploadStatus E id w) as [[st1|e1|] w1] eqn:Hq.
    + destruct (isTerminal st1) eqn:Hterm; [discriminate|].
      destruct (now w1 - start >? tmo) eqn:Hlate.
      * inversion Hrun; subst. simpl in Hst. inversion Hst; subst.
        exists w. repeat split; auto. apply Z.gtb_lt in Hlate. lia.
      * eapply IH; eauto.
    + inversion Hrun; subst.
      rewrite getUploadStatus_run in Hq. inversion Hq as [[Ho Hw]].
      apply statusOf_error_plain in Ho. congruence.
    + discriminate.
Qed.

(** With timers that take at least a millisecond the loop ends. *)
Lemma pollLoop_ends :
  steadyClock E -> 1 <= interval ->
  forall n w, tmo - (now w - start) < Z.of_nat n ->
              fst (pollLoop E (S n) id interval tmo start w) <> Starved.
Proof.
  intros Hclock Hiv. induction n as [|n IH]; intros w Hm.
  - rewrite pollLoop_step. pose proof (getUploadStatus_clock id w Hclock) as Hc.
    rewrite getUploadStatus_run in *. simpl in Hc.
    destruct (statusOf _) as [st|e|] eqn:Hst; simpl; try discriminate.
    + destruct (isTerminal st); [discriminate|].
      destruct (now _ - start >? tmo) eqn:Hlate; [discriminate|].
      exfalso. rewrite Z.gtb_ltb in Hlate. apply Z.ltb_ge in Hlate. simpl in Hm. lia.
    + exfalso. now apply (statusOf_not_starved _ Hst).
  - rewrite pollLoop_step. pose proof (getUploadStatus_clock id w Hclock) as Hc.
    rewrite getUploadStatus_run in *. simpl in Hc.
    destruct (statusOf _) as [st|e|] eqn:Hst; simpl; try discriminate.
    + destruct (isTerminal st); [discriminate|].
      destruct (now _ - start >? tmo) eqn:Hlate; [discriminate|].
      apply IH.
      pose proof (wait_clock interval (snd (fetchWithTimeout E (ReqStatus id) 15000 w)) Hclock) as Hw.
      rewrite Nat2Z.inj_succ in Hm. cbn [snd wait now] in *. lia.
    + exfalso. now apply (statusOf_not_starved _ Hst).
Qed.

End Polling.

Lemma pollUntilProcessed_unfold E config fuel id opts w :
  pollUntilProcessed E config fuel id opts w =
  pollLoop E fuel id (orElse (intervalMs opts) (pollIntervalMs config))
           (orElse (timeoutMs opts) (pollTimeoutMs config)) (now w) w.
Proof. reflexivity. Qed.

(** C2, as worded, fails in its last part: here the first query is answered
    404 and read as the missing sentinel, and polling does not stop there; it
    waits the interval, asks again and returns the later PROCESSED answer. *)
Lemma missing_does_not_stop_polling :
  fst (getUploadStatus Scenario.lateKnown "U1" Scenario.w0) = Ret missingObj
  /\ fst (pollUntilProcessed Scenario.lateKnown DEFAULTS 5 "U1"
            (mkPollOptions None None) Scenario.w0) = Ret (Scenario.processed "S1")
  /\ trace (snd (pollUntilProcessed Scenario.lateKnown DEFAULTS 5 "U1"
                   (mkPollOptions None None) Scenario.w0)) =
     [EvFetch (ReqStatus "U1") (Scenario.answer 404 emptyObj 10);
      EvWait 1000;
      EvFetch (ReqStatus "U1") (Scenario.answer 200 (Scenario.processed "S1") 10)].
Proof. repeat split. Qed.

(** C2, amended.  At every turn of the polling loop: when the query yields
    status PROCESSED, DELETED or ATTACHED the loop returns that status object
    in the world the query left, with no wait and no further query.  A query
    answered 404 yields the missing sentinel without an error, and the
    sentinel is not terminal: like every other non-terminal answer it makes
    the loop wait the interval and go on while the time budget is not used
    up, and raise the timeout error once it is. *)
Theorem poll_stops_on_terminal (E : Env) (id : string) (interval tmo start : Z)
        (k : nat) (w w1 : World) (st : Json) :
  getUploadStatus E id w = (Ret st, w1) ->
  (isStr (status st) "PROCESSED" = true \/ isStr (status st) "DELETED" = true
   \/ isStr (status st) "ATTACHED" = true ->
   pollLoop E (S k) id interval tmo start w = (Ret st, w1))
  /\ (isTerminal st = false -> now w1 - start <= tmo ->
      pollLoop E (S k) id interval tmo start w =
      pollLoop E k id interval tmo start (snd (wait E interval w1)))
  /\ (isTerminal st = false -> now w1 - start > tmo ->
      pollLoop E (S k) id interval tmo start w = (Throw (pollTimeout st), w1))
  /\ (forall r ms, ms <= 15000 -> resp_status r = 404 ->
      statusOf (mkReply (Responded r) ms) = Ret missingObj)
  /\ isTerminal missingObj = false.
Proof.
  intros Hq. repeat split.
  - intros Hterm. rewrite pollLoop_step, Hq.
    replace (isTerminal st) with true; [reflexivity|].
    unfold isTerminal. destruct Hterm as [H|[H|H]]; rewrite H;
      repeat rewrite orb_true_r; reflexivity.
  - intros Hno Hin. rewrite pollLoop_step, Hq, Hno.
    replace (now w1 - start >? tmo) with false; [reflexivity|].
    symmetry. rewrite Z.gtb_ltb. apply Z.ltb_ge. lia.
  - intros Hno Hout. rewrite pollLoop_step, Hq, Hno.
    replace (now w1 - start >? tmo) with true; [reflexivity|].
    symmetry. rewrite Z.gtb_ltb. apply Z.ltb_lt. lia.
  - intros r ms Hms H404. unfold statusOf. simpl.
    replace (15000 <? ms) with false by (symmetry; apply Z.ltb_ge; lia).
    rewrite H404. reflexivity.
Qed.

Lemma poll_stops_on_terminal_witness :
  getUploadStatus Scenario.smooth "U1" Scenario.w0 =
    (Ret (Scenario.processed "U1"),
     mkWorld 10 [EvFetch (ReqStatus "U1") (Scenario.answer 200 (Scenario.processed "U1") 10)])
  /\ pollLoop Scenario.smooth 1 "U1" 1000 30000 0 Scenario.w0 =
     (Ret (Scenario.processed "U1"),
      mkWorld 10 [EvFetch (ReqStatus "U1") (Scenario.answer 200 (Scenario.processed "U1") 10)]).
Proof.
  split; [reflexivity|].
  exact (proj1 (poll_stops_on_terminal Scenario.smooth "U1" 1000 30000 0 0 Scenario.w0 _ _ eq_refl)
               (or_introl eq_refl)).
Defined.

(** Replaying the history of a poll with [afterEvent] gives back the world
    the poll ended in. *)
Example replay_ex :
  let run := pollUntilProcessed Cases.thirdTime DEFAULTS 5 "U1"
               (mkPollOptions (Some 250) (Some 300)) Scenario.w0 in
  fold_left (afterEvent Cases.thirdTime) (trace (snd run)) Scenario.w0 = snd run
  /\ now (snd run) = 530.
Proof. split; reflexivity. Qed.

(** C7, as worded, fails: the status is PENDING at 10 ms and at 270 ms and
    PROCESSED from then on; with an interval of 250 ms and a budget of 300 ms
    no terminal state is observed within the budget, yet the call does not
    throw the timeout error: its third query, answered at 530 ms, gives
    PROCESSED, and the call returns that. *)
Lemma terminal_after_budget_is_returned :
  let opts := mkPollOptions (Some 250) (Some 300) in
  let run := pollUntilProcessed Cases.thirdTime DEFAULTS 5 "U1" opts Scenario.w0 in
  ~ (Forall stillWaiting
       (observedBy Cases.thirdTime (now Scenario.w0 + 300) Scenario.w0 (trace (snd run))) ->
     exists st, fst run = Throw (pollTimeout st)).
Proof.
  intros opts run H.
  assert (Hrun : fst run = Ret (Scenario.processed "X")) by reflexivity.
  assert (Hobs : observedBy Cases.thirdTime (now Scenario.w0 + 300) Scenario.w0
                   (trace (snd run))
                 = [Ret Scenario.pending; Ret Scenario.pending]) by reflexivity.
  rewrite Hobs, Hrun in H.
  destruct H as [st Hst]; [|discriminate Hst].
  repeat constructor; eexists; split; reflexivity.
Qed.

(** C7, amended.  Polling ends when timers take at least a millisecond and
    the clock does not run backwards.  Whenever it has ended and every status
    query it made was answered with a non-terminal status, the one answered
    after the budget was spent included, it has thrown the polling timeout
    error, the error carries the status of the last query, and more than the
    timeout has passed.  In particular, against a service that stays PENDING,
    with a timeout of 500 ms and an interval of 1000 ms, the call throws that
    error with the PENDING status after its second query. *)
Theorem poll_timeout_carries_last_status (E : Env) (config : Config) (id : string)
        (opts : PollOptions) (w : World) :
  let interval := orElse (intervalMs opts) (pollIntervalMs config) in
  let tmo := orElse (timeoutMs opts) (pollTimeoutMs config) in
  (steadyClock E -> 1 <= interval ->
   exists fuel, fst (pollUntilProcessed E config fuel id opts w) <> Starved)
  /\ (forall fuel r w',
        pollUntilProcessed E config fuel id opts w = (r, w') -> r <> Starved ->
        exists evs,
          trace w' = (trace w ++ evs)%list
          /\ (Forall stillWaiting (observed evs) ->
              exists st, r = Throw (pollTimeout st)
                         /\ uploadStatus (pollTimeout st) = Some st
                         /\ last (observed evs) Starved = Ret st
                         /\ now w' - now w > tmo))
  /\ pollUntilProcessed Scenario.stuck DEFAULTS 5 "U1"
       (mkPollOptions (Some 1000) (Some 500)) Scenario.w0 =
     (Throw (pollTimeout Scenario.pending),
      mkWorld 1020 [EvFetch (ReqStatus "U1") (Scenario.answer 200 Scenario.pending 10);
                    EvWait 1000;
                    EvFetch (ReqStatus "U1") (Scenario.answer 200 Scenario.pending 10)]).
Proof.
  intros interval tmo. split; [|split].
  - intros Hclock Hiv.
    exists (S (Z.to_nat (tmo + 1))). rewrite pollUntilProcessed_unfold.
    apply pollLoop_ends; auto. fold tmo. lia.
  - intros fuel r w' Hrun Hr. rewrite pollUntilProcessed_unfold in Hrun.
    destruct (pollLoop_seen E id _ _ _ fuel w r w' Hrun Hr) as [evs [Htr [_ Hall]]].
    exists evs. split; [exact Htr|].
    intros Hw. destruct (Hall Hw) as [st [H1 [H2 H3]]].
    exists st. repeat split; auto.
  - reflexivity.
Qed.

Lemma poll_timeout_carries_last_status_witness :
  steadyClock Scenario.stuck /\ 1 <= 1000
  /\ exists fuel,
       fst (pollUntilProcessed Scenario.stuck DEFAULTS fuel "U1"
              (mkPollOptions (Some 1000) (Some 500)) Scenario.w0) <> Starved.
Proof.
  assert (Hc : steadyClock Scenario.stuck).
  { split.
    - intros h rq. destruct rq; simpl; lia.
    - intros h ms. simpl. unfold Scenario.noLag. lia. }
  split; [exact Hc|]. split; [lia|].
  exact (proj1 (poll_timeout_carries_last_status Scenario.stuck DEFAULTS "U1"
                  (mkPollOptions (Some 1000) (Some 500)) Scenario.w0) Hc ltac:(simpl; lia)).
Defined.



(* ================================================================== *)
(** * Uploading *)

Section Uploading.

Variable E : Env.

Lemma appendFile_fails_iff f :
  (exists e, appendFile E f = Throw e) <-> noForm f \/ unreadable E f.
Proof.
  unfold appendFile, noForm, unreadable. split.
  - intros [e He]. destruct (truthyPath f) as [p|] eqn:Hp.
    + right. exists p. split; [reflexivity|].
      destruct (disk E p); [discriminate|reflexivity].
    + left. destruct (buffer f); [discriminate|].
      destruct (file f); [discriminate|]. auto.
  - intros [[Hp [Hb Hf]]|[p [Hp Hd]]].
    + rewrite Hp, Hb, Hf. eexists; reflexivity.
    + rewrite Hp, Hd. eexists; reflexivity.
Qed.

Lemma appendFile_not_starved f : appendFile E f <> Starved.
Proof.
  unfold appendFile. destruct (truthyPath f) as [p|].
  - destruct (disk E p); discriminate.
  - destruct (buffer f); [discriminate|]. destruct (file f); discriminate.
Qed.

Lemma buildForm_not_starved files : buildForm E files <> Starved.
Proof.
  induction files as [|f rest IH]; simpl; [discriminate|].
  pose proof (appendFile_not_starved f) as Hf.
  destruct (appendFile E f); try congruence.
  destruct (buildForm E rest); congruence.
Qed.

Lemma buildForm_fails_iff files :
  (exists e, buildForm E files = Throw e) <->
  exists f, In f files /\ (noForm f \/ unreadable E f).
Proof.
  induction files as [|f rest IH]; simpl.
  - split; [intros [e He]; discriminate | intros [f [[] _]]].
  - split.
    + intros [e He]. destruct (appendFile E f) as [p|e1|] eqn:Hf.
      * destruct (buildForm E rest) as [ps|e2|] eqn:Hr; try discriminate.
        destruct (proj1 IH (ex_intro _ e2 eq_refl)) as [g [Hin Hg]].
        exists g. auto.
      * exists f. split; [auto|]. apply appendFile_fails_iff. eauto.
      * discriminate.
    + intros [g [[->|Hin] Hg]].
      * apply appendFile_fails_iff in Hg as [e He]. rewrite He. eauto.
      * destruct (appendFile E f) as [p|e1|] eqn:Hf; [|eauto|].
        -- destruct (proj2 IH (ex_intro _ g (conj Hin Hg))) as [e He].
           rewrite He. eauto.
        -- exfalso. now apply (appendFile_not_starved f).
Qed.

Lemma uploadFiles_empty w :
  uploadFiles E [] w = (Throw (newError "files must be a non-empty array"), w).
Proof. reflexivity. Qed.

Lemma uploadFiles_form_error files w e :
  files <> [] -> buildForm E files = Throw e -> uploadFiles E files w = (Throw e, w).
Proof.
  intros Hne Hb. destruct files as [|f rest]; [congruence|].
  unfold uploadFiles, bind, lift. now rewrite Hb.
Qed.

(** With a form built, an upload is one exchange, read by [uploadOutcome]. *)
Lemma uploadFiles_run files w form :
  files <> [] -> buildForm E files = Ret form ->
  uploadFiles E files w =
  (uploadOutcome (net E (trace w) (ReqUpload form)),
   snd (fetchWithTimeout E (ReqUpload form) 60000 w)).
Proof.
  intros Hne Hb. destruct files as [|f rest]; [congruence|].
  unfold uploadFiles, bind at 1, lift. rewrite Hb.
  unfold uploadOutcome, bind, _doFetch, fetchWithTimeout.
  change (timerDelay 60000) with 60000.
  destruct (60000 <? elapsed (net E (trace w) (ReqUpload form))); [reflexivity|].
  destruct (settled (net E (trace w) (ReqUpload form))) as [r|msg]; [|reflexivity].
  simpl. destruct (negb (ok r)); [reflexivity|].
  unfold json. destruct (parsed r) as [j|]; [|reflexivity].
  simpl. destruct (negb (truthy (success j))); reflexivity.
Qed.

Lemma uploadFiles_not_starved files w : fst (uploadFiles E files w) <> Starved.
Proof.
  destruct files as [|f rest]; [discriminate|].
  destruct (buildForm E (f :: rest)) as [form|e|] eqn:Hb.
  - rewrite (uploadFiles_run _ w form) by (congruence || exact Hb). simpl.
    unfold uploadOutcome.
    destruct (60000 <? _); [discriminate|].
    destruct (settled _) as [r|msg]; [|discriminate].
    destruct (negb (ok r)); [discriminate|].
    destruct (parsed r) as [j|]; [|discriminate].
    destruct (negb (truthy (success j))); discriminate.
  - rewrite (uploadFiles_form_error _ w e) by (congruence || exact Hb). discriminate.
  - exfalso. now apply (buildForm_not_starved (f :: rest)).
Qed.

(** An upload adds to the history one upload request or nothing. *)
Lemma uploadFiles_trace files w :
  trace (snd (uploadFiles E files w)) = trace w
  \/ exists form rp,
       trace (snd (uploadFiles E files w)) = (trace w ++ [EvFetch (ReqUpload form) rp])%list.
Proof.
  destruct files as [|f rest]; [left; reflexivity|].
  destruct (buildForm E (f :: rest)) as [form|e|] eqn:Hb.
  - right. rewrite (uploadFiles_run _ w form) by (congruence || exact Hb). simpl.
    rewrite fetch_trace. eauto.
  - left. now rewrite (uploadFiles_form_error _ w e) by (congruence || exact Hb).
  - exfalso. now apply (buildForm_not_starved (f :: rest)).
Qed.

Lemma uploadOutcome_fails_iff rp :
  (exists e, uploadOutcome rp = Throw e) <->
  60000 < elapsed rp
  \/ (elapsed rp <= 60000 /\
      ((exists msg, settled rp = Rejected msg)
       \/ exists r, settled rp = Responded r
                    /\ (ok r = false \/ parsed r = None
                        \/ exists j, parsed r = Some j /\ truthy (success j) = false))).
Proof.
  unfold uploadOutcome.
  destruct (60000 <? elapsed rp) eqn:Hlate.
  - apply Z.ltb_lt in Hlate. split; [auto|]. intros _. eauto.
  - apply Z.ltb_ge in Hlate. split.
    + intros [e He]. right. split; [exact Hlate|].
      destruct (settled rp) as [r|msg]; [right|left; eauto].
      exists r. split; [reflexivity|].
      destruct (ok r); [|auto]. simpl in He.
      destruct (parsed r) as [j|]; [|auto].
      right. right. exists j. split; [reflexivity|].
      destruct (truthy (success j)); [discriminate|reflexivity].
    + intros [Hl|[_ [[msg Hm]|[r [Hr Hcase]]]]]; [lia| |].
      * rewrite Hm. eauto.
      * rewrite Hr. destruct (ok r); simpl; [|eauto].
        destruct Hcase as [Hk|[Hp|[j [Hp Hs]]]]; [discriminate| |].
        -- rewrite Hp. eauto.
        -- rewrite Hp, Hs. simpl. eauto.
Qed.

(** [uploadFiles] throws exactly in the cases of [actualFailure]. *)
Lemma uploadFiles_fails_iff files w :
  failed (uploadFiles E files w) <-> actualFailure E files w.
Proof.
  unfold failed, actualFailure, listedFailure.
  destruct files as [|f0 rest0] eqn:Hfiles.
  { split; [auto|]. intros _. eexists. reflexivity. }
  rewrite <- Hfiles. assert (Hne : files <> []) by congruence. clear Hfiles.
  destruct (buildForm E files) as [form|e|] eqn:Hb.
  - rewrite (uploadFiles_run files w form Hne Hb). simpl.
    rewrite uploadOutcome_fails_iff. split.
    + intros [Hl|[Hin [[msg Hm]|[r [Hr Hcase]]]]].
      * right. right. left. exists form. auto.
      * right. right. left. exists form. eauto.
      * assert (Ha : answered E files w r) by (exists form; auto).
        destruct Hcase as [Hk|[Hp|[j [Hp Hs]]]].
        -- left. right. right. exists r. auto.
        -- destruct (ok r) eqn:Hk.
           ++ right. right. right. exists r. auto.
           ++ left. right. right. exists r. auto.
        -- left. right. right. exists r. split; [exact Ha|]. right. eauto.
    + assert (Hnof : ~ exists g, In g files /\ (noForm g \/ unreadable E g)).
      { intros H. apply buildForm_fails_iff in H as [e He]. congruence. }
      intros [[Hemp|[[g [Hin Hg]]|[r [[form' [Hb' [Hl Hr]]] Hcase]]]]
             |[[g [Hin Hg]]|[[form' [Hb' Hun]]|[r [[form' [Hb' [Hl Hr]]] [Hk Hp]]]]]].
      * congruence.
      * exfalso. apply Hnof. eauto.
      * assert (form' = form) by congruence. subst form'.
        right. split; [exact Hl|]. right. exists r. split; [exact Hr|].
        destruct Hcase as [Hk|Hj]; auto.
      * exfalso. apply Hnof. eauto.
      * assert (form' = form) by congruence. subst form'.
        destruct Hun as [Hl|Hm]; [left; exact Hl|].
        destruct (Z.lt_ge_cases 60000 (elapsed (net E (trace w) (ReqUpload form)))); auto.
      * assert (form' = form) by congruence. subst form'.
        right. split; [exact Hl|]. right. exists r. auto.
  - rewrite (uploadFiles_form_error files w e Hne Hb). simpl.
    split; [|eauto]. intros _.
    destruct (proj1 (buildForm_fails_iff files) (ex_intro _ e Hb)) as [g [Hin [Hg|Hg]]].
    + left. right. left. eauto.
    + right. left. eauto.
  - exfalso. now apply (buildForm_not_starved files).
Qed.

End Uploading.

(** ** The call from its first line *)

Lemma uploadFilesCall_array U c E files w u :
  U (uploadPath c) (baseUrl c) = Some u ->
  uploadFilesCall U c E (ArrayOf files) w = uploadFiles E files w.
Proof.
  intros Hu. destruct files as [|f rest]; [reflexivity|].
  unfold uploadFilesCall, uploadFiles, newURL, lift. unfold bind at 1. now rewrite Hu.
Qed.

Lemma uploadFilesCall_no_url U c E files w :
  files <> [] -> U (uploadPath c) (baseUrl c) = None ->
  uploadFilesCall U c E (ArrayOf files) w = (Throw invalidUrl, w).
Proof.
  intros Hne Hu. destruct files as [|f rest]; [congruence|].
  unfold uploadFilesCall, newURL, lift. unfold bind at 1. now rewrite Hu.
Qed.

(** C8, as worded, fails: a well-formed, non-empty list is uploaded, the
    request gets no answer within 60 s, and [uploadFiles] throws although
    none of the listed conditions holds. *)
Lemma upload_fails_without_answer :
  failed (uploadFilesCall Calls.resolving Calls.client Scenario.silent
            (ArrayOf [Scenario.oneBuffer]) Scenario.w0)
  /\ ~ listedFailureOf Calls.resolving Calls.client Scenario.silent
         (ArrayOf [Scenario.oneBuffer]) Scenario.w0.
Proof.
  split; [eexists; reflexivity|].
  intros [H|[files [Ha H]]]; [discriminate H|].
  injection Ha as <-.
  destruct H as [H|[[f [Hin [_ [Hb _]]]]|[r [[_ [_ [form [Hb [Hl _]]]]] _]]]].
  - discriminate H.
  - destruct Hin as [<-|[]]. discriminate Hb.
  - simpl in Hb. inversion Hb; subst form. simpl in Hl. lia.
Qed.

(** C8, amended.  [uploadFiles] throws whenever a listed condition holds:
    the argument is not a list or is the empty list, an item has none of the
    three forms, the HTTP status is not a success, or the [success] field of
    the body is falsy.  For an argument that is not a list, for an empty list
    and for a bad item the world is untouched, so no HTTP call was made.  It
    throws in other cases too: when the URL cannot be built, a path cannot be
    read, or the request gets no answer (abort timer or transport rejection).
    Once the request was sent and answered, a body that is not JSON makes it
    throw, and with a JSON object as body it throws exactly when the status is
    not a success or [success] is falsy.  For a non-success status the error
    carries the status and the parsed body (null when it does not parse); for
    a falsy [success] it carries the body. *)
Theorem uploadFiles_failure_conditions (U : UrlParser) (c : Client) (E : Env)
        (a : FilesArg) (w : World) :
  let run := uploadFilesCall U c E a w in
  (listedFailureOf U c E a w -> failed run)
  /\ (a = NotArray \/ a = ArrayOf [] ->
      run = (Throw (newError "files must be a non-empty array"), w))
  /\ (forall files, a = ArrayOf files ->
      (exists f, In f files /\ (noForm f \/ unreadable E f)) ->
      exists e, run = (Throw e, w))
  /\ (forall files, a = ArrayOf files -> files <> [] ->
      U (uploadPath c) (baseUrl c) = None \/ unanswered E files w -> failed run)
  /\ (forall files r, a = ArrayOf files -> sent U c E files w r ->
      (ok r = false ->
       fst run = Throw (uploadFailed r)
       /\ err_body (uploadFailed r) = Some (parsed r)
       /\ err_status (uploadFailed r) = Some (resp_status r))
      /\ (parsed r = None -> failed run)
      /\ (forall j, parsed r = Some j ->
          (failed run <-> ok r = false \/ truthy (success j) = false)
          /\ (ok r = true -> truthy (success j) = false ->
              fst run = Throw (uploadNotSuccess j)
              /\ err_body (uploadNotSuccess j) = Some (Some j)))).
Proof.
  intros run. subst run.
  assert (Hbad : forall files, (exists f, In f files /\ (noForm f \/ unreadable E f)) ->
                   exists e, uploadFilesCall U c E (ArrayOf files) w = (Throw e, w)).
  { intros files Hb. assert (Hne : files <> []).
    { destruct Hb as [f [Hin _]]. destruct files; [destruct Hin|discriminate]. }
    destruct (U (uploadPath c) (baseUrl c)) as [u|] eqn:Hu.
    - rewrite (uploadFilesCall_array U c E files w u Hu).
      apply buildForm_fails_iff in Hb as [e He].
      exists e. now apply uploadFiles_form_error.
    - exists invalidUrl. now apply uploadFilesCall_no_url. }
  assert (Hsent : forall files r, sent U c E files w r ->
            uploadFilesCall U c E (ArrayOf files) w
            = (if negb (ok r) then Throw (uploadFailed r)
               else match parsed r with
                    | None => Throw (newError "SyntaxError: the body is not valid JSON")
                    | Some j =>
                        if negb (truthy (success j)) then Throw (uploadNotSuccess j)
                        else Ret (match uploads j with Some l => l | None => [] end)
                    end,
               snd (uploadFilesCall U c E (ArrayOf files) w))).
  { intros files r [Hne [Hu [form [Hb [Hl Hr]]]]].
    destruct (U (uploadPath c) (baseUrl c)) as [u|] eqn:Hu'; [|congruence].
    rewrite (uploadFilesCall_array U c E files w u Hu').
    rewrite (uploadFiles_run E files w form Hne Hb). cbn [snd]. unfold uploadOutcome.
    replace (60000 <? _) with false by (symmetry; apply Z.ltb_ge; exact Hl).
    now rewrite Hr. }
  split; [|split; [|split; [|split]]].
  - intros [->|[files [-> H]]]; [eexists; reflexivity|].
    destruct H as [->|[[f [Hin Hf]]|[r [Hs Hcase]]]].
    + eexists; reflexivity.
    + destruct (Hbad files) as [e He]; [eauto|]. exists e. now rewrite He.
    + unfold failed. rewrite (Hsent files r Hs). cbn [fst].
      destruct Hcase as [Hk|[j [Hp Hj]]].
      * rewrite Hk. eexists; reflexivity.
      * destruct (negb (ok r)); [eexists; reflexivity|]. rewrite Hp, Hj.
        eexists; reflexivity.
  - intros [->| ->]; reflexivity.
  - intros files ->. apply Hbad.
  - intros files -> Hne [Hu|[form [Hb Hun]]].
    + rewrite (uploadFilesCall_no_url U c E files w Hne Hu). eexists; reflexivity.
    + destruct (U (uploadPath c) (baseUrl c)) as [u|] eqn:Hu.
      * rewrite (uploadFilesCall_array U c E files w u Hu).
        apply uploadFiles_fails_iff. right. right. left. exists form. auto.
      * rewrite (uploadFilesCall_no_url U c E files w Hne Hu). eexists; reflexivity.
  - intros files r -> Hs. unfold failed. rewrite (Hsent files r Hs). cbn [fst].
    split; [|split].
    + intros Hk. rewrite Hk. cbn [negb]. auto.
    + intros Hp. destruct (negb (ok r)); [eexists; reflexivity|]. rewrite Hp.
      eexists; reflexivity.
    + intros j Hp. rewrite Hp. split.
      * destruct (ok r); cbn [negb].
        -- destruct (truthy (success j)); cbn [negb]; split.
           ++ intros [e He]; discriminate He.
           ++ intros [H|H]; discriminate H.
           ++ intros _; auto.
           ++ intros _; eexists; reflexivity.
        -- split; [intros _; auto|intros _; eexists; reflexivity].
      * intros Hk Hj. rewrite Hk, Hj. cbn [negb]. auto.
Qed.

Lemma uploadFiles_failure_conditions_witness :
  sent Calls.resolving Calls.client Scenario.flaky [Scenario.oneBuffer] Scenario.w0
       (mkResponse 503 EmptyString (Some emptyObj))
  /\ fst (uploadFilesCall Calls.resolving Calls.client Scenario.flaky
            (ArrayOf [Scenario.oneBuffer]) Scenario.w0) =
     Throw (uploadFailed (mkResponse 503 EmptyString (Some emptyObj))).
Proof.
  assert (Ha : sent Calls.resolving Calls.client Scenario.flaky [Scenario.oneBuffer]
                 Scenario.w0 (mkResponse 503 EmptyString (Some emptyObj))).
  { split; [discriminate|]. split; [discriminate|].
    eexists. split; [reflexivity|]. split; [simpl; lia|reflexivity]. }
  split; [exact Ha|].
  exact (proj1 (proj1 (proj2 (proj2 (proj2 (proj2
           (uploadFiles_failure_conditions Calls.resolving Calls.client Scenario.flaky
              (ArrayOf [Scenario.oneBuffer]) Scenario.w0))))
           _ _ eq_refl Ha) eq_refl)).
Defined.

(* ================================================================== *)
(** * Retrying *)

Section Retrying.

Variable E : Env.
Context {A : Type}.
Variable fn : M A.
Variables retries backoffMs : Z.

Lemma retryLoop_step k i w :
  retryLoop E (S k) fn retries backoffMs i w =
  match fn w with
  | (Throw e, w1) =>
      if i + 1 >? retries then (Throw e, w1)
      else retryLoop E k fn retries backoffMs (i + 1) (snd (wait E (backoffMs * (i + 1)) w1))
  | other => other
  end.
Proof.
  cbn [retryLoop]. unfold catch at 1.
  destruct (fn w) as [[a|e|] w1]; try reflexivity.
  destruct (i + 1 >? retries); reflexivity.
Qed.

(** Counting the first failure at the outset instead. *)
Lemma attemptAt_shift k : forall i w,
  attemptAt E fn backoffMs i (S k) w =
  attemptAt E fn backoffMs (i + 1) k (snd (wait E (backoffMs * (i + 1)) (snd (fn w)))).
Proof.
  induction k as [|k IH]; intros i w.
  - reflexivity.
  - change (attemptAt E fn backoffMs i (S (S k)) w)
      with (snd (wait E (backoffMs * (i + Z.of_nat (S (S k))))
                   (snd (fn (attemptAt E fn backoffMs i (S k) w))))).
    rewrite IH.
    change (attemptAt E fn backoffMs (i + 1) (S k) ?x)
      with (snd (wait E (backoffMs * (i + 1 + Z.of_nat (S k)))
                   (snd (fn (attemptAt E fn backoffMs (i + 1) k x))))).
    replace (i + Z.of_nat (S (S k))) with (i + 1 + Z.of_nat (S k)) by lia.
    reflexivity.
Qed.

(** The loop is a chain of failed attempts, each followed by its wait, and
    one last attempt whose outcome is the outcome of the loop. *)
Lemma retryLoop_attempts fuel : forall i w,
  i <= retries -> (Z.to_nat (retries - i) < fuel)%nat ->
  exists k,
    i + Z.of_nat k <= retries
    /\ (forall j, (j < k)%nat -> failed (fn (attemptAt E fn backoffMs i j w)))
    /\ retryLoop E fuel fn retries backoffMs i w = fn (attemptAt E fn backoffMs i k w)
    /\ (failed (fn (attemptAt E fn backoffMs i k w)) -> i + Z.of_nat k = retries).
Proof.
  induction fuel as [|f IH]; intros i w Hi Hfuel; [lia|].
  rewrite retryLoop_step.
  destruct (fn w) as [[a|e|] w1] eqn:Hfn.
  - exists O. simpl. rewrite Hfn. repeat split; try lia.
    intros [e He]. discriminate.
  - destruct (i + 1 >? retries) eqn:Hlast.
    + rewrite Z.gtb_ltb in Hlast. apply Z.ltb_lt in Hlast.
      exists O. simpl. rewrite Hfn. repeat split; lia.
    + rewrite Z.gtb_ltb in Hlast. apply Z.ltb_ge in Hlast.
      assert (Hi' : i + 1 <= retries) by lia.
      assert (Hfuel' : (Z.to_nat (retries - (i + 1)) < f)%nat) by lia.
      destruct (IH (i + 1) (snd (wait E (backoffMs * (i + 1)) w1)) Hi' Hfuel')
        as [k [Hk [Hf [Hrun Hend]]]].
      assert (Hw1 : w1 = snd (fn w)) by now rewrite Hfn.
      exists (S k). rewrite attemptAt_shift, <- Hw1. repeat split.
      * lia.
      * intros j Hj. destruct j as [|j].
        -- simpl. exists e. now rewrite Hfn.
        -- rewrite attemptAt_shift, <- Hw1. apply Hf. lia.
      * exact Hrun.
      * intros Hfail. specialize (Hend Hfail). lia.
  - exists O. simpl. rewrite Hfn. repeat split; try lia.
    intros [e He]. discriminate.
Qed.

End Retrying.

Lemma uploadRequests_app a b :
  uploadRequests (a ++ b) = (uploadRequests a + uploadRequests b)%nat.
Proof.
  induction a as [|[rq rp|ms] a IH]; simpl; [reflexivity| |exact IH].
  destruct rq; simpl; rewrite IH; reflexivity.
Qed.

Section UploadRetry.

Variable E : Env.
Variable config : Config.
Variable files : list FileInput.

Lemma uploadFiles_requests w :
  (uploadRequests (trace (snd (uploadFiles E files w))) <= uploadRequests (trace w) + 1)%nat.
Proof.
  destruct (uploadFiles_trace E files w) as [H|[form [rp H]]]; rewrite H.
  - lia.
  - rewrite uploadRequests_app. simpl. lia.
Qed.

Lemma attemptAt_requests k : forall i w,
  (uploadRequests (trace (attemptAt E (uploadFiles E files) 300 i k w))
   <= uploadRequests (trace w) + k)%nat.
Proof.
  induction k as [|k IH]; intros i w; [simpl; lia|].
  cbn [attemptAt]. cbn [wait snd trace]. rewrite uploadRequests_app. simpl.
  pose proof (uploadFiles_requests (attemptAt E (uploadFiles E files) 300 i k w)) as H1.
  specialize (IH i w). lia.
Qed.

(** The [.catch] handler of the upload step. *)
Lemma uploadWithRetry_unfold fuel w :
  uploadWithRetry E config fuel files w =
  match retryAsync E fuel (uploadFiles E files) (maxRetries config) 300 w with
  | (Throw e, w') => (Throw (newError ("Uploading files failed: " ++ message e)), w')
  | other => other
  end.
Proof.
  unfold uploadWithRetry, catch.
  destruct (retryAsync E fuel (uploadFiles E files) (maxRetries config) 300 w) as [[ids|e|] w'];
    reflexivity.
Qed.

End UploadRetry.

(* ================================================================== *)
(** * The whole chain *)

Section Chain.

Variable E : Env.
Variable config : Config.

Lemma submitPostWithFiles_unfold fuel a w rp qid :
  f_files a <> [] ->
  permissionResolved (f_replyPermission a) = Ret rp ->
  quoteResolved (f_quotePostID a) = Ret qid ->
  submitPostWithFiles E config fuel a w =
  match uploadWithRetry E config fuel (f_files a) w with
  | (Ret ids, w1) =>
      match pollEach E config fuel (f_pollOptions a) (f_timeoutMs a) (now w1) ids [] w1 with
      | (Ret srcs, w2) =>
          submitPost E (mkPostArgs (f_body a) srcs (f_replyPermission a) (f_quotePostID a) VNull) w2
      | (Throw e, w2) => (Throw e, w2)
      | (Starved, w2) => (Starved, w2)
      end
  | (Throw e, w1) => (Throw e, w1)
  | (Starved, w1) => (Starved, w1)
  end.
Proof.
  intros Hne Hrp Hq. unfold submitPostWithFiles.
  destruct (f_files a) as [|f rest] eqn:Hfiles; [congruence|].
  assert (H1 : match f_replyPermission a with
               | VUndefined => Ret VUndefined
               | other => validateReplyPermission other
               end = Ret (match f_replyPermission a with VUndefined => VUndefined | _ => rp end)).
  { unfold permissionResolved in Hrp. destruct (f_replyPermission a); auto. }
  assert (H2 : (if negb (nullish (f_quotePostID a))
                then validateQuotePostID (f_quotePostID a) else Ret VUndefined)
               = Ret (if negb (nullish (f_quotePostID a)) then qid else VUndefined)).
  { unfold quoteResolved in Hq. destruct (nullish (f_quotePostID a)); auto. }
  unfold bind at 1. unfold lift at 1. rewrite H1.
  unfold bind at 1. unfold lift at 1. rewrite H2.
  unfold bind at 1.
  destruct (uploadWithRetry E config fuel (f :: rest) w) as [[ids|e|] w1]; reflexivity.
Qed.

(** A rejected reply permission or quote id ends the call before anything
    is sent. *)
Lemma submitPostWithFiles_rejects fuel a w e :
  permissionResolved (f_replyPermission a) = Throw e
  \/ (exists rp, permissionResolved (f_replyPermission a) = Ret rp)
     /\ quoteResolved (f_quotePostID a) = Throw e ->
  submitPostWithFiles E config fuel a w = (Throw e, w).
Proof.
  intros H. unfold submitPostWithFiles.
  destruct (f_files a) as [|f rest].
  - rewrite submitPost_unfold. cbn [a_replyPermission a_quotePostID].
    destruct H as [H|[[rp Hrp] Hq]]; [now rewrite H|now rewrite Hrp, Hq].
  - unfold bind at 1. unfold lift at 1.
    destruct H as [H|[[rp Hrp] Hq]].
    + unfold permissionResolved in H.
      destruct (f_replyPermission a); try discriminate; now rewrite H.
    + assert (H1 : exists v, match f_replyPermission a with
                             | VUndefined => Ret VUndefined
                             | other => validateReplyPermission other
                             end = Ret v).
      { unfold permissionResolved in Hrp. destruct (f_replyPermission a); eauto. }
      destruct H1 as [v ->].
      unfold bind at 1. unfold lift at 1.
      unfold quoteResolved in Hq. destruct (nullish (f_quotePostID a)); [discriminate|].
      simpl. now rewrite Hq.
Qed.

End Chain.

(** C4.  The upload step of [submitPostWithFiles], for a retry count
    [maxRetries >= 0] and enough fuel.  The retried call is a chain of [k]
    failed invocations of [uploadFiles], [k <= maxRetries], and one last
    invocation whose outcome is the outcome of the chain, so the function runs
    [k + 1 <= maxRetries + 1] times and sends at most that many upload
    requests; a last invocation that fails is invocation [maxRetries + 1].
    Invocation [N + 1] starts after a wait of [300 * N] ms that follows failure
    [N].  If the first two invocations fail and the third returns, the step
    returns what the third returned.  An error that leaves the retry loop is
    re-thrown as a new error whose message wraps the message of that error,
    and it ends [submitPostWithFiles].  Against a service that answers 503
    twice and then accepts, the step returns the upload id after three upload
    requests with waits of 300 and 600 ms between them. *)
Theorem upload_retry_policy (E : Env) (config : Config) (files : list FileInput) (w : World) :
  let fn := uploadFiles E files in
  let n := maxRetries config in
  0 <= n ->
  (forall fuel, (Z.to_nat n < fuel)%nat ->
     exists k,
       Z.of_nat k <= n
       /\ (forall j, (j < k)%nat -> failed (fn (attemptAt E fn 300 0 j w)))
       /\ retryAsync E fuel fn n 300 w = fn (attemptAt E fn 300 0 k w)
       /\ (failed (fn (attemptAt E fn 300 0 k w)) -> Z.of_nat k = n)
       /\ (uploadRequests (trace (snd (retryAsync E fuel fn n 300 w)))
           <= uploadRequests (trace w) + k + 1)%nat)
  /\ (forall j,
        trace (attemptAt E fn 300 0 (S j) w) =
        (trace (snd (fn (attemptAt E fn 300 0 j w))) ++ [EvWait (300 * Z.of_nat (S j))])%list)
  /\ (2 <= n -> forall fuel ids w3,
        (Z.to_nat n < fuel)%nat ->
        failed (fn w) -> failed (fn (attemptAt E fn 300 0 1 w)) ->
        fn (attemptAt E fn 300 0 2 w) = (Ret ids, w3) ->
        uploadWithRetry E config fuel files w = (Ret ids, w3))
  /\ (forall fuel e w',
        retryAsync E fuel fn n 300 w = (Throw e, w') ->
        uploadWithRetry E config fuel files w =
          (Throw (newError ("Uploading files failed: " ++ message e)), w')
        /\ forall a rp qid,
             f_files a = files -> files <> [] ->
             permissionResolved (f_replyPermission a) = Ret rp ->
             quoteResolved (f_quotePostID a) = Ret qid ->
             submitPostWithFiles E config fuel a w =
               (Throw (newError ("Uploading files failed: " ++ message e)), w'))
  /\ (fst (uploadWithRetry Scenario.flaky DEFAULTS 4 [Scenario.oneBuffer] Scenario.w0) = Ret ["U1"]
      /\ trace (snd (uploadWithRetry Scenario.flaky DEFAULTS 4 [Scenario.oneBuffer] Scenario.w0)) =
         [EvFetch (ReqUpload [mkPart "a.png" "image/png" []]) (Scenario.answer 503 emptyObj 10);
          EvWait 300;
          EvFetch (ReqUpload [mkPart "a.png" "image/png" []]) (Scenario.answer 503 emptyObj 10);
          EvWait 600;
          EvFetch (ReqUpload [mkPart "a.png" "image/png" []])
                  (Scenario.answer 200 (Scenario.uploaded ["U1"]) 10)]).
Proof.
  intros fn n Hn.
  assert (Hchain : forall fuel, (Z.to_nat n < fuel)%nat ->
            exists k,
              Z.of_nat k <= n
              /\ (forall j, (j < k)%nat -> failed (fn (attemptAt E fn 300 0 j w)))
              /\ retryAsync E fuel fn n 300 w = fn (attemptAt E fn 300 0 k w)
              /\ (failed (fn (attemptAt E fn 300 0 k w)) -> Z.of_nat k = n)).
  { intros fuel Hfuel. unfold retryAsync.
    destruct (retryLoop_attempts E fn n 300 fuel 0 w) as [k [Hk [Hf [Hrun Hend]]]]; [lia|
      rewrite Z.sub_0_r; exact Hfuel|].
    exists k. repeat split; auto; lia. }
  split; [|split; [|split; [|split]]].
  - intros fuel Hfuel. destruct (Hchain fuel Hfuel) as [k [Hk [Hf [Hrun Hend]]]].
    exists k. repeat split; auto.
    rewrite Hrun. subst fn.
    pose proof (uploadFiles_requests E files (attemptAt E (uploadFiles E files) 300 0 k w)) as H1.
    pose proof (attemptAt_requests E files k 0 w) as H2. lia.
  - intros j. reflexivity.
  - intros Hn2 fuel ids w3 Hfuel Hf0 Hf1 Hok.
    destruct (Hchain fuel Hfuel) as [k [Hk [Hf [Hrun Hend]]]].
    assert (Hk2 : k = 2%nat).
    { destruct k as [|[|[|k]]].
      - specialize (Hend Hf0). lia.
      - specialize (Hend Hf1). lia.
      - reflexivity.
      - exfalso. destruct (Hf 2%nat ltac:(lia)) as [e He].
        rewrite Hok in He. discriminate. }
    subst k. rewrite uploadWithRetry_unfold. fold fn n. rewrite Hrun, Hok. reflexivity.
  - intros fuel e w' Hrun.
    assert (Hup : uploadWithRetry E config fuel files w =
                  (Throw (newError ("Uploading files failed: " ++ message e)), w')).
    { rewrite uploadWithRetry_unfold. fold fn n. now rewrite Hrun. }
    split; [exact Hup|].
    intros a rp qid Hfiles Hne Hrp Hq.
    rewrite (submitPostWithFiles_unfold E config fuel a w rp qid); auto; [|congruence].
    rewrite Hfiles, Hup. reflexivity.
  - split; reflexivity.
Qed.

Lemma upload_retry_policy_witness :
  0 <= maxRetries DEFAULTS /\ 2 <= maxRetries DEFAULTS
  /\ failed (uploadFiles Scenario.flaky [Scenario.oneBuffer] Scenario.w0)
  /\ failed (uploadFiles Scenario.flaky [Scenario.oneBuffer]
               (attemptAt Scenario.flaky (uploadFiles Scenario.flaky [Scenario.oneBuffer])
                          300 0 1 Scenario.w0))
  /\ uploadWithRetry Scenario.flaky DEFAULTS 4 [Scenario.oneBuffer] Scenario.w0 =
     (Ret ["U1"],
      snd (uploadFiles Scenario.flaky [Scenario.oneBuffer]
             (attemptAt Scenario.flaky (uploadFiles Scenario.flaky [Scenario.oneBuffer])
                        300 0 2 Scenario.w0))).
Proof.
  assert (H0 : 0 <= maxRetries DEFAULTS) by (simpl; lia).
  assert (H2 : 2 <= maxRetries DEFAULTS) by (simpl; lia).
  assert (F1 : failed (uploadFiles Scenario.flaky [Scenario.oneBuffer] Scenario.w0))
    by (eexists; reflexivity).
  assert (F2 : failed (uploadFiles Scenario.flaky [Scenario.oneBuffer]
                         (attemptAt Scenario.flaky (uploadFiles Scenario.flaky [Scenario.oneBuffer])
                                    300 0 1 Scenario.w0)))
    by (eexists; reflexivity).
  repeat (split; [assumption|]).
  exact (proj1 (proj2 (proj2
           (upload_retry_policy Scenario.flaky DEFAULTS [Scenario.oneBuffer] Scenario.w0 H0)))
           H2 4%nat _ _ ltac:(simpl; lia) F1 F2 eq_refl).
Defined.

(* ================================================================== *)
(** * Polling every upload *)

Lemma posts_app a b : posts (a ++ b) = (posts a ++ posts b)%list.
Proof.
  induction a as [|[rq rp|ms] a IH]; simpl; [reflexivity| |exact IH].
  destruct rq; simpl; rewrite IH; reflexivity.
Qed.

Lemma finals_app a b : finals (a ++ b) = (finals a ++ finals b)%list.
Proof.
  induction a as [|[rq rp|ms] a IH]; simpl; [reflexivity| |exact IH].
  destruct rq; simpl; try exact IH.
  destruct (statusOf rp) as [st|e|]; try exact IH.
  destruct (isTerminal st); simpl; rewrite IH; reflexivity.
Qed.

Lemma statusOf_error_bare rp e : statusOf rp = Throw e -> statusObj e = None.
Proof.
  unfold statusOf. destruct (15000 <? elapsed rp); [intro H; now inversion H|].
  destruct (settled rp) as [r|msg]; [|intro H; now inversion H].
  destruct (resp_status r =? 404); [discriminate|].
  destruct (negb (ok r)); [intro H; now inversion H|].
  destruct (parsed r); [discriminate|intro H; now inversion H].
Qed.

Section PollEach.

Variable E : Env.
Variable config : Config.

(** What one finished poll leaves in the history: no post, and as terminal
    answers the returned status alone. *)
Lemma pollLoop_finals id interval tmo start fuel : forall w r w',
  pollLoop E fuel id interval tmo start w = (r, w') -> r <> Starved ->
  exists evs,
    trace w' = (trace w ++ evs)%list
    /\ posts evs = []
    /\ match r with
       | Ret st => finals evs = [(id, st)] /\ isTerminal st = true
       | Throw e => finals evs = [] /\ statusObj e = None
       | Starved => False
       end.
Proof.
  induction fuel as [|k IH]; intros w r w' Hrun Hr.
  - simpl in Hrun. inversion Hrun; subst. congruence.
  - rewrite pollLoop_step in Hrun.
    pose proof (getUploadStatus_trace E id w) as Ht.
    rewrite getUploadStatus_run in Hrun, Ht. simpl in Ht.
    set (ev := EvFetch (ReqStatus id) (net E (trace w) (ReqStatus id))) in *.
    destruct (statusOf (net E (trace w) (ReqStatus id))) as [st|e|] eqn:Hst.
    + destruct (isTerminal st) eqn:Hterm.
      * inversion Hrun; subst. exists [ev]. split; [exact Ht|]. split; [reflexivity|].
        simpl. rewrite Hst, Hterm. auto.
      * destruct (now _ - start >? tmo) eqn:Hlate.
        -- inversion Hrun; subst. exists [ev]. split; [exact Ht|]. split; [reflexivity|].
           simpl. rewrite Hst, Hterm. auto.
        -- destruct (IH _ _ _ Hrun Hr) as [evs [Htr [Hp Hf]]].
           exists (ev :: EvWait interval :: evs). split.
           { rewrite Htr. simpl. rewrite Ht, <- !app_assoc. reflexivity. }
           split; [exact Hp|].
           simpl. rewrite Hst, Hterm. exact Hf.
    + inversion Hrun; subst. exists [ev]. split; [exact Ht|]. split; [reflexivity|].
      simpl. rewrite Hst. split; [reflexivity|]. now apply statusOf_error_bare in Hst.
    + exfalso. now apply (statusOf_not_starved _ Hst).
Qed.

(** One turn of the loop over the uploads. *)
Lemma pollEach_step fuel opts tmo start id rest acc w :
  pollEach E config fuel opts tmo start (id :: rest) acc w =
  if tmo - (now w - start) <=? 0 then (Throw deadlineError, w)
  else
    match pollUntilProcessed E config fuel id
            (mkPollOptions (intervalMs opts)
               (Some (Z.min (tmo - (now w - start))
                            (orElse (timeoutMs opts) (pollTimeoutMs config))))) w with
    | (Ret st, w1) =>
        if usable st then pollEach E config fuel opts tmo start rest (acc ++ [src st]) w1
        else (Throw (if isStr (status st) "PROCESSED" then processedNoSrc id st
                     else terminalState id st), w1)
    | (Throw e, w1) => (Throw e, w1)
    | (Starved, w1) => (Starved, w1)
    end.
Proof.
  cbn [pollEach]. unfold bind at 1. unfold dateNow at 1.
  destruct (tmo - (now w - start) <=? 0); [reflexivity|].
  unfold bind at 1.
  destruct (pollUntilProcessed E config fuel id _ w) as [[st|e|] w1]; try reflexivity.
  unfold usable.
  destruct (isStr (status st) "PROCESSED"); [|reflexivity].
  destruct (truthy (src st)); reflexivity.
Qed.

Lemma pollEach_finals fuel opts tmo start ids : forall acc w r w',
  pollEach E config fuel opts tmo start ids acc w = (r, w') -> r <> Starved ->
  exists evs,
    trace w' = (trace w ++ evs)%list
    /\ posts evs = []
    /\ match r with
       | Ret srcs =>
           srcs = (acc ++ map (fun p => src (snd p)) (finals evs))%list
           /\ map fst (finals evs) = ids
           /\ Forall (fun p => usable (snd p) = true) (finals evs)
       | Throw e =>
           forall p, In p (finals evs) -> usable (snd p) = false -> statusObj e = Some (snd p)
       | Starved => False
       end.
Proof.
  induction ids as [|id rest IH]; intros acc w r w' Hrun Hr.
  - simpl in Hrun. inversion Hrun; subst. exists []. rewrite !app_nil_r.
    repeat split; auto.
  - rewrite pollEach_step in Hrun.
    destruct (tmo - (now w - start) <=? 0).
    { inversion Hrun; subst. exists []. rewrite app_nil_r.
      repeat split; auto. intros p []. }
    rewrite pollUntilProcessed_unfold in Hrun.
    destruct (pollLoop E fuel id _ _ (now w) w) as [[st|e|] w1] eqn:Hpoll.
    + destruct (pollLoop_finals _ _ _ _ _ _ _ _ Hpoll ltac:(discriminate))
        as [evs1 [Ht1 [Hp1 [Hf1 Hterm]]]].
      destruct (usable st) eqn:Hus.
      * destruct (IH _ _ _ _ Hrun Hr) as [evs2 [Ht2 [Hp2 Hf2]]].
        exists (evs1 ++ evs2)%list. split; [now rewrite Ht2, Ht1, app_assoc|].
        split; [now rewrite posts_app, Hp1, Hp2|].
        rewrite finals_app, Hf1. simpl.
        destruct r as [srcs|e|]; [|intros p [<-|Hin] Hbad; [simpl in Hbad; congruence|auto]|exact Hf2].
        destruct Hf2 as [Hs [Hids Hall]]. split; [|split].
        -- rewrite Hs, <- app_assoc. reflexivity.
        -- now rewrite Hids.
        -- constructor; auto.
      * inversion Hrun; subst. exists evs1. split; [exact Ht1|]. split; [exact Hp1|].
        rewrite Hf1. intros p [<-|[]] _. simpl.
        destruct (isStr (status st) "PROCESSED"); reflexivity.
    + inversion Hrun; subst.
      destruct (pollLoop_finals _ _ _ _ _ _ _ _ Hpoll ltac:(discriminate))
        as [evs1 [Ht1 [Hp1 [Hf1 _]]]].
      exists evs1. split; [exact Ht1|]. split; [exact Hp1|].
      rewrite Hf1. intros p [].
    + inversion Hrun; subst. congruence.
Qed.

Variable files : list FileInput.

(** The upload step leaves only upload requests and waits in the history. *)
Lemma retryLoop_upload_events n b fuel : forall i w,
  exists evs,
    trace (snd (retryLoop E fuel (uploadFiles E files) n b i w)) = (trace w ++ evs)%list
    /\ posts evs = [] /\ finals evs = [].
Proof.
  induction fuel as [|k IH]; intros i w.
  - exists []. simpl. now rewrite app_nil_r.
  - rewrite retryLoop_step.
    destruct (uploadFiles_trace E files w) as [Ht|[form [rp Ht]]];
      destruct (uploadFiles E files w) as [[ids|e|] w1]; simpl in Ht;
      try (exists []; simpl; rewrite app_nil_r; auto; fail);
      try (eexists; simpl; split; [exact Ht|split; reflexivity]; fail).
    + destruct (i + 1 >? n); [exists []; simpl; rewrite app_nil_r; auto|].
      destruct (IH (i + 1) (snd (wait E (b * (i + 1)) w1))) as [evs [Htr [Hp Hf]]].
      exists (EvWait (b * (i + 1)) :: evs). rewrite Htr. simpl. rewrite Ht, <- app_assoc.
      auto.
    + destruct (i + 1 >? n); [eexists; simpl; split; [exact Ht|split; reflexivity]|].
      destruct (IH (i + 1) (snd (wait E (b * (i + 1)) w1))) as [evs [Htr [Hp Hf]]].
      exists (EvFetch (ReqUpload form) rp :: EvWait (b * (i + 1)) :: evs).
      rewrite Htr. simpl. rewrite Ht, <- !app_assoc. auto.
Qed.

Lemma uploadWithRetry_events fuel w :
  exists evs,
    trace (snd (uploadWithRetry E config fuel files w)) = (trace w ++ evs)%list
    /\ posts evs = [] /\ finals evs = [].
Proof.
  rewrite uploadWithRetry_unfold. unfold retryAsync.
  destruct (retryLoop_upload_events (maxRetries config) 300 fuel 0 w) as [evs H].
  exists evs.
  destruct (retryLoop E fuel (uploadFiles E files) (maxRetries config) 300 0 w) as [[ids|e|] w1];
    exact H.
Qed.

End PollEach.

Lemma permissionResolved_not_starved rp : permissionResolved rp <> Starved.
Proof.
  unfold permissionResolved, validateReplyPermission.
  destruct rp as [| |b|n|s]; try discriminate.
  - destruct (negb (truthy (VBool b))); [discriminate|].
    destruct (negb (REPLY_PERMISSIONS_has _)); discriminate.
  - destruct (negb (truthy (VNum n))); [discriminate|].
    destruct (negb (REPLY_PERMISSIONS_has _)); discriminate.
  - destruct (_ || _); [discriminate|].
    destruct (negb (REPLY_PERMISSIONS_has _)); discriminate.
Qed.

Lemma quoteResolved_not_starved id : quoteResolved id <> Starved.
Proof.
  unfold quoteResolved, validateQuotePostID.
  destruct (nullish id); [discriminate|].
  destruct (negb (CUID2_REGEX_test _)); discriminate.
Qed.

(** C5.  At every turn of the loop over the upload ids, with [remaining] the
    overall budget less the time gone since the polling phase began: when
    [remaining <= 0] the call throws the deadline error in an untouched
    world, so no status query is issued for that upload; otherwise the upload
    is polled with the caller's interval and with the timeout
    [min remaining (pollOptions.timeoutMs ?? config.pollTimeoutMs)], which is
    the budget the polling loop then runs on, so a polling timeout is raised
    only after more than that has passed; the rest of the turn follows the
    result of that poll.  In [submitPostWithFiles] the clock of the phase is
    read in the world the upload step leaves. *)
Theorem poll_budget_is_min (E : Env) (config : Config) (fuel : nat) (opts : PollOptions)
        (tmo start : Z) (id : string) (rest : list string) (acc : list value) (w : World) :
  let remaining := tmo - (now w - start) in
  let budget := Z.min remaining (orElse (timeoutMs opts) (pollTimeoutMs config)) in
  let poll := pollUntilProcessed E config fuel id
                (mkPollOptions (intervalMs opts) (Some budget)) w in
  (remaining <= 0 ->
   pollEach E config fuel opts tmo start (id :: rest) acc w = (Throw deadlineError, w))
  /\ (0 < remaining ->
      pollEach E config fuel opts tmo start (id :: rest) acc w =
      match poll with
      | (Ret st, w1) =>
          if usable st then pollEach E config fuel opts tmo start rest (acc ++ [src st]) w1
          else (Throw (if isStr (status st) "PROCESSED" then processedNoSrc id st
                       else terminalState id st), w1)
      | (Throw e, w1) => (Throw e, w1)
      | (Starved, w1) => (Starved, w1)
      end)
  /\ poll = pollLoop E fuel id (orElse (intervalMs opts) (pollIntervalMs config)) budget (now w) w
  /\ (forall e w1 st, poll = (Throw e, w1) -> uploadStatus e = Some st -> now w1 - now w > budget)
  /\ (forall a w0 rp qid ids,
        f_files a <> [] ->
        permissionResolved (f_replyPermission a) = Ret rp ->
        quoteResolved (f_quotePostID a) = Ret qid ->
        uploadWithRetry E config fuel (f_files a) w0 = (Ret ids, w) ->
        submitPostWithFiles E config fuel a w0 =
        match pollEach E config fuel (f_pollOptions a) (f_timeoutMs a) (now w) ids [] w with
        | (Ret srcs, w2) =>
            submitPost E (mkPostArgs (f_body a) srcs (f_replyPermission a) (f_quotePostID a) VNull) w2
        | (Throw e, w2) => (Throw e, w2)
        | (Starved, w2) => (Starved, w2)
        end).
Proof.
  intros remaining budget poll. split; [|split; [|split; [|split]]].
  - intros Hrem. rewrite pollEach_step. fold remaining.
    replace (remaining <=? 0) with true by (symmetry; apply Z.leb_le; exact Hrem).
    reflexivity.
  - intros Hrem. rewrite pollEach_step. fold remaining.
    replace (remaining <=? 0) with false by (symmetry; apply Z.leb_gt; exact Hrem).
    reflexivity.
  - reflexivity.
  - intros e w1 st Hrun Hst. subst poll. rewrite pollUntilProcessed_unfold in Hrun.
    destruct (pollLoop_timeout_origin E id _ _ _ fuel w e w1 st Hrun Hst) as [wq [_ [_ H]]].
    exact H.
  - intros a w0 rp qid ids Hne Hrp Hq Hup.
    rewrite (submitPostWithFiles_unfold E config fuel a w0 rp qid Hne Hrp Hq), Hup.
    reflexivity.
Qed.

Lemma poll_budget_is_min_witness :
  120000 - (now (mkWorld 130000 []) - 0) <= 0
  /\ pollEach Scenario.smooth DEFAULTS 3 (mkPollOptions None None) 120000 0 ["U1"] []
       (mkWorld 130000 []) = (Throw deadlineError, mkWorld 130000 []).
Proof.
  assert (H : 120000 - (now (mkWorld 130000 []) - 0) <= 0) by (simpl; lia).
  split; [exact H|].
  exact (proj1 (poll_budget_is_min Scenario.smooth DEFAULTS 3 (mkPollOptions None None)
                  120000 0 "U1" [] [] (mkWorld 130000 [])) H).
Defined.

(** C10.  When the upload endpoint answers in time with a success status and
    a truthy [success] but no [uploads] field, [uploadFiles] returns the empty
    list; [submitPostWithFiles] (reply permission and quote id acceptable)
    then is [submitPost] with an empty media list in the world the upload
    left, and its whole history is the upload request followed by the one
    post, whose medias are empty: no status query is made. *)
Theorem upload_without_uploads_field (E : Env) (config : Config) (fuel : nat)
        (a : PostWithFilesArgs) (w : World) (form : list Part) (r : Response) (j : Json)
        (rp qid : value) :
  f_files a <> [] ->
  buildForm E (f_files a) = Ret form ->
  elapsed (net E (trace w) (ReqUpload form)) <= 60000 ->
  settled (net E (trace w) (ReqUpload form)) = Responded r ->
  ok r = true -> parsed r = Some j -> truthy (success j) = true -> uploads j = None ->
  permissionResolved (f_replyPermission a) = Ret rp ->
  quoteResolved (f_quotePostID a) = Ret qid ->
  let w1 := snd (fetchWithTimeout E (ReqUpload form) 60000 w) in
  let payload := mkPayload (f_body a) [] rp qid None in
  uploadFiles E (f_files a) w = (Ret [], w1)
  /\ submitPostWithFiles E config (S fuel) a w =
     submitPost E (mkPostArgs (f_body a) [] (f_replyPermission a) (f_quotePostID a) VNull) w1
  /\ trace (snd (submitPostWithFiles E config (S fuel) a w)) =
     (trace w ++ [EvFetch (ReqUpload form) (net E (trace w) (ReqUpload form));
                  EvFetch (ReqPost payload) (net E (trace w1) (ReqPost payload))])%list.
Proof.
  intros Hne Hb Hl Hr Hk Hp Hs Hu Hrp Hq w1 payload.
  assert (Hup : uploadFiles E (f_files a) w = (Ret [], w1)).
  { rewrite (uploadFiles_run E (f_files a) w form Hne Hb). unfold uploadOutcome.
    replace (60000 <? _) with false by (symmetry; apply Z.ltb_ge; exact Hl).
    rewrite Hr, Hk, Hp, Hs, Hu. reflexivity. }
  assert (Hrun : submitPostWithFiles E config (S fuel) a w =
                 submitPost E (mkPostArgs (f_body a) [] (f_replyPermission a)
                                          (f_quotePostID a) VNull) w1).
  { rewrite (submitPostWithFiles_unfold E config (S fuel) a w rp qid Hne Hrp Hq).
    rewrite uploadWithRetry_unfold. unfold retryAsync. rewrite retryLoop_step, Hup.
    reflexivity. }
  split; [exact Hup|]. split; [exact Hrun|].
  rewrite Hrun.
  pose proof (submitPost_sends E
                (mkPostArgs (f_body a) [] (f_replyPermission a) (f_quotePostID a) VNull)
                w1 rp qid Hrp Hq) as Hsend.
  unfold sends in Hsend. cbn [a_body a_medias userIPField a_userIP truthy] in Hsend.
  rewrite Hsend. subst w1. rewrite fetch_trace, <- app_assoc. reflexivity.
Qed.

Lemma upload_without_uploads_field_witness :
  fst (submitPostWithFiles Scenario.bare DEFAULTS 1 (Scenario.post [Scenario.oneBuffer]) Scenario.w0)
  = Ret Scenario.accepted
  /\ trace (snd (submitPostWithFiles Scenario.bare DEFAULTS 1
                   (Scenario.post [Scenario.oneBuffer]) Scenario.w0)) =
     [EvFetch (ReqUpload [mkPart "a.png" "image/png" []]) (Scenario.answer 200 Scenario.accepted 10);
      EvFetch (ReqPost (mkPayload "hello" [] (VStr "PUBLIC") VNull None))
              (Scenario.answer 200 Scenario.accepted 10)].
Proof.
  split; [reflexivity|].
  exact (proj2 (proj2 (upload_without_uploads_field Scenario.bare DEFAULTS 0
           (Scenario.post [Scenario.oneBuffer]) Scenario.w0
           [mkPart "a.png" "image/png" []]
           (mkResponse 200 EmptyString (Some Scenario.accepted)) Scenario.accepted
           (VStr "PUBLIC") VNull
           ltac:(discriminate) eq_refl ltac:(simpl; lia) eq_refl eq_refl eq_refl eq_refl eq_refl
           eq_refl eq_refl))).
Defined.

(* ================================================================== *)
(** * Nothing unprocessed is posted *)

Section FailClosed.

Variable E : Env.
Variable config : Config.

(** [submitPost] never starves: it has no loop. *)
Lemma submitPost_not_starved a w : fst (submitPost E a w) <> Starved.
Proof.
  rewrite submitPost_unfold.
  pose proof (permissionResolved_not_starved (a_replyPermission a)) as H1.
  pose proof (quoteResolved_not_starved (a_quotePostID a)) as H2.
  destruct (permissionResolved (a_replyPermission a)) as [rp|e|];
    [|simpl; discriminate|congruence].
  destruct (quoteResolved (a_quotePostID a)) as [qid|e|];
    [|simpl; discriminate|congruence].
  unfold bind, _doFetch.
  pose proof (fetch_not_starved E (ReqPost (mkPayload (a_body a) (a_medias a) rp qid (userIPField a)))
                                20000 w) as H3.
  destruct (fetchWithTimeout E _ 20000 w) as [[resp|e|] w1]; simpl in H3;
    [|simpl; discriminate|congruence].
  destruct (negb (ok resp)); [discriminate|].
  unfold json. destruct (parsed resp); discriminate.
Qed.

Lemma chain_seen fuel a w r w' :
  f_files a <> [] ->
  submitPostWithFiles E config fuel a w = (r, w') -> r <> Starved ->
  exists evs,
    trace w' = (trace w ++ evs)%list
    /\ (forall p, In p (finals evs) -> usable (snd p) = false ->
        posts evs = [] /\ exists e, r = Throw e /\ statusObj e = Some (snd p))
    /\ (forall payload, In payload (posts evs) ->
        p_medias payload = map (fun p => src (snd p)) (finals evs)
        /\ Forall (fun p => usable (snd p) = true) (finals evs))
    /\ (forall j, r = Ret j ->
        exists payload,
          posts evs = [payload]
          /\ p_medias payload = map (fun p => src (snd p)) (finals evs)
          /\ forall ids w1,
               uploadWithRetry E config fuel (f_files a) w = (Ret ids, w1) ->
               map fst (finals evs) = ids).
Proof.
  intros Hne Hrun Hr.
  assert (Hquiet : forall e, r = Throw e -> w' = w ->
            exists evs,
              trace w' = (trace w ++ evs)%list
              /\ (forall p, In p (finals evs) -> usable (snd p) = false ->
                  posts evs = [] /\ exists e, r = Throw e /\ statusObj e = Some (snd p))
              /\ (forall payload, In payload (posts evs) ->
                  p_medias payload = map (fun p => src (snd p)) (finals evs)
                  /\ Forall (fun p => usable (snd p) = true) (finals evs))
              /\ (forall j, r = Ret j ->
                  exists payload,
                    posts evs = [payload]
                    /\ p_medias payload = map (fun p => src (snd p)) (finals evs)
                    /\ forall ids w1,
                         uploadWithRetry E config fuel (f_files a) w = (Ret ids, w1) ->
                         map fst (finals evs) = ids)).
  { intros e -> ->. exists []. rewrite app_nil_r.
    split; [reflexivity|]. split; [intros p []|]. split; [intros p []|].
    intros j Hj. discriminate. }
  pose proof (permissionResolved_not_starved (f_replyPermission a)) as H1.
  pose proof (quoteResolved_not_starved (f_quotePostID a)) as H2.
  destruct (permissionResolved (f_replyPermission a)) as [rp|e|] eqn:Hrp; try congruence;
    [|rewrite (submitPostWithFiles_rejects E config fuel a w e) in Hrun by auto;
      inversion Hrun; subst; now apply (Hquiet e)].
  destruct (quoteResolved (f_quotePostID a)) as [qid|e|] eqn:Hq; try congruence;
    [|rewrite (submitPostWithFiles_rejects E config fuel a w e) in Hrun by eauto;
      inversion Hrun; subst; now apply (Hquiet e)].
  clear Hquiet.
  rewrite (submitPostWithFiles_unfold E config fuel a w rp qid Hne Hrp Hq) in Hrun.
  destruct (uploadWithRetry_events E config (f_files a) fuel w) as [evs1 [Ht1 [Hp1 Hf1]]].
  destruct (uploadWithRetry E config fuel (f_files a) w) as [[ids|e|] w1] eqn:Hup;
    simpl in Ht1.
  - destruct (pollEach E config fuel (f_pollOptions a) (f_timeoutMs a) (now w1) ids [] w1)
      as [[srcs|e|] w2] eqn:Hpoll.
    + destruct (pollEach_finals E config _ _ _ _ _ _ _ _ _ Hpoll ltac:(discriminate))
        as [evs2 [Ht2 [Hp2 [Hs [Hids Hall]]]]].
      simpl in Hs.
      set (args := mkPostArgs (f_body a) srcs (f_replyPermission a) (f_quotePostID a) VNull) in *.
      assert (Hsend : sends E args w2 (mkPayload (f_body a) srcs rp qid None))
        by (apply (submitPost_sends E args w2 rp qid); assumption).
      unfold sends in Hsend. rewrite Hrun in Hsend. simpl in Hsend.
      set (ev := EvFetch (ReqPost (mkPayload (f_body a) srcs rp qid None)) _) in Hsend.
      exists (evs1 ++ evs2 ++ [ev])%list.
      assert (Hfin : finals (evs1 ++ evs2 ++ [ev]) = finals evs2).
      { rewrite !finals_app, Hf1. simpl. now rewrite app_nil_r. }
      assert (Hposts : posts (evs1 ++ evs2 ++ [ev]) = [mkPayload (f_body a) srcs rp qid None]).
      { rewrite !posts_app, Hp1, Hp2. reflexivity. }
      rewrite Hfin, Hposts. split; [|split; [|split]].
      * rewrite Hsend, Ht2, Ht1, <- !app_assoc. reflexivity.
      * intros p Hin Hbad. exfalso.
        rewrite Forall_forall in Hall. specialize (Hall p Hin). congruence.
      * intros payload [<-|[]]. split; [exact Hs|exact Hall].
      * intros j _. eexists. split; [reflexivity|]. split; [exact Hs|].
        intros ids' w1' Heq. congruence.
    + inversion Hrun; subst.
      destruct (pollEach_finals E config _ _ _ _ _ _ _ _ _ Hpoll ltac:(discriminate))
        as [evs2 [Ht2 [Hp2 Hbad]]].
      exists (evs1 ++ evs2)%list.
      rewrite finals_app, posts_app, Hf1, Hp1, Hp2. simpl.
      split; [now rewrite Ht2, Ht1, app_assoc|]. split; [|split].
      * intros p Hin Hb. split; [reflexivity|]. exists e. auto.
      * intros payload [].
      * intros j Hj. discriminate.
    + inversion Hrun; subst. congruence.
  - inversion Hrun; subst. exists evs1. rewrite Hf1, Hp1.
    split; [exact Ht1|]. split; [intros p []|]. split; [intros p []|].
    intros j Hj. discriminate.
  - inversion Hrun; subst. congruence.
Qed.

(** With enough fuel the chain ends: the retry loop after at most
    [maxRetries] retries, each poll within its time budget. *)
Lemma pollEach_ends opts tmo start n :
  steadyClock E ->
  1 <= orElse (intervalMs opts) (pollIntervalMs config) ->
  orElse (timeoutMs opts) (pollTimeoutMs config) < Z.of_nat n ->
  forall ids acc w, fst (pollEach E config (S n) opts tmo start ids acc w) <> Starved.
Proof.
  intros Hclock Hiv Hfuel. induction ids as [|id rest IH]; intros acc w.
  - discriminate.
  - rewrite pollEach_step.
    destruct (tmo - (now w - start) <=? 0); [discriminate|].
    rewrite pollUntilProcessed_unfold. cbn [intervalMs timeoutMs orElse].
    pose proof (pollLoop_ends E id (orElse (intervalMs opts) (pollIntervalMs config))
                  (Z.min (tmo - (now w - start)) (orElse (timeoutMs opts) (pollTimeoutMs config)))
                  (now w) Hclock Hiv n w ltac:(lia)) as Hend.
    destruct (pollLoop E (S n) id _ _ (now w) w) as [[st|e|] w1]; simpl in Hend;
      [|discriminate|congruence].
    destruct (usable st); [apply IH|discriminate].
Qed.

Lemma chain_ends a w n :
  steadyClock E ->
  1 <= orElse (intervalMs (f_pollOptions a)) (pollIntervalMs config) ->
  0 <= maxRetries config ->
  orElse (timeoutMs (f_pollOptions a)) (pollTimeoutMs config) < Z.of_nat n ->
  maxRetries config < Z.of_nat n ->
  fst (submitPostWithFiles E config (S n) a w) <> Starved.
Proof.
  intros Hclock Hiv Hn Hfuel Hfuel'.
  destruct (f_files a) as [|f rest] eqn:Hfiles.
  { unfold submitPostWithFiles. rewrite Hfiles. apply submitPost_not_starved. }
  assert (Hne : f_files a <> []) by congruence.
  pose proof (permissionResolved_not_starved (f_replyPermission a)) as H1.
  pose proof (quoteResolved_not_starved (f_quotePostID a)) as H2.
  destruct (permissionResolved (f_replyPermission a)) as [rp|e|] eqn:Hrp; try congruence;
    [|rewrite (submitPostWithFiles_rejects E config (S n) a w e) by auto; discriminate].
  destruct (quoteResolved (f_quotePostID a)) as [qid|e|] eqn:Hq; try congruence;
    [|rewrite (submitPostWithFiles_rejects E config (S n) a w e) by eauto; discriminate].
  rewrite (submitPostWithFiles_unfold E config (S n) a w rp qid Hne Hrp Hq).
  rewrite uploadWithRetry_unfold. unfold retryAsync.
  destruct (retryLoop_attempts E (uploadFiles E (f_files a)) (maxRetries config) 300 (S n) 0 w)
    as [k [_ [_ [Hrun _]]]]; [lia|lia|].
  pose proof (uploadFiles_not_starved E (f_files a)
                (attemptAt E (uploadFiles E (f_files a)) 300 0 k w)) as Hup.
  rewrite Hrun.
  destruct (uploadFiles E (f_files a) _) as [[ids|e|] w1]; simpl in Hup;
    [|discriminate|congruence].
  pose proof (pollEach_ends (f_pollOptions a) (f_timeoutMs a) (now w1) n Hclock Hiv Hfuel
                ids [] w1) as Hpoll.
  destruct (pollEach E config (S n) _ _ _ ids [] w1) as [[srcs|e|] w2]; simpl in Hpoll;
    [|discriminate|congruence].
  apply submitPost_not_starved.
Qed.

End FailClosed.

(** C1.  Take any finished run of [submitPostWithFiles] on a non-empty file
    list, and read from the history it added the final (terminal) status of
    every upload whose polling came to an end and the posts that were sent.
    If one of those statuses is not PROCESSED, or is PROCESSED without a
    truthy [src], then no post was sent and the call threw an error whose
    [statusObj] is that status.  Every post that was sent has as medias the
    [src] of those statuses, in order, all of them PROCESSED with a [src].
    When the call returned, exactly one post was sent, with those medias, and
    the statuses are those of the ids the upload step returned, in that
    order.  Such runs exist: with timers of at least a millisecond, a clock
    that does not run backwards and a retry count that is not negative, the
    call ends when given enough fuel. *)
Theorem post_only_processed (E : Env) (config : Config) (a : PostWithFilesArgs) (w : World) :
  f_files a <> [] ->
  (forall fuel r w',
     submitPostWithFiles E config fuel a w = (r, w') -> r <> Starved ->
     exists evs,
       trace w' = (trace w ++ evs)%list
       /\ (forall p, In p (finals evs) -> usable (snd p) = false ->
           posts evs = [] /\ exists e, r = Throw e /\ statusObj e = Some (snd p))
       /\ (forall payload, In payload (posts evs) ->
           p_medias payload = map (fun p => src (snd p)) (finals evs)
           /\ Forall (fun p => usable (snd p) = true) (finals evs))
       /\ (forall j, r = Ret j ->
           exists payload,
             posts evs = [payload]
             /\ p_medias payload = map (fun p => src (snd p)) (finals evs)
             /\ forall ids w1,
                  uploadWithRetry E config fuel (f_files a) w = (Ret ids, w1) ->
                  map fst (finals evs) = ids))
  /\ (steadyClock E ->
      1 <= orElse (intervalMs (f_pollOptions a)) (pollIntervalMs config) ->
      0 <= maxRetries config ->
      exists fuel, fst (submitPostWithFiles E config fuel a w) <> Starved).
Proof.
  intros Hne. split.
  - intros fuel r w' Hrun Hr. now apply (chain_seen E config fuel a w r w').
  - intros Hclock Hiv Hn.
    exists (S (Z.to_nat (Z.max (orElse (timeoutMs (f_pollOptions a)) (pollTimeoutMs config))
                               (maxRetries config) + 1))).
    apply chain_ends; auto; lia.
Qed.

Lemma post_only_processed_witness :
  Scenario.post [Scenario.oneBuffer; Scenario.oneBuffer] <> Scenario.post []
  /\ fst (submitPostWithFiles Scenario.spoiled DEFAULTS 3
            (Scenario.post [Scenario.oneBuffer; Scenario.oneBuffer]) Scenario.w0)
     = Throw (terminalState "U2" Scenario.deleted)
  /\ exists evs,
       trace (snd (submitPostWithFiles Scenario.spoiled DEFAULTS 3
                     (Scenario.post [Scenario.oneBuffer; Scenario.oneBuffer]) Scenario.w0))
       = (trace Scenario.w0 ++ evs)%list
       /\ (forall p, In p (finals evs) -> usable (snd p) = false ->
           posts evs = []
           /\ exists e, @Throw Json (terminalState "U2" Scenario.deleted) = Throw e
                        /\ statusObj e = Some (snd p))
       /\ (forall payload, In payload (posts evs) ->
           p_medias payload = map (fun p => src (snd p)) (finals evs)
           /\ Forall (fun p => usable (snd p) = true) (finals evs))
       /\ (forall j, @Throw Json (terminalState "U2" Scenario.deleted) = Ret j ->
           exists payload,
             posts evs = [payload]
             /\ p_medias payload = map (fun p => src (snd p)) (finals evs)
             /\ forall ids w1,
                  uploadWithRetry Scenario.spoiled DEFAULTS 3
                    (f_files (Scenario.post [Scenario.oneBuffer; Scenario.oneBuffer])) Scenario.w0
                  = (Ret ids, w1) ->
                  map fst (finals evs) = ids).
Proof.
  split; [discriminate|]. split; [reflexivity|].
  exact (proj1 (post_only_processed Scenario.spoiled DEFAULTS
                  (Scenario.post [Scenario.oneBuffer; Scenario.oneBuffer]) Scenario.w0
                  ltac:(discriminate))
               3%nat (Throw (terminalState "U2" Scenario.deleted)) _ eq_refl ltac:(discriminate)).
Defined.

(* ================================================================== *)
(** * Creating a client: key and configuration *)

Lemma normalizeApiKey_bearer_aux (s : string) :
  normalizeApiKey None = None
  /\ normalizeApiKey (Some EmptyString) = None
  /\ (s <> EmptyString ->
      exists r, normalizeApiKey (Some s) = Some r /\ prefix "Bearer " r = true).
Proof.
  split; [reflexivity|]. split; [reflexivity|].
  intros Hs. unfold normalizeApiKey.
  destruct (s =? EmptyString)%string eqn:He; [apply String.eqb_eq in He; congruence|].
  destruct (prefix "Bearer " s) eqn:Hp.
  - exists s. auto.
  - exists ("Bearer " ++ s). split; [reflexivity|]. simpl. destruct s; reflexivity.
Qed.

(** X1.  [normalizeApiKey] gives null for a missing or empty key.  For every
    other key the result starts with the bearer scheme, is the key itself
    when the key already starts with it and the key behind the scheme
    otherwise, and normalising the result again changes nothing. *)
Theorem normalizeApiKey_bearer (s : string) :
  normalizeApiKey None = None
  /\ normalizeApiKey (Some EmptyString) = None
  /\ (s <> EmptyString ->
      exists r,
        normalizeApiKey (Some s) = Some r
        /\ prefix "Bearer " r = true
        /\ (prefix "Bearer " s = true -> r = s)
        /\ (prefix "Bearer " s = false -> r = "Bearer " ++ s)
        /\ normalizeApiKey (Some r) = Some r).
Proof.
  split; [reflexivity|]. split; [reflexivity|].
  intros Hs. unfold normalizeApiKey.
  destruct (s =? EmptyString)%string eqn:He; [apply String.eqb_eq in He; congruence|].
  destruct (prefix "Bearer " s) eqn:Hp.
  - exists s. rewrite He, Hp. repeat split; auto. discriminate.
  - exists ("Bearer " ++ s). repeat split; auto.
    + simpl. destruct s; reflexivity.
    + discriminate.
    + simpl. destruct s; reflexivity.
Qed.

Lemma normalizeApiKey_bearer_witness :
  "abc" <> EmptyString
  /\ exists r,
       normalizeApiKey (Some "abc") = Some r
       /\ prefix "Bearer " r = true
       /\ (prefix "Bearer " "abc" = true -> r = "abc")
       /\ (prefix "Bearer " "abc" = false -> r = "Bearer " ++ "abc")
       /\ normalizeApiKey (Some r) = Some r.
Proof.
  assert (H : "abc" <> EmptyString) by discriminate.
  split; [exact H|].
  exact (proj2 (proj2 (normalizeApiKey_bearer "abc")) H).
Defined.

(** X2.  [createClient] throws exactly when the key is missing or empty or
    the host has no [FormData] or no [Blob]; a bad key is reported first.
    A client that is created holds the caller's key, an authorization header
    that starts with the bearer scheme, and for every setting the option the
    caller gave, the default otherwise. *)
Theorem createClient_requirements (h : Host) (opts : Options) :
  ((exists e, createClient h opts = Throw e) <->
   (o_apiKey opts = None \/ o_apiKey opts = Some EmptyString
    \/ hasFormData h = false \/ hasBlob h = false))
  /\ (o_apiKey opts = None \/ o_apiKey opts = Some EmptyString ->
      createClient h opts = Throw (newError "apiKey is required to create BoodiBox client"))
  /\ (forall c, createClient h opts = Ret c ->
      o_apiKey opts = Some (apiKey c)
      /\ (exists a, authHeader c = Some a /\ prefix "Bearer " a = true)
      /\ pollIntervalMs (settings c) = spread (o_pollIntervalMs opts) 1000
      /\ pollTimeoutMs (settings c) = spread (o_pollTimeoutMs opts) 30000
      /\ maxRetries (settings c) = spread (o_maxRetries opts) 3
      /\ baseUrl c = spread (o_baseUrl opts) (strOr (BASE_URL h) "https://boodibox.com")
      /\ uploadPath c = spread (o_uploadPath opts) "/api/v1/uploads"
      /\ postsPath c = spread (o_postsPath opts) "/api/v1/posts").
Proof.
  unfold createClient, ensureFormDataSupport. split; [|split].
  - destruct (o_apiKey opts) as [key|]; [|split; eauto].
    destruct (key =? EmptyString)%string eqn:He.
    + apply String.eqb_eq in He. subst. split; eauto.
    + apply String.eqb_neq in He.
      destruct (hasFormData h), (hasBlob h); simpl; split;
        try (intros _; eauto; fail); try (intros [e H]; discriminate H);
        try (intros _; auto; fail).
      intros [H|[H|[H|H]]]; try discriminate. inversion H. congruence.
  - intros [H|H]; rewrite H; reflexivity.
  - intros c. destruct (o_apiKey opts) as [key|]; [|discriminate].
    destruct (key =? EmptyString)%string eqn:He; [discriminate|].
    apply String.eqb_neq in He.
    destruct (negb (hasFormData h) || negb (hasBlob h)); [discriminate|].
    intros Hc. inversion Hc; subst c. cbn [apiKey authHeader settings uploadPath postsPath baseUrl
                                            pollIntervalMs pollTimeoutMs maxRetries DEFAULTS].
    repeat split.
    destruct (proj2 (proj2 (normalizeApiKey_bearer_aux key)) He) as [a [Ha Hp]].
    exists a. auto.
Qed.

Lemma createClient_requirements_witness :
  createClient Cases.node (Cases.keyOnly "k") =
    Ret (mkClient "https://boodibox.com" "/api/v1/uploads" "/api/v1/posts" DEFAULTS "k"
                  (Some "Bearer k"))
  /\ maxRetries DEFAULTS = spread (o_maxRetries (Cases.keyOnly "k")) 3.
Proof.
  split; [reflexivity|].
  exact (proj1 (proj2 (proj2 (proj2 (proj2
           (proj2 (proj2 (createClient_requirements Cases.node (Cases.keyOnly "k")))
                  _ eq_refl)))))).
Defined.

(* ================================================================== *)
(** * Content types and normal forms *)

Lemma lower_lower_char c : lowerChar (lowerChar c) = lowerChar c.
Proof. destruct c as [[] [] [] [] [] [] [] []]; reflexivity. Qed.

Lemma lowerChar_dot c : Ascii.eqb (lowerChar c) "." = Ascii.eqb c ".".
Proof. destruct c as [[] [] [] [] [] [] [] []]; reflexivity. Qed.

Lemma upperChar_dot c : Ascii.eqb (upperChar c) "." = Ascii.eqb c ".".
Proof. destruct c as [[] [] [] [] [] [] [] []]; reflexivity. Qed.

Lemma mapChars_app f s t : mapChars f (s ++ t) = mapChars f s ++ mapChars f t.
Proof. induction s as [|c r IH]; simpl; [reflexivity|]. now rewrite IH. Qed.

Lemma toLower_idem s : toLowerCase (toLowerCase s) = toLowerCase s.
Proof.
  unfold toLowerCase. induction s as [|c r IH]; simpl; [reflexivity|].
  now rewrite lower_lower_char, IH.
Qed.

(** Taking the last segment commutes with a case mapping, which leaves the
    dot alone. *)
Lemma lastSegment_mapChars f :
  (forall c, Ascii.eqb (f c) "." = Ascii.eqb c ".") ->
  forall s acc,
    lastSegment "." (mapChars f s) (mapChars f acc) = mapChars f (lastSegment "." s acc).
Proof.
  intros Hf. induction s as [|c r IH]; intros acc; simpl; [reflexivity|].
  rewrite Hf. destruct (Ascii.eqb c ".").
  - apply (IH EmptyString).
  - rewrite <- IH, mapChars_app. reflexivity.
Qed.

Lemma popSplit_lower s : popSplit "." (toLowerCase s) = toLowerCase (popSplit "." s).
Proof.
  unfold popSplit, toLowerCase.
  exact (lastSegment_mapChars lowerChar lowerChar_dot s EmptyString).
Qed.

Lemma popSplit_upper s : popSplit "." (upperAscii s) = upperAscii (popSplit "." s).
Proof.
  unfold popSplit, upperAscii.
  exact (lastSegment_mapChars upperChar upperChar_dot s EmptyString).
Qed.

Lemma mapChars_empty f s : (mapChars f s =? EmptyString)%string = (s =? EmptyString)%string.
Proof. destruct s; reflexivity. Qed.

Lemma lastSegment_no_dot ext : forall acc,
  allChars (fun c => negb (Ascii.eqb c ".")) ext = true ->
  lastSegment "." ext acc = acc ++ ext.
Proof.
  induction ext as [|c r IH]; intros acc H; simpl.
  - induction acc as [|a acc' IHa]; simpl; congruence.
  - simpl in H. apply andb_true_iff in H as [Hc Hr].
    apply negb_true_iff in Hc. rewrite Hc, IH by exact Hr.
    induction acc as [|a acc' IHa]; simpl; [reflexivity|]. now rewrite IHa.
Qed.

Lemma lastSegment_after_dot stem ext : forall acc,
  lastSegment "." (stem ++ String "." ext) acc = lastSegment "." ext EmptyString.
Proof.
  induction stem as [|c r IH]; intros acc; simpl; [reflexivity|].
  destruct (Ascii.eqb c "."); apply IH.
Qed.

(** X3.  The content type is guessed from the text after the last dot of the
    name and from nothing else: the case of the name does not matter, what
    stands before the last dot does not matter, and a name without a dot is
    taken whole as its extension.  The guess is one of the four image types
    or nothing. *)
Theorem guessContentType_by_extension (nm : string) :
  guessContentTypeFromFilename (toLowerCase nm) = guessContentTypeFromFilename nm
  /\ guessContentTypeFromFilename (upperAscii nm) = guessContentTypeFromFilename nm
  /\ (forall stem,
        allChars (fun c => negb (Ascii.eqb c ".")) nm = true ->
        guessContentTypeFromFilename (stem ++ String "." nm) = guessContentTypeFromFilename nm)
  /\ (forall t, guessContentTypeFromFilename nm = Some t ->
        t = "image/jpeg" \/ t = "image/png" \/ t = "image/webp" \/ t = "image/gif").
Proof.
  unfold guessContentTypeFromFilename. split; [|split; [|split]].
  - rewrite popSplit_lower, toLower_idem.
    unfold toLowerCase at 1. now rewrite mapChars_empty.
  - rewrite popSplit_upper, toLower_upperAscii.
    unfold upperAscii at 1. now rewrite mapChars_empty.
  - intros stem Hnm. unfold popSplit. rewrite lastSegment_after_dot.
    replace ((stem ++ String "." nm =? EmptyString)%string) with false
      by (destruct stem; reflexivity).
    destruct nm as [|c r]; [reflexivity|]. reflexivity.
  - intros t.
    destruct (nm =? EmptyString)%string; [discriminate|].
    repeat match goal with
           | |- context [if ?b then _ else _] => destruct b
           end; intros H; inversion H; auto.
Qed.

Lemma guessContentType_by_extension_witness :
  allChars (fun c => negb (Ascii.eqb c ".")) "PnG" = true
  /\ guessContentTypeFromFilename ("holiday.2024" ++ String "." "PnG")
     = guessContentTypeFromFilename "PnG"
  /\ guessContentTypeFromFilename "PnG" = Some "image/png".
Proof.
  split; [reflexivity|]. split; [|reflexivity].
  exact (proj1 (proj2 (proj2 (guessContentType_by_extension "PnG"))) "holiday.2024" eq_refl).
Defined.

Lemma alnum_not_space c : isAlnum c = true -> isSpace c = false.
Proof. destruct c as [[] [] [] [] [] [] [] []]; vm_compute; congruence. Qed.

Lemma lower_or_digit_alnum c : isLower c || isDigit c = true -> isAlnum c = true.
Proof. destruct c as [[] [] [] [] [] [] [] []]; vm_compute; congruence. Qed.

Lemma letter_alnum c : isLetter c = true -> isAlnum c = true.
Proof. unfold isAlnum. intros ->. reflexivity. Qed.

Lemma alnum_ascii c : isAlnum c = true -> isAscii c = true.
Proof. destruct c as [[] [] [] [] [] [] [] []]; vm_compute; congruence. Qed.

Lemma trimEnd_no_space s : allChars isAlnum s = true -> trimEnd s = s.
Proof.
  induction s as [|c r IH]; [reflexivity|].
  cbn [allChars]. intros H. apply andb_true_iff in H as [Hc Hr].
  rewrite (trimEnd_kept c r (alnum_ascii c Hc) (alnum_not_space c Hc)).
  now rewrite (IH Hr).
Qed.

Lemma trim_alnum s : allChars isAlnum s = true -> trim s = s.
Proof.
  intros H. unfold trim.
  assert (Hs : trimStart s = s).
  { destruct s as [|c r]; [reflexivity|]. cbn [allChars] in H.
    apply andb_true_iff in H as [Hc _].
    exact (trimStart_kept c r (alnum_ascii c Hc) (alnum_not_space c Hc)). }
  rewrite Hs. now apply trimEnd_no_space.
Qed.

Lemma allChars_weaken (p q : ascii -> bool) s :
  (forall c, p c = true -> q c = true) -> allChars p s = true -> allChars q s = true.
Proof.
  intros Hpq. induction s as [|c r IH]; simpl; [reflexivity|].
  intros H. apply andb_true_iff in H as [Hc Hr].
  apply andb_true_iff. auto.
Qed.

(** The lower-cased form of an accepted text is accepted and is its own
    lower-cased form. *)
Lemma validateQuotePostID_lowered t :
  CUID2_REGEX_test t = true ->
  validateQuotePostID (VStr (toLowerCase t)) = Ret (VStr (toLowerCase t)).
Proof.
  destruct t as [|c r]; [discriminate|]. unfold CUID2_REGEX_test.
  intros H. rewrite !andb_true_iff in H. destruct H as [[[Hc Hr] Hlo] Hhi].
  assert (Hr' : allChars isAlnum (toLowerCase r) = true)
    by (apply (allChars_weaken _ _ _ lower_or_digit_alnum), toLower_all_lower, Hr).
  assert (Hc' : isLetter (lowerChar c) = true) by now apply lowerChar_letter.
  assert (Hal : allChars isAlnum (toLowerCase (String c r)) = true).
  { unfold toLowerCase. cbn [mapChars allChars]. rewrite (letter_alnum _ Hc'). exact Hr'. }
  unfold validateQuotePostID. cbn [nullish ToString].
  rewrite (trim_alnum _ Hal), toLower_idem.
  assert (Ht : CUID2_REGEX_test (toLowerCase (String c r)) = true).
  { unfold toLowerCase. cbn [mapChars]. unfold CUID2_REGEX_test.
    rewrite Hc'. change (mapChars lowerChar r) with (toLowerCase r). rewrite Hr'.
    unfold toLowerCase. rewrite mapChars_length. cbn [andb].
    apply andb_true_iff. split; assumption. }
  now rewrite Ht.
Qed.

Lemma validateReplyPermission_values rp v :
  rp <> VUndefined -> validateReplyPermission rp = Ret v ->
  v = VStr "PUBLIC" \/ v = VStr "PRIVATE".
Proof.
  intros Hd. unfold validateReplyPermission.
  destruct rp as [| |b|n|s]; try congruence; try discriminate;
    (match goal with
     | |- context [if ?c then Throw (newError replyPermissionEmptyMsg) else _] => destruct c
     end; [discriminate|]);
    cbv zeta;
    match goal with
    | |- context [REPLY_PERMISSIONS_has ?u] =>
        remember u as up eqn:Hup; destruct (REPLY_PERMISSIONS_has up) eqn:Hh
    end; cbn [negb]; try discriminate;
    apply has_iff in Hh; intros H; injection H as <-; destruct Hh as [Hh|Hh]; rewrite Hh; auto.
Qed.

Lemma permissionResolved_values rp v :
  permissionResolved rp = Ret v -> v = VStr "PUBLIC" \/ v = VStr "PRIVATE".
Proof.
  destruct rp as [| |b|n|s];
    try (apply validateReplyPermission_values; discriminate).
  intros H. inversion H. auto.
Qed.

Lemma quoteResolved_values id v :
  quoteResolved id = Ret v ->
  v = VNull \/ exists s, v = VStr s /\ lowerCuidShape s = true.
Proof.
  unfold quoteResolved, validateQuotePostID.
  destruct (nullish id); [intros H; inversion H; auto|].
  destruct (CUID2_REGEX_test _) eqn:Ht; [|discriminate].
  simpl. intros H. inversion H. right. eexists. split; [reflexivity|].
  apply toLower_shape, CUID2_REGEX_test_iff, Ht.
Qed.

(** X4.  Both validators return normal forms.  A reply permission that is
    supplied and accepted comes back as PUBLIC or PRIVATE, and validating
    that result returns it unchanged.  A quote id that is not null and is
    accepted comes back as a letter followed by lower-case letters and
    digits, 24 to 32 characters in all, and validating that result returns
    it unchanged. *)
Theorem validators_return_normal_forms :
  (forall rp v,
     rp <> VUndefined -> validateReplyPermission rp = Ret v ->
     (v = VStr "PUBLIC" \/ v = VStr "PRIVATE") /\ validateReplyPermission v = Ret v)
  /\ (forall id v,
        nullish id = false -> validateQuotePostID id = Ret v ->
        (exists s, v = VStr s /\ lowerCuidShape s = true) /\ validateQuotePostID v = Ret v).
Proof.
  split.
  - intros rp v Hdef Hv.
    destruct (validateReplyPermission_values rp v Hdef Hv) as [Hp|Hp]; rewrite Hp; auto.
  - intros id v Hn Hv.
    assert (Hq : quoteResolved id = Ret v) by (unfold quoteResolved; now rewrite Hn).
    destruct (quoteResolved_values id v Hq) as [->|[s [-> Hs]]].
    + unfold validateQuotePostID in Hv. rewrite Hn in Hv.
      destruct (negb _); discriminate.
    + split; [eauto|].
      unfold validateQuotePostID in Hv. rewrite Hn in Hv.
      destruct (CUID2_REGEX_test (trim (ToString id))) eqn:Ht; [|discriminate].
      simpl in Hv. inversion Hv. now apply validateQuotePostID_lowered.
Qed.

Lemma validators_return_normal_forms_witness :
  VStr " Private" <> VUndefined
  /\ validateReplyPermission (VStr "private") = Ret (VStr "PRIVATE")
  /\ validateReplyPermission (VStr "PRIVATE") = Ret (VStr "PRIVATE").
Proof.
  split; [discriminate|]. split; [reflexivity|].
  exact (proj2 (proj1 validators_return_normal_forms (VStr "private") (VStr "PRIVATE")
                  ltac:(discriminate) eq_refl)).
Defined.

(* ================================================================== *)
(** * One exchange *)

(** What [getUploadStatus] does once its URL is built. *)
Lemma getUploadStatus_cases (E : Env) (id : string) (w : World) :
  let rp := net E (trace w) (ReqStatus id) in
  let run := getUploadStatus E id w in
  trace (snd run) = (trace w ++ [EvFetch (ReqStatus id) rp])%list
  /\ (failed run <->
      15000 < elapsed rp
      \/ (elapsed rp <= 15000
          /\ ((exists msg, settled rp = Rejected msg)
              \/ exists r, settled rp = Responded r /\ resp_status r <> 404
                           /\ (ok r = false \/ parsed r = None))))
  /\ (forall r, elapsed rp <= 15000 -> settled rp = Responded r ->
      (resp_status r = 404 -> fst run = Ret missingObj)
      /\ (resp_status r <> 404 -> ok r = false ->
          fst run = Throw (statusFetchFailed r)
          /\ err_status (statusFetchFailed r) = Some (resp_status r)
          /\ err_body (statusFetchFailed r) = Some (parsed r))
      /\ (forall j, ok r = true -> parsed r = Some j -> fst run = Ret j)).
Proof.
  intros rp run. subst run. split; [apply getUploadStatus_trace|].
  unfold failed. rewrite getUploadStatus_run. fold rp. cbn [fst]. unfold statusOf.
  destruct (15000 <? elapsed rp) eqn:Hlate.
  - apply Z.ltb_lt in Hlate. split; [split; eauto|]. intros r Hl. lia.
  - apply Z.ltb_ge in Hlate. split.
    + split.
      * intros [e He]. right. split; [exact Hlate|].
        destruct (settled rp) as [r|msg]; [right|left; eauto].
        exists r. split; [reflexivity|].
        destruct (resp_status r =? 404) eqn:H404; [discriminate|].
        apply Z.eqb_neq in H404. split; [exact H404|].
        destruct (ok r); [|auto]. simpl in He.
        destruct (parsed r); [discriminate|auto].
      * intros [Hl|[_ [[msg Hm]|[r [Hr [H404 Hcase]]]]]]; [lia| |].
        -- rewrite Hm. eauto.
        -- rewrite Hr. apply Z.eqb_neq in H404. rewrite H404.
           destruct (ok r); simpl; [|eauto].
           destruct Hcase as [Hk|Hp]; [discriminate|]. rewrite Hp. eauto.
    + intros r _ Hr. rewrite Hr. split; [|split].
      * intros H404. apply Z.eqb_eq in H404. now rewrite H404.
      * intros H404 Hk. apply Z.eqb_neq in H404. rewrite H404, Hk. simpl. auto.
      * intros j Hk Hp.
        assert (H404 : (resp_status r =? 404) = false).
        { apply Z.eqb_neq. intros Heq. unfold ok in Hk. rewrite Heq in Hk. discriminate. }
        now rewrite H404, Hk, Hp.
Qed.

Lemma getUploadStatusCall_built U c E id w u :
  loneSurrogate id = false -> U (statusReference c id) (baseUrl c) = Some u ->
  getUploadStatusCall U c E id w = getUploadStatus E id w.
Proof.
  intros Hs Hu. unfold getUploadStatusCall, getUploadStatus, statusPath, newURL, lift.
  rewrite Hs. unfold bind at 1 2. now rewrite Hu.
Qed.

(** X6.  [getUploadStatus] builds its URL first: an id with a surrogate that
    has no partner makes [encodeURIComponent] throw, and a URL that [new URL]
    cannot build makes it throw, in both cases before any request.  Otherwise
    the call makes exactly one request, for the id it was given.  A 404 answer
    gives the missing sentinel whatever its body.  The call then throws
    exactly when the request gets no answer within 15 s, is rejected, is
    answered with a status outside 200..299 other than 404, or is answered
    2xx with a body that is not JSON; for the non-success status the error
    carries the status and the parsed body.  A 2xx answer with a JSON object
    as body gives that body unchanged. *)
Theorem getUploadStatus_outcomes (U : UrlParser) (c : Client) (E : Env) (id : string)
        (w : World) :
  let rp := net E (trace w) (ReqStatus id) in
  let run := getUploadStatusCall U c E id w in
  (loneSurrogate id = true -> run = (Throw uriMalformed, w))
  /\ (loneSurrogate id = false -> U (statusReference c id) (baseUrl c) = None ->
      run = (Throw invalidUrl, w))
  /\ (loneSurrogate id = false -> U (statusReference c id) (baseUrl c) <> None ->
      trace (snd run) = (trace w ++ [EvFetch (ReqStatus id) rp])%list
      /\ (failed run <->
          15000 < elapsed rp
          \/ (elapsed rp <= 15000
              /\ ((exists msg, settled rp = Rejected msg)
                  \/ exists r, settled rp = Responded r /\ resp_status r <> 404
                               /\ (ok r = false \/ parsed r = None))))
      /\ (forall r, elapsed rp <= 15000 -> settled rp = Responded r ->
          (resp_status r = 404 -> fst run = Ret missingObj)
          /\ (resp_status r <> 404 -> ok r = false ->
              fst run = Throw (statusFetchFailed r)
              /\ err_status (statusFetchFailed r) = Some (resp_status r)
              /\ err_body (statusFetchFailed r) = Some (parsed r))
          /\ (forall j, ok r = true -> parsed r = Some j -> fst run = Ret j)))
  /\ loneSurrogate Calls.halfPair = true.
Proof.
  intros rp run. subst run. split; [|split; [|split; [|reflexivity]]].
  - intros Hs. unfold getUploadStatusCall, statusPath, lift. unfold bind at 1.
    now rewrite Hs.
  - intros Hs Hu. unfold getUploadStatusCall, statusPath, newURL, lift.
    rewrite Hs. unfold bind at 1 2. now rewrite Hu.
  - intros Hs Hu. destruct (U (statusReference c id) (baseUrl c)) as [u|] eqn:Hu';
      [|congruence].
    rewrite (getUploadStatusCall_built U c E id w u Hs Hu').
    exact (getUploadStatus_cases E id w).
Qed.

Lemma getUploadStatus_outcomes_witness :
  loneSurrogate "U9" = false
  /\ Calls.resolving (statusReference Calls.client "U9") (baseUrl Calls.client) <> None
  /\ elapsed (net Scenario.lateKnown (trace Scenario.w0) (ReqStatus "U9")) <= 15000
  /\ fst (getUploadStatusCall Calls.resolving Calls.client Scenario.lateKnown "U9" Scenario.w0)
     = Ret missingObj.
Proof.
  assert (Hu : Calls.resolving (statusReference Calls.client "U9") (baseUrl Calls.client)
               <> None) by discriminate.
  assert (H : elapsed (net Scenario.lateKnown (trace Scenario.w0) (ReqStatus "U9")) <= 15000)
    by (simpl; lia).
  split; [reflexivity|]. split; [exact Hu|]. split; [exact H|].
  exact (proj1 (proj2 (proj2 (proj1 (proj2 (proj2
           (getUploadStatus_outcomes Calls.resolving Calls.client Scenario.lateKnown "U9"
              Scenario.w0))) eq_refl Hu))
           (mkResponse 404 EmptyString (Some emptyObj)) H eq_refl) eq_refl).
Defined.

(* ================================================================== *)
(** * More on polling *)

Lemma PollHistory_counts id interval evs :
  PollHistory id interval evs ->
  statusRequests evs = S (waits evs) /\ Forall pollEvent evs.
Proof.
  induction 1 as [rp|rp rest _ [IHn IHf]]; simpl.
  - split; [reflexivity|]. repeat constructor.
  - split; [now rewrite IHn|]. repeat constructor. exact IHf.
Qed.

Section PollingMore.

Variable E : Env.
Variable id : string.
Variables interval tmo start : Z.

(** A finished run is decided by its last query; the earlier ones all gave
    non-terminal answers. *)
Lemma pollLoop_verdict fuel : forall w r w',
  pollLoop E fuel id interval tmo start w = (r, w') -> r <> Starved ->
  exists evs pre last,
    trace w' = (trace w ++ evs)%list
    /\ PollHistory id interval evs
    /\ observed evs = (pre ++ [last])%list
    /\ Forall stillWaiting pre
    /\ match last with
       | Ret st => if isTerminal st then r = Ret st
                   else r = Throw (pollTimeout st) /\ now w' - start > tmo
       | Throw e => r = Throw e
       | Starved => False
       end.
Proof.
  induction fuel as [|k IH]; intros w r w' Hrun Hr.
  - simpl in Hrun. inversion Hrun; subst. congruence.
  - rewrite pollLoop_step in Hrun.
    pose proof (getUploadStatus_trace E id w) as Ht.
    rewrite getUploadStatus_run in Hrun, Ht. simpl in Ht.
    set (ev := EvFetch (ReqStatus id) (net E (trace w) (ReqStatus id))) in *.
    destruct (statusOf (net E (trace w) (ReqStatus id))) as [st|e|] eqn:Hst.
    + destruct (isTerminal st) eqn:Hterm.
      * inversion Hrun; subst. exists [ev], [], (Ret st).
        split; [exact Ht|]. split; [constructor|].
        simpl. rewrite Hst, Hterm. auto.
      * destruct (now _ - start >? tmo) eqn:Hlate.
        -- inversion Hrun; subst. exists [ev], [], (Ret st).
           split; [exact Ht|]. split; [constructor|].
           simpl. rewrite Hst, Hterm. repeat split; auto.
           apply Z.gtb_lt in Hlate. lia.
        -- destruct (IH _ _ _ Hrun Hr) as [evs [pre [last [Htr [Hph [Hobs [Hpre Hlast]]]]]]].
           exists (ev :: EvWait interval :: evs), (Ret st :: pre), last.
           split; [rewrite Htr; simpl; rewrite Ht, <- !app_assoc; reflexivity|].
           split; [now constructor|].
           simpl. rewrite Hst, Hobs. split; [reflexivity|]. split; [|exact Hlast].
           constructor; [|exact Hpre]. exists st. auto.
    + inversion Hrun; subst. exists [ev], [], (Throw e).
      split; [exact Ht|]. split; [constructor|].
      simpl. rewrite Hst. auto.
    + exfalso. now apply (statusOf_not_starved _ Hst).
Qed.


End PollingMore.







(* ================================================================== *)
(** * More on submitting *)

Section SubmitMore.

Variable E : Env.

(** With both validations passed, a submit is one exchange, read by
    [postOutcome]. *)
Lemma submitPost_run a w rp qid :
  permissionResolved (a_replyPermission a) = Ret rp ->
  quoteResolved (a_quotePostID a) = Ret qid ->
  let payload := mkPayload (a_body a) (a_medias a) rp qid (userIPField a) in
  submitPost E a w =
  (postOutcome (net E (trace w) (ReqPost payload)),
   snd (fetchWithTimeout E (ReqPost payload) 20000 w)).
Proof.
  intros Hrp Hq payload. rewrite submitPost_unfold, Hrp, Hq. fold payload.
  unfold postOutcome, bind, _doFetch, fetchWithTimeout.
  change (timerDelay 20000) with 20000.
  destruct (20000 <? elapsed (net E (trace w) (ReqPost payload))); [reflexivity|].
  destruct (settled (net E (trace w) (ReqPost payload))) as [r|msg]; [|reflexivity].
  simpl. destruct (negb (ok r)); [reflexivity|].
  unfold json. destruct (parsed r); reflexivity.
Qed.

(** What a [submitPost] adds to the history: nothing, or its one post. *)
Lemma submitPost_history a w :
  exists evs,
    trace (snd (submitPost E a w)) = (trace w ++ evs)%list
    /\ (evs = []
        \/ exists rp qid reply,
             permissionResolved (a_replyPermission a) = Ret rp
             /\ quoteResolved (a_quotePostID a) = Ret qid
             /\ evs = [EvFetch (ReqPost (mkPayload (a_body a) (a_medias a) rp qid
                                                   (userIPField a))) reply]).
Proof.
  pose proof (permissionResolved_not_starved (a_replyPermission a)) as H1.
  pose proof (quoteResolved_not_starved (a_quotePostID a)) as H2.
  destruct (permissionResolved (a_replyPermission a)) as [rp|e|] eqn:Hrp; try congruence.
  - destruct (quoteResolved (a_quotePostID a)) as [qid|e|] eqn:Hq; try congruence.
    + eexists. split; [apply (submitPost_sends E a w rp qid Hrp Hq)|].
      right. exists rp, qid. eauto.
    + exists []. rewrite (submitPost_rejects_quote E a w rp e Hrp Hq), app_nil_r. auto.
  - exists []. rewrite (submitPost_rejects_permission E a w e Hrp), app_nil_r. auto.
Qed.

End SubmitMore.

(* ================================================================== *)
(** * Time limits *)




(* ================================================================== *)
(** * Submitting, from the first line *)

(** What [submitPost] does once its URL is built. *)
Lemma submitPost_cases (E : Env) (a : PostArgs) (w : World) (rp qid : value) :
  permissionResolved (a_replyPermission a) = Ret rp ->
  quoteResolved (a_quotePostID a) = Ret qid ->
  let payload := mkPayload (a_body a) (a_medias a) rp qid (userIPField a) in
  let reply := net E (trace w) (ReqPost payload) in
  let run := submitPost E a w in
  trace (snd run) = (trace w ++ [EvFetch (ReqPost payload) reply])%list
  /\ (truthy (a_userIP a) = false -> p_userIP payload = None)
  /\ (truthy (a_userIP a) = true -> p_userIP payload = Some (a_userIP a))
  /\ (20000 < elapsed reply -> fst run = Throw (timedOut 20000))
  /\ (forall r, elapsed reply <= 20000 -> settled reply = Responded r ->
      (ok r = false ->
       fst run = Throw (submitFailed r)
       /\ err_status (submitFailed r) = Some (resp_status r)
       /\ err_body (submitFailed r) = Some (parsed r))
      /\ (forall j, ok r = true -> parsed r = Some j -> fst run = Ret j)).
Proof.
  intros Hrp Hq payload reply run. subst run.
  split; [exact (submitPost_sends E a w rp qid Hrp Hq)|].
  rewrite (submitPost_run E a w rp qid Hrp Hq). fold payload reply. cbn [fst].
  unfold payload at 1 2. cbn [p_userIP]. unfold userIPField, postOutcome.
  split; [intros ->; reflexivity|]. split; [intros ->; reflexivity|]. split.
  - intros Hlate. apply Z.ltb_lt in Hlate. now rewrite Hlate.
  - intros r Hl Hr.
    replace (20000 <? elapsed reply) with false by (symmetry; apply Z.ltb_ge; exact Hl).
    rewrite Hr. split.
    + intros Hk. rewrite Hk. simpl. auto.
    + intros j Hk Hp. now rewrite Hk, Hp.
Qed.

Lemma submitPostCall_built U c E a w u :
  U (postsPath c) (baseUrl c) = Some u ->
  submitPostCall U c E a w = submitPost E a w.
Proof.
  intros Hu. unfold submitPostCall, submitPost, newURL, lift, bind. rewrite Hu.
  destruct (match a_replyPermission a with
            | VUndefined => Ret (VStr "PUBLIC")
            | _ => validateReplyPermission (a_replyPermission a)
            end); reflexivity.
Qed.

Lemma submitPostCall_validates U c E a w :
  submitPostCall U c E a w =
  match permissionResolved (a_replyPermission a) with
  | Ret rp =>
      match quoteResolved (a_quotePostID a) with
      | Ret qid =>
          match U (postsPath c) (baseUrl c) with
          | Some _ => submitPost E a w
          | None => (Throw invalidUrl, w)
          end
      | Throw e => (Throw e, w)
      | Starved => (Starved, w)
      end
  | Throw e => (Throw e, w)
  | Starved => (Starved, w)
  end.
Proof.
  destruct (U (postsPath c) (baseUrl c)) as [u|] eqn:Hu.
  - rewrite (submitPostCall_built U c E a w u Hu), submitPost_unfold.
    destruct (permissionResolved (a_replyPermission a)) as [rp|e|] eqn:Hrp;
      [|reflexivity|reflexivity].
    destruct (quoteResolved (a_quotePostID a)) as [qid|e|] eqn:Hq; [|reflexivity|reflexivity].
    reflexivity.
  - unfold submitPostCall, permissionResolved, quoteResolved, newURL, lift, bind.
    rewrite Hu.
    destruct (a_replyPermission a); cbv iota beta;
      repeat match goal with
             | |- context [match ?x with Ret _ => _ | Throw _ => _ | Starved => _ end] =>
                 destruct x; cbv iota beta
             end; reflexivity.
Qed.

(** X10.  [submitPost] validates the reply permission and the quote id, then
    builds its URL, then sends: a value the validators reject makes it throw
    their error, and with acceptable values a URL that [new URL] cannot build
    makes it throw, in both cases before any request.  Otherwise it makes
    exactly one request, a post that carries the caller's body and medias
    unchanged and the [userIP] only when it is truthy.  An answer with a
    status outside 200..299 makes it throw an error that carries the status
    and the parsed body (null when the body does not parse); a 2xx answer with
    a JSON object as body is returned unchanged; no answer within 20 s makes
    it throw the timeout error. *)
Theorem submitPost_outcomes (U : UrlParser) (c : Client) (E : Env) (a : PostArgs)
        (w : World) :
  let run := submitPostCall U c E a w in
  (forall e, permissionResolved (a_replyPermission a) = Throw e -> run = (Throw e, w))
  /\ (forall rp e, permissionResolved (a_replyPermission a) = Ret rp ->
      quoteResolved (a_quotePostID a) = Throw e -> run = (Throw e, w))
  /\ (forall rp qid, permissionResolved (a_replyPermission a) = Ret rp ->
      quoteResolved (a_quotePostID a) = Ret qid ->
      (U (postsPath c) (baseUrl c) = None -> run = (Throw invalidUrl, w))
      /\ (U (postsPath c) (baseUrl c) <> None ->
          let payload := mkPayload (a_body a) (a_medias a) rp qid (userIPField a) in
          let reply := net E (trace w) (ReqPost payload) in
          trace (snd run) = (trace w ++ [EvFetch (ReqPost payload) reply])%list
          /\ (truthy (a_userIP a) = false -> p_userIP payload = None)
          /\ (truthy (a_userIP a) = true -> p_userIP payload = Some (a_userIP a))
          /\ (20000 < elapsed reply -> fst run = Throw (timedOut 20000))
          /\ (forall r, elapsed reply <= 20000 -> settled reply = Responded r ->
              (ok r = false ->
               fst run = Throw (submitFailed r)
               /\ err_status (submitFailed r) = Some (resp_status r)
               /\ err_body (submitFailed r) = Some (parsed r))
              /\ (forall j, ok r = true -> parsed r = Some j -> fst run = Ret j)))).
Proof.
  intros run. subst run. rewrite submitPostCall_validates.
  split; [|split].
  - intros e He. now rewrite He.
  - intros rp e Hrp He. now rewrite Hrp, He.
  - intros rp qid Hrp Hq. rewrite Hrp, Hq. split.
    + intros Hu. now rewrite Hu.
    + intros Hu. destruct (U (postsPath c) (baseUrl c)) as [u|]; [|congruence].
      exact (submitPost_cases E a w rp qid Hrp Hq).
Qed.

Lemma submitPost_outcomes_witness :
  permissionResolved (VStr "private") = Ret (VStr "PRIVATE")
  /\ quoteResolved VNull = Ret VNull
  /\ Calls.resolving (postsPath Calls.client) (baseUrl Calls.client) <> None
  /\ fst (submitPostCall Calls.resolving Calls.client Cases.broken
            (mkPostArgs "hi" [] (VStr "private") VNull VNull) Scenario.w0)
     = Throw (submitFailed (mkResponse 500 "Internal Server Error" (Some emptyObj))).
Proof.
  assert (Hu : Calls.resolving (postsPath Calls.client) (baseUrl Calls.client) <> None)
    by discriminate.
  split; [reflexivity|]. split; [reflexivity|]. split; [exact Hu|].
  exact (proj1 (proj1 (proj2 (proj2 (proj2 (proj2 (proj2 (proj2 (proj2
           (submitPost_outcomes Calls.resolving Calls.client Cases.broken
              (mkPostArgs "hi" [] (VStr "private") VNull VNull) Scenario.w0))
           (VStr "PRIVATE") VNull eq_refl eq_refl) Hu))))
           (mkResponse 500 "Internal Server Error" (Some emptyObj))
           ltac:(simpl; lia) eq_refl) eq_refl)).
Defined.

(** X11.  Validation comes before any effect, in [submitPost] and in
    [submitPostWithFiles] alike, whatever the file list: a rejected reply
    permission, or an accepted one with a rejected quote id, makes the call
    throw the validator's error in an untouched world, so nothing was
    uploaded, queried or posted.  When both are bad the error is the one of
    the reply permission. *)
Theorem validation_before_effects (E : Env) (config : Config) (fuel : nat)
        (a : PostWithFilesArgs) (medias : list value) (ip : value) (w : World) (e : Error) :
  let args := mkPostArgs (f_body a) medias (f_replyPermission a) (f_quotePostID a) ip in
  (permissionResolved (f_replyPermission a) = Throw e ->
   submitPostWithFiles E config fuel a w = (Throw e, w)
   /\ submitPost E args w = (Throw e, w))
  /\ (forall rp,
        permissionResolved (f_replyPermission a) = Ret rp ->
        quoteResolved (f_quotePostID a) = Throw e ->
        submitPostWithFiles E config fuel a w = (Throw e, w)
        /\ submitPost E args w = (Throw e, w)).
Proof.
  intros args. split.
  - intros H. split.
    + apply submitPostWithFiles_rejects. auto.
    + now apply submitPost_rejects_permission.
  - intros rp Hrp Hq. split.
    + apply submitPostWithFiles_rejects. eauto.
    + now apply (submitPost_rejects_quote E args w rp).
Qed.

Lemma validation_before_effects_witness :
  permissionResolved (VStr "friends") = Throw (newError replyPermissionInvalidMsg)
  /\ submitPostWithFiles Scenario.smooth DEFAULTS 0
       (mkPostWithFilesArgs "hi" [Scenario.oneBuffer] (VStr "friends") (VStr "nope")
                            (mkPollOptions None None) 120000) Scenario.w0
     = (Throw (newError replyPermissionInvalidMsg), Scenario.w0).
Proof.
  split; [reflexivity|].
  exact (proj1 (proj1 (validation_before_effects Scenario.smooth DEFAULTS 0
           (mkPostWithFilesArgs "hi" [Scenario.oneBuffer] (VStr "friends") (VStr "nope")
                                (mkPollOptions None None) 120000)
           [] VNull Scenario.w0 (newError replyPermissionInvalidMsg)) eq_refl)).
Defined.

(* ================================================================== *)
(** * The phases of the chain *)

Lemma Forall_uploadEvent_quiet evs :
  Forall uploadEvent evs -> posts evs = [] /\ statusRequests evs = 0%nat.
Proof.
  induction 1 as [|[rq rp|ms] rest Hx _ [IH1 IH2]]; simpl; auto.
  destruct rq; simpl in *; auto; contradiction.
Qed.

Lemma Forall_pollEvent_quiet evs :
  Forall pollEvent evs -> posts evs = [] /\ uploadRequests evs = 0%nat.
Proof.
  induction 1 as [|[rq rp|ms] rest Hx _ [IH1 IH2]]; simpl; auto.
  destruct rq; simpl in *; auto; contradiction.
Qed.

Section Phases.

Variable E : Env.
Variable config : Config.

Lemma retryLoop_upload_phase files n b fuel : forall i w,
  exists evs,
    trace (snd (retryLoop E fuel (uploadFiles E files) n b i w)) = (trace w ++ evs)%list
    /\ Forall uploadEvent evs.
Proof.
  induction fuel as [|k IH]; intros i w.
  - exists []. simpl. now rewrite app_nil_r.
  - rewrite retryLoop_step.
    assert (Hup : exists evs1,
               trace (snd (uploadFiles E files w)) = (trace w ++ evs1)%list
               /\ Forall uploadEvent evs1).
    { destruct (uploadFiles_trace E files w) as [Ht|[form [rp Ht]]].
      - exists []. rewrite app_nil_r. auto.
      - eexists. split; [exact Ht|]. repeat constructor. }
    destruct Hup as [evs1 [Ht1 Hf1]].
    destruct (uploadFiles E files w) as [[ids|e|] w1]; simpl in Ht1;
      try solve [exists evs1; split; [exact Ht1|exact Hf1]].
    destruct (i + 1 >? n); [exists evs1; auto|].
    destruct (IH (i + 1) (snd (wait E (b * (i + 1)) w1))) as [evs [Htr Hf]].
    exists (evs1 ++ EvWait (b * (i + 1)) :: evs)%list. split.
    + rewrite Htr. simpl. rewrite Ht1, <- !app_assoc. reflexivity.
    + apply Forall_app. split; [exact Hf1|]. constructor; [exact I|exact Hf].
Qed.

Lemma pollEach_poll_phase fuel opts tmo start ids : forall acc w r w',
  pollEach E config fuel opts tmo start ids acc w = (r, w') -> r <> Starved ->
  exists evs, trace w' = (trace w ++ evs)%list /\ Forall pollEvent evs.
Proof.
  induction ids as [|id rest IH]; intros acc w r w' Hrun Hr.
  - simpl in Hrun. inversion Hrun; subst. exists []. now rewrite app_nil_r.
  - rewrite pollEach_step in Hrun.
    destruct (tmo - (now w - start) <=? 0).
    { inversion Hrun; subst. exists []. now rewrite app_nil_r. }
    rewrite pollUntilProcessed_unfold in Hrun.
    destruct (pollLoop E fuel id _ _ (now w) w) as [[st|e|] w1] eqn:Hpoll.
    + destruct (pollLoop_verdict E id _ _ _ _ _ _ _ Hpoll ltac:(discriminate))
        as [evs1 [pre [last [Ht1 [Hph _]]]]].
      destruct (PollHistory_counts _ _ _ Hph) as [_ Hf1].
      destruct (usable st).
      * destruct (IH _ _ _ _ Hrun Hr) as [evs2 [Ht2 Hf2]].
        exists (evs1 ++ evs2)%list. split; [now rewrite Ht2, Ht1, app_assoc|].
        apply Forall_app. auto.
      * inversion Hrun; subst. exists evs1. auto.
    + inversion Hrun; subst.
      destruct (pollLoop_verdict E id _ _ _ _ _ _ _ Hpoll ltac:(discriminate))
        as [evs1 [pre [last [Ht1 [Hph _]]]]].
      destruct (PollHistory_counts _ _ _ Hph) as [_ Hf1].
      exists evs1. auto.
    + inversion Hrun; subst. congruence.
Qed.

(** The history of a finished chain: the upload step, then the polls, then
    at most the one post. *)
Lemma chain_phases fuel a w r w' :
  submitPostWithFiles E config fuel a w = (r, w') -> r <> Starved ->
  exists e1 e2 e3,
    trace w' = (trace w ++ e1 ++ e2 ++ e3)%list
    /\ Forall uploadEvent e1
    /\ Forall pollEvent e2
    /\ (f_files a = [] -> e1 = [] /\ e2 = [])
    /\ (e3 = []
        \/ exists srcs rp qid reply,
             permissionResolved (f_replyPermission a) = Ret rp
             /\ quoteResolved (f_quotePostID a) = Ret qid
             /\ e3 = [EvFetch (ReqPost (mkPayload (f_body a) srcs rp qid None)) reply]).
Proof.
  intros Hrun Hr.
  destruct (f_files a) as [|f rest] eqn:Hfiles.
  { unfold submitPostWithFiles in Hrun. rewrite Hfiles in Hrun.
    destruct (submitPost_history E (mkPostArgs (f_body a) [] (f_replyPermission a)
                                               (f_quotePostID a) VNull) w)
      as [evs [Ht Hevs]].
    rewrite Hrun in Ht. simpl in Ht.
    exists [], [], evs. repeat split; auto.
    destruct Hevs as [->|[rp [qid [reply [Hrp [Hq ->]]]]]]; [auto|].
    right. exists [], rp, qid, reply. auto. }
  assert (Hne : f_files a <> []) by congruence. rewrite <- Hfiles.
  assert (Hquiet : w' = w ->
            exists e1 e2 e3,
              trace w' = (trace w ++ e1 ++ e2 ++ e3)%list
              /\ Forall uploadEvent e1 /\ Forall pollEvent e2
              /\ (f_files a = [] -> e1 = [] /\ e2 = [])
              /\ (e3 = []
                  \/ exists srcs rp qid reply,
                       permissionResolved (f_replyPermission a) = Ret rp
                       /\ quoteResolved (f_quotePostID a) = Ret qid
                       /\ e3 = [EvFetch (ReqPost (mkPayload (f_body a) srcs rp qid None)) reply])).
  { intros ->. exists [], [], []. simpl. rewrite app_nil_r. repeat split; auto. }
  pose proof (permissionResolved_not_starved (f_replyPermission a)) as H1.
  pose proof (quoteResolved_not_starved (f_quotePostID a)) as H2.
  destruct (permissionResolved (f_replyPermission a)) as [rp|e|] eqn:Hrp; try congruence;
    [|rewrite (submitPostWithFiles_rejects E config fuel a w e) in Hrun by auto;
      inversion Hrun; subst; now apply Hquiet].
  destruct (quoteResolved (f_quotePostID a)) as [qid|e|] eqn:Hq; try congruence;
    [|rewrite (submitPostWithFiles_rejects E config fuel a w e) in Hrun by eauto;
      inversion Hrun; subst; now apply Hquiet].
  clear Hquiet.
  rewrite (submitPostWithFiles_unfold E config fuel a w rp qid Hne Hrp Hq) in Hrun.
  assert (Hup : exists e1,
             trace (snd (uploadWithRetry E config fuel (f_files a) w)) = (trace w ++ e1)%list
             /\ Forall uploadEvent e1).
  { rewrite uploadWithRetry_unfold. unfold retryAsync.
    destruct (retryLoop_upload_phase (f_files a) (maxRetries config) 300 fuel 0 w) as [e1 H].
    exists e1.
    destruct (retryLoop E fuel (uploadFiles E (f_files a)) (maxRetries config) 300 0 w)
      as [[ids|e|] w1]; exact H. }
  destruct Hup as [e1 [Ht1 Hf1]].
  destruct (uploadWithRetry E config fuel (f_files a) w) as [[ids|e|] w1] eqn:Hupl;
    simpl in Ht1.
  - destruct (pollEach E config fuel (f_pollOptions a) (f_timeoutMs a) (now w1) ids [] w1)
      as [[srcs|e|] w2] eqn:Hpoll.
    + destruct (pollEach_poll_phase _ _ _ _ _ _ _ _ _ Hpoll ltac:(discriminate))
        as [e2 [Ht2 Hf2]].
      set (args := mkPostArgs (f_body a) srcs (f_replyPermission a) (f_quotePostID a) VNull) in *.
      pose proof (submitPost_sends E args w2 rp qid Hrp Hq) as Hsend.
      unfold sends in Hsend. rewrite Hrun in Hsend. simpl in Hsend.
      eexists e1, e2, _. split; [rewrite Hsend, Ht2, Ht1, <- !app_assoc; reflexivity|].
      repeat split; auto; try congruence.
      right. exists srcs, rp, qid. eauto.
    + inversion Hrun; subst.
      destruct (pollEach_poll_phase _ _ _ _ _ _ _ _ _ Hpoll ltac:(discriminate))
        as [e2 [Ht2 Hf2]].
      exists e1, e2, []. rewrite app_nil_r. split; [now rewrite Ht2, Ht1, app_assoc|].
      repeat split; auto; congruence.
    + inversion Hrun; subst. congruence.
  - inversion Hrun; subst. exists e1, [], []. simpl. rewrite app_nil_r.
    repeat split; auto; congruence.
  - inversion Hrun; subst. congruence.
Qed.

End Phases.

(** X12.  Whatever a finished [submitPostWithFiles] posts is well formed:
    the call sends at most one post; its reply permission is PUBLIC or
    PRIVATE, its quote id is null or a letter followed by lower-case letters
    and digits (24 to 32 characters), its body is the caller's body, and it
    has no [userIP]. *)
Theorem posts_are_well_formed (E : Env) (config : Config) (fuel : nat)
        (a : PostWithFilesArgs) (w w' : World) (r : Outcome Json) :
  submitPostWithFiles E config fuel a w = (r, w') -> r <> Starved ->
  exists evs,
    trace w' = (trace w ++ evs)%list
    /\ (List.length (posts evs) <= 1)%nat
    /\ forall p, In p (posts evs) ->
                 wellFormed p /\ p_body p = f_body a /\ p_userIP p = None.
Proof.
  intros Hrun Hr.
  destruct (chain_phases E config fuel a w r w' Hrun Hr)
    as [e1 [e2 [e3 [Ht [Hf1 [Hf2 [_ He3]]]]]]].
  exists (e1 ++ e2 ++ e3)%list. split; [exact Ht|].
  rewrite !posts_app.
  rewrite (proj1 (Forall_uploadEvent_quiet e1 Hf1)), (proj1 (Forall_pollEvent_quiet e2 Hf2)).
  simpl.
  destruct He3 as [->|[srcs [rp [qid [reply [Hrp [Hq ->]]]]]]]; simpl.
  - split; [lia|]. intros p [].
  - split; [lia|]. intros p [<-|[]]. split; [|auto].
    split; simpl.
    + exact (permissionResolved_values _ _ Hrp).
    + exact (quoteResolved_values _ _ Hq).
Qed.

Lemma posts_are_well_formed_witness :
  exists evs,
    trace (snd (submitPostWithFiles Scenario.smooth DEFAULTS 3
                  (Scenario.post [Scenario.oneBuffer]) Scenario.w0))
    = (trace Scenario.w0 ++ evs)%list
    /\ (List.length (posts evs) <= 1)%nat
    /\ forall p, In p (posts evs) ->
                 wellFormed p /\ p_body p = "hello" /\ p_userIP p = None.
Proof.
  exact (posts_are_well_formed Scenario.smooth DEFAULTS 3
           (Scenario.post [Scenario.oneBuffer]) Scenario.w0 _ (Ret Scenario.accepted)
           eq_refl ltac:(discriminate)).
Defined.

(** X13.  The history a finished [submitPostWithFiles] adds falls into three
    stretches in this order: upload requests and waits, with no status query
    and no post among them; status queries and waits, with no upload request
    and no post among them; and at most one post, which is then the last
    event.  With an empty file list the first two stretches are empty. *)
Theorem chain_runs_in_phases (E : Env) (config : Config) (fuel : nat)
        (a : PostWithFilesArgs) (w w' : World) (r : Outcome Json) :
  submitPostWithFiles E config fuel a w = (r, w') -> r <> Starved ->
  exists e1 e2 e3,
    trace w' = (trace w ++ e1 ++ e2 ++ e3)%list
    /\ (Forall uploadEvent e1 /\ statusRequests e1 = 0%nat /\ posts e1 = [])
    /\ (Forall pollEvent e2 /\ uploadRequests e2 = 0%nat /\ posts e2 = [])
    /\ (e3 = [] \/ exists p reply, e3 = [EvFetch (ReqPost p) reply])
    /\ (f_files a = [] -> e1 = [] /\ e2 = []).
Proof.
  intros Hrun Hr.
  destruct (chain_phases E config fuel a w r w' Hrun Hr)
    as [e1 [e2 [e3 [Ht [Hf1 [Hf2 [Hemp He3]]]]]]].
  exists e1, e2, e3. split; [exact Ht|].
  destruct (Forall_uploadEvent_quiet e1 Hf1) as [Hp1 Hs1].
  destruct (Forall_pollEvent_quiet e2 Hf2) as [Hp2 Hu2].
  split; [auto|]. split; [auto|]. split; [|exact Hemp].
  destruct He3 as [->|[srcs [rp [qid [reply [_ [_ ->]]]]]]]; eauto.
Qed.

Lemma chain_runs_in_phases_witness :
  exists e1 e2 e3,
    trace (snd (submitPostWithFiles Scenario.flaky DEFAULTS 4
                  (Scenario.post [Scenario.oneBuffer]) Scenario.w0))
    = (trace Scenario.w0 ++ e1 ++ e2 ++ e3)%list
    /\ (Forall uploadEvent e1 /\ statusRequests e1 = 0%nat /\ posts e1 = [])
    /\ (Forall pollEvent e2 /\ uploadRequests e2 = 0%nat /\ posts e2 = [])
    /\ (e3 = [] \/ exists p reply, e3 = [EvFetch (ReqPost p) reply])
    /\ (f_files (Scenario.post [Scenario.oneBuffer]) = [] -> e1 = [] /\ e2 = []).
Proof.
  exact (chain_runs_in_phases Scenario.flaky DEFAULTS 4
           (Scenario.post [Scenario.oneBuffer]) Scenario.w0 _ (Ret Scenario.accepted)
           eq_refl ltac:(discriminate)).
Defined.

(* ================================================================== *)
(** * More on retrying *)

Lemma uploadFiles_forward E files : steadyClock E -> forward (uploadFiles E files).
Proof.
  intros [Hnet _] w.
  destruct files as [|f rest]; [simpl; lia|].
  destruct (buildForm E (f :: rest)) as [form|e|] eqn:Hb.
  - rewrite (uploadFiles_run E _ w form) by (congruence || exact Hb). simpl.
    rewrite fetch_now. specialize (Hnet (trace w) (ReqUpload form)).
    change (timerDelay 60000) with 60000.
    destruct (60000 <? elapsed (net E (trace w) (ReqUpload form))); lia.
  - rewrite (uploadFiles_form_error E _ w e) by (congruence || exact Hb). simpl. lia.
  - exfalso. now apply (buildForm_not_starved E (f :: rest)).
Qed.

Lemma attemptAt_clock {A} E (fn : M A) b :
  steadyClock E -> forward fn -> 0 <= b ->
  forall k w,
    b * Z.of_nat k * (Z.of_nat k + 1) <= 2 * (now (attemptAt E fn b 0 k w) - now w).
Proof.
  intros Hclock Hfn Hb. induction k as [|k IH]; intros w.
  - cbn [attemptAt]. change (Z.of_nat 0) with 0. lia.
  - cbn [attemptAt].
    set (wk := attemptAt E fn b 0 k w) in *.
    set (ms := b * (0 + Z.of_nat (S k))).
    pose proof (wait_clock E ms (snd (fn wk)) Hclock) as Hw.
    pose proof (Hfn wk) as Hf.
    specialize (IH w). fold wk in IH.
    assert (Hms : ms = b * Z.of_nat k + b) by (unfold ms; rewrite Nat2Z.inj_succ; ring).
    set (w2 := snd (wait E ms (snd (fn wk)))) in *.
    clearbody w2 ms wk. subst ms.
    rewrite Nat2Z.inj_succ. unfold Z.succ.
    replace (b * (Z.of_nat k + 1) * (Z.of_nat k + 1 + 1))
      with (b * Z.of_nat k * (Z.of_nat k + 1) + 2 * (b * Z.of_nat k + b)) by ring.
    lia.
Qed.

(** X14.  The upload step does not retry what succeeded, and does not retry
    at all when the retry count is zero or negative: if the first
    [uploadFiles] returns, the step returns the same in the same world, with
    no wait; with [maxRetries <= 0] the retried call is the one call of
    [uploadFiles], and its error is re-thrown wrapped at once. *)
Theorem upload_attempted_once (E : Env) (config : Config) (files : list FileInput)
        (fuel : nat) (w : World) :
  (forall ids w1,
     uploadFiles E files w = (Ret ids, w1) ->
     uploadWithRetry E config (S fuel) files w = (Ret ids, w1))
  /\ (maxRetries config <= 0 ->
      retryAsync E (S fuel) (uploadFiles E files) (maxRetries config) 300 w
      = uploadFiles E files w)
  /\ (maxRetries config <= 0 ->
      forall e w1,
        uploadFiles E files w = (Throw e, w1) ->
        uploadWithRetry E config (S fuel) files w
        = (Throw (newError ("Uploading files failed: " ++ message e)), w1)).
Proof.
  assert (Hzero : maxRetries config <= 0 ->
                  retryAsync E (S fuel) (uploadFiles E files) (maxRetries config) 300 w
                  = uploadFiles E files w).
  { intros Hn. unfold retryAsync. rewrite retryLoop_step.
    destruct (uploadFiles E files w) as [[ids|e|] w1]; try reflexivity.
    replace (0 + 1 >? maxRetries config) with true; [reflexivity|].
    symmetry. rewrite Z.gtb_ltb. apply Z.ltb_lt. lia. }
  split; [|split; [exact Hzero|]].
  - intros ids w1 Hup. rewrite uploadWithRetry_unfold. unfold retryAsync.
    now rewrite retryLoop_step, Hup.
  - intros Hn e w1 Hup. rewrite uploadWithRetry_unfold, (Hzero Hn), Hup. reflexivity.
Qed.

Lemma upload_attempted_once_witness :
  maxRetries (mkConfig 1000 30000 0) <= 0
  /\ uploadWithRetry Scenario.flaky (mkConfig 1000 30000 0) 1 [Scenario.oneBuffer] Scenario.w0
     = (Throw (newError ("Uploading files failed: "
                         ++ message (uploadFailed (mkResponse 503 EmptyString (Some emptyObj))))),
        snd (uploadFiles Scenario.flaky [Scenario.oneBuffer] Scenario.w0)).
Proof.
  assert (H : maxRetries (mkConfig 1000 30000 0) <= 0) by (simpl; lia).
  split; [exact H|].
  exact (proj2 (proj2 (upload_attempted_once Scenario.flaky (mkConfig 1000 30000 0)
                         [Scenario.oneBuffer] 0 Scenario.w0))
               H _ _ eq_refl).
Defined.

(** X15.  The waits of the upload step add up.  With a clock that does not
    run backwards, a retry count that is not negative and enough fuel, the
    retried upload ends with an attempt number [k + 1], [k <= maxRetries],
    that starts at least [150 * k * (k + 1)] ms after the call began (300 ms,
    900 ms, 1800 ms for the second, third, fourth attempt), and the call ends
    no earlier than that. *)
Theorem upload_backoff_adds_up (E : Env) (config : Config) (files : list FileInput)
        (fuel : nat) (w : World) :
  steadyClock E -> 0 <= maxRetries config -> (Z.to_nat (maxRetries config) < fuel)%nat ->
  let fn := uploadFiles E files in
  exists k,
    Z.of_nat k <= maxRetries config
    /\ retryAsync E fuel fn (maxRetries config) 300 w = fn (attemptAt E fn 300 0 k w)
    /\ 150 * Z.of_nat k * (Z.of_nat k + 1) <= now (attemptAt E fn 300 0 k w) - now w
    /\ now w + 150 * Z.of_nat k * (Z.of_nat k + 1)
       <= now (snd (retryAsync E fuel fn (maxRetries config) 300 w)).
Proof.
  intros Hclock Hn Hfuel fn. unfold retryAsync.
  destruct (retryLoop_attempts E fn (maxRetries config) 300 fuel 0 w)
    as [k [Hk [_ [Hrun _]]]]; [lia|rewrite Z.sub_0_r; exact Hfuel|].
  exists k.
  pose proof (attemptAt_clock E fn 300 Hclock (uploadFiles_forward E files Hclock)
                ltac:(lia) k w) as Hb.
  pose proof (uploadFiles_forward E files Hclock (attemptAt E fn 300 0 k w)) as Hf.
  fold fn in Hf. rewrite Hrun. repeat split; lia.
Qed.

Lemma upload_backoff_adds_up_witness :
  steadyClock Scenario.flaky /\ 0 <= maxRetries DEFAULTS
  /\ exists k,
       Z.of_nat k <= maxRetries DEFAULTS
       /\ retryAsync Scenario.flaky 4 (uploadFiles Scenario.flaky [Scenario.oneBuffer])
            (maxRetries DEFAULTS) 300 Scenario.w0
          = uploadFiles Scenario.flaky [Scenario.oneBuffer]
              (attemptAt Scenario.flaky (uploadFiles Scenario.flaky [Scenario.oneBuffer])
                         300 0 k Scenario.w0)
       /\ 150 * Z.of_nat k * (Z.of_nat k + 1)
          <= now (attemptAt Scenario.flaky (uploadFiles Scenario.flaky [Scenario.oneBuffer])
                            300 0 k Scenario.w0) - now Scenario.w0
       /\ now Scenario.w0 + 150 * Z.of_nat k * (Z.of_nat k + 1)
          <= now (snd (retryAsync Scenario.flaky 4
                         (uploadFiles Scenario.flaky [Scenario.oneBuffer])
                         (maxRetries DEFAULTS) 300 Scenario.w0)).
Proof.
  assert (Hc : steadyClock Scenario.flaky).
  { split.
    - intros h rq. destruct rq; simpl; try lia.
      destruct (uploadRequests h) as [|[|n]]; simpl; lia.
    - intros h ms. simpl. unfold Scenario.noLag. lia. }
  assert (Hn : 0 <= maxRetries DEFAULTS) by (simpl; lia).
  split; [exact Hc|]. split; [exact Hn|].
  exact (upload_backoff_adds_up Scenario.flaky DEFAULTS [Scenario.oneBuffer] 4 Scenario.w0
           Hc Hn ltac:(simpl; lia)).
Defined.

(* ================================================================== *)
(** * The multipart form *)

Lemma buildForm_parts E files : forall form,
  buildForm E files = Ret form <->
  Forall2 (fun f p => appendFile E f = Ret p) files form.
Proof.
  induction files as [|f rest IH]; intros form; simpl.
  - split.
    + intros H. inversion H. constructor.
    + intros H. inversion H. reflexivity.
  - split.
    + destruct (appendFile E f) as [p|e|] eqn:Hf; try discriminate.
      destruct (buildForm E rest) as [ps|e|] eqn:Hr; try discriminate.
      intros H. inversion H; subst. constructor; [exact Hf|]. now apply IH.
    + intros H. inversion H as [|f' p rest' ps Hf Hrest]; subst.
      rewrite Hf. apply IH in Hrest. now rewrite Hrest.
Qed.

(** A guessed type and the fallback type are kept as they are. *)
Lemma blobType_guess fname :
  blobType (match guessContentTypeFromFilename fname with
            | Some g => g
            | None => "application/octet-stream"
            end)
  = match guessContentTypeFromFilename fname with
    | Some g => g
    | None => "application/octet-stream"
    end.
Proof.
  unfold guessContentTypeFromFilename.
  repeat match goal with
         | |- context [if ?b then _ else _] => destruct b
         end; reflexivity.
Qed.

(** X16.  The form [uploadFiles] sends has one part for every file, in the
    order of the files.  For each item the first form that is present wins:
    a non-empty path is read from disk even when a buffer or a file is given
    too, a buffer is used even when a file is given too.  For path and buffer
    items a non-empty [filename] given by the caller is used as it is, and a
    non-empty [contentType] becomes the type of the part the way a [File]
    keeps a type: in lower case, and empty when it has a character outside
    U+0020 to U+007E; without a [contentType] the part has the type guessed
    from the name, or the fallback type, unchanged.  For a file item both are
    ignored and the part takes the type and the name of the file, its name
    being "file" when it has none. *)
Theorem form_follows_files (E : Env) (files : list FileInput) (form : list Part) (w : World) :
  files <> [] -> buildForm E files = Ret form ->
  Forall2 (fun f p => appendFile E f = Ret p) files form
  /\ List.length form = List.length files
  /\ trace (snd (uploadFiles E files w))
     = (trace w ++ [EvFetch (ReqUpload form) (net E (trace w) (ReqUpload form))])%list
  /\ (forall f p, appendFile E f = Ret p ->
      (forall pth, truthyPath f = Some pth -> disk E pth = Some (partData p))
      /\ (truthyPath f = None -> forall b, buffer f = Some b -> partData p = b)
      /\ (truthyPath f = None -> buffer f = None ->
          exists fo, file f = Some fo /\ partData p = fileData fo
                     /\ partType p = fileType fo
                     /\ partFilename p = strOr (Some (name fo)) "file")
      /\ (truthyPath f <> None \/ buffer f <> None ->
          (forall t, contentType f = Some t -> t <> EmptyString ->
                     partType p = blobType t)
          /\ (contentType f = None \/ contentType f = Some EmptyString ->
              partType p = match guessContentTypeFromFilename (partFilename p) with
                           | Some g => g
                           | None => "application/octet-stream"
                           end)
          /\ (forall n, filename f = Some n -> n <> EmptyString -> partFilename p = n)))
  /\ blobType "Image/PNG" = "image/png"
  /\ blobType (Calls.dotlessI ++ "mage/png") = EmptyString.
Proof.
  intros Hne Hb.
  assert (Hall : Forall2 (fun f p => appendFile E f = Ret p) files form)
    by now apply buildForm_parts.
  split; [exact Hall|]. split; [symmetry; exact (Forall2_length Hall)|].
  split; [rewrite (uploadFiles_run E files w form Hne Hb); apply fetch_trace|].
  split; [|split; reflexivity].
  intros f p. unfold appendFile.
  assert (Hty : forall t fname, contentType f = Some t -> t <> EmptyString ->
                                typeFor f fname = t).
  { intros t fname Ht Hnt. unfold typeFor. rewrite Ht.
    destruct (t =? EmptyString)%string eqn:He; [apply String.eqb_eq in He; congruence|].
    reflexivity. }
  assert (Hgs : forall fname, contentType f = None \/ contentType f = Some EmptyString ->
                  blobType (typeFor f fname)
                  = match guessContentTypeFromFilename fname with
                    | Some g => g
                    | None => "application/octet-stream"
                    end).
  { intros fname Hc. unfold typeFor.
    destruct Hc as [Hc|Hc]; rewrite Hc; cbn [String.eqb]; apply blobType_guess. }
  assert (Hnm : forall n d, filename f = Some n -> n <> EmptyString ->
                            strOr (filename f) d = n).
  { intros n d Hn Hnn. unfold strOr. rewrite Hn.
    destruct (n =? EmptyString)%string eqn:He; [apply String.eqb_eq in He; congruence|].
    reflexivity. }
  destruct (truthyPath f) as [pth|] eqn:Hp.
  - destruct (disk E pth) as [bytes|] eqn:Hd; [|discriminate].
    intros H. inversion H; subst p. cbn [partData partType partFilename].
    split; [intros pth' Heq; inversion Heq; subst; exact Hd|].
    split; [discriminate|]. split; [discriminate|].
    intros _. split; [intros t Ht Hnt; now rewrite (Hty t _ Ht Hnt)|].
    split; [intros Hc; now apply Hgs|intros n Hn Hnn; now apply Hnm].
  - destruct (buffer f) as [bytes|] eqn:Hbu.
    + intros H. inversion H; subst p. cbn [partData partType partFilename].
      split; [discriminate|].
      split; [intros _ b Heq; now inversion Heq|]. split; [discriminate|].
      intros _. split; [intros t Ht Hnt; now rewrite (Hty t _ Ht Hnt)|].
      split; [intros Hc; now apply Hgs|intros n Hn Hnn; now apply Hnm].
    + destruct (file f) as [fo|] eqn:Hfo; [|discriminate].
      intros H. inversion H; subst p. cbn [partData partType partFilename].
      split; [discriminate|]. split; [discriminate|].
      split; [intros _ _; exists fo; auto|].
      intros [Hc|Hc]; congruence.
Qed.

Lemma form_follows_files_witness :
  [Scenario.oneBuffer] <> []
  /\ trace (snd (uploadFiles Scenario.smooth [Scenario.oneBuffer] Scenario.w0))
     = (trace Scenario.w0
        ++ [EvFetch (ReqUpload [mkPart "a.png" "image/png" []])
                    (net Scenario.smooth (trace Scenario.w0)
                         (ReqUpload [mkPart "a.png" "image/png" []]))])%list.
Proof.
  assert (H : [Scenario.oneBuffer] <> []) by discriminate.
  split; [exact H|].
  exact (proj1 (proj2 (proj2 (form_follows_files Scenario.smooth [Scenario.oneBuffer]
                                [mkPart "a.png" "image/png" []] Scenario.w0 H eq_refl)))).
Defined.

(* ================================================================== *)
(** * The reference of a status request *)

Lemma hexDigit_safe c :
  unreserved (hexDigit (code c / 16)) = true /\ unreserved (hexDigit (code c mod 16)) = true.
Proof. destruct c as [[] [] [] [] [] [] [] []]; split; reflexivity. Qed.

Lemma hexValue_hexDigit_high c : hexValue (hexDigit (code c / 16)) = (code c / 16)%N.
Proof. destruct c as [[] [] [] [] [] [] [] []]; reflexivity. Qed.

Lemma hexValue_hexDigit_low c : hexValue (hexDigit (code c mod 16)) = (code c mod 16)%N.
Proof. destruct c as [[] [] [] [] [] [] [] []]; reflexivity. Qed.

Lemma allChars_app p s t : allChars p (s ++ t) = allChars p s && allChars p t.
Proof.
  induction s as [|c r IH]; simpl; [reflexivity|]. now rewrite IH, andb_assoc.
Qed.

Lemma encodeByte_safe c : allChars uriSafe (encodeByte c) = true.
Proof.
  unfold encodeByte. destruct (unreserved c) eqn:Hu; simpl.
  - unfold uriSafe. now rewrite Hu.
  - destruct (hexDigit_safe c) as [H1 H2]. unfold uriSafe. rewrite H1, H2. reflexivity.
Qed.

(** The first encoded byte of a text can be read back. *)
Lemma encodeByte_head c d x y :
  encodeByte c ++ x = encodeByte d ++ y -> c = d /\ x = y.
Proof.
  unfold encodeByte.
  destruct (unreserved c) eqn:Hc, (unreserved d) eqn:Hd; simpl; intros H.
  - inversion H. auto.
  - inversion H; subst. discriminate Hc.
  - inversion H; subst. discriminate Hd.
  - injection H as H1 H2 Hxy. split; [|exact Hxy].
    apply (f_equal hexValue) in H1, H2.
    rewrite !hexValue_hexDigit_high in H1. rewrite !hexValue_hexDigit_low in H2.
    assert (Hcode : code c = code d).
    { rewrite (N.div_mod (code c) 16), (N.div_mod (code d) 16) by discriminate.
      now rewrite H1, H2. }
    unfold code in Hcode. apply (f_equal ascii_of_N) in Hcode.
    now rewrite !ascii_N_embedding in Hcode.
Qed.

Lemma encodeByte_not_empty c x : encodeByte c ++ x <> EmptyString.
Proof. unfold encodeByte. destruct (unreserved c); discriminate. Qed.

Lemma encodeURIComponent_injective s : forall t,
  encodeURIComponent s = encodeURIComponent t -> s = t.
Proof.
  induction s as [|c r IH]; intros [|d t] H; simpl in H.
  - reflexivity.
  - symmetry in H. now apply encodeByte_not_empty in H.
  - now apply encodeByte_not_empty in H.
  - apply encodeByte_head in H as [-> Hr]. f_equal. now apply IH.
Qed.

Lemma append_cancel (s a b : string) : s ++ a = s ++ b -> a = b.
Proof. induction s as [|c r IH]; simpl; intros H; [exact H|]. inversion H. auto. Qed.

(** X17.  What [getUploadStatus] puts behind the upload path is one path
    segment: the encoded id consists of unreserved characters and percent
    escapes only, so it holds no slash, question mark, hash or space; an id
    of unreserved characters is left as it is; and encoding loses nothing:
    two different ids never give the same reference. *)
Theorem status_reference_is_one_segment (c : Client) (id1 id2 : string) :
  allChars uriSafe (encodeURIComponent id1) = true
  /\ (uriSafe "/" = false /\ uriSafe "?" = false /\ uriSafe "#" = false
      /\ uriSafe " " = false /\ uriSafe "&" = false)
  /\ (allChars unreserved id1 = true -> encodeURIComponent id1 = id1)
  /\ (statusReference c id1 = statusReference c id2 -> id1 = id2).
Proof.
  split; [|split; [|split]].
  - induction id1 as [|a r IH]; simpl; [reflexivity|].
    now rewrite allChars_app, encodeByte_safe, IH.
  - repeat split.
  - induction id1 as [|a r IH]; simpl; [reflexivity|].
    intros H. apply andb_true_iff in H as [Ha Hr].
    unfold encodeByte. rewrite Ha. simpl. now rewrite (IH Hr).
  - unfold statusReference. intros H.
    apply append_cancel in H. apply (append_cancel "/") in H.
    now apply encodeURIComponent_injective.
Qed.

Lemma status_reference_is_one_segment_witness :
  allChars unreserved "a1b2" = true
  /\ encodeURIComponent "a1b2" = "a1b2"
  /\ encodeURIComponent "a/b c" = "a%2Fb%20c".
Proof.
  split; [reflexivity|]. split; [|reflexivity].
  exact (proj1 (proj2 (proj2 (status_reference_is_one_segment
           (mkClient EmptyString "/api/v1/uploads" EmptyString DEFAULTS "k" None)
           "a1b2" "a1b2"))) eq_refl).
Defined.

(* ================================================================== *)
(** * Request headers *)

Lemma getHeader_setHeader k k' v t :
  getHeader k (setHeader k' v t) =
  if (k' =? k)%string then Some v else getHeader k t.
Proof.
  induction t as [|[k0 v0] rest IH]; simpl.
  - destruct (k' =? k)%string; reflexivity.
  - destruct (k0 =? k')%string eqn:H0; simpl.
    + apply String.eqb_eq in H0. subst k0.
      destruct (k' =? k)%string; reflexivity.
    + destruct (k0 =? k)%string eqn:H1; [|exact IH].
      apply String.eqb_eq in H1. subst k0.
      rewrite String.eqb_sym in H0. now rewrite H0.
Qed.

Lemma setHeader_keys k v t :
  NoDup (map fst t) ->
  NoDup (map fst (setHeader k v t))
  /\ forall x, In x (map fst (setHeader k v t)) -> x = k \/ In x (map fst t).
Proof.
  induction t as [|[k0 v0] rest IH]; simpl; intros Hnd.
  - split; [repeat constructor; auto|]. intros x [<-|[]]. auto.
  - inversion Hnd as [|? ? Hnotin Hrest]; subst.
    destruct (k0 =? k)%string eqn:H0; simpl.
    + apply String.eqb_eq in H0. subst k0. split; [now constructor|].
      intros x [<-|Hin]; auto.
    + destruct (IH Hrest) as [IH1 IH2]. split.
      * constructor; [|exact IH1]. intros Hin. apply IH2 in Hin as [->|Hin]; [|auto].
        rewrite String.eqb_refl in H0. discriminate.
      * intros x [<-|Hin]; [auto|]. apply IH2 in Hin as [->|Hin]; auto.
Qed.

Lemma assign_NoDup source : forall target,
  NoDup (map fst target) -> NoDup (map fst (assign target source)).
Proof.
  unfold assign. induction source as [|[k v] rest IH]; intros target Hnd; simpl; [exact Hnd|].
  apply IH. now apply setHeader_keys.
Qed.

(** Reading a key after [Object.assign]: the source wins, the target is
    kept where the source has nothing. *)
Lemma getHeader_assign k source : forall target,
  NoDup (map fst source) ->
  getHeader k (assign target source) =
  match getHeader k source with
  | Some v => Some v
  | None => getHeader k target
  end.
Proof.
  unfold assign. induction source as [|[k0 v0] rest IH]; intros target Hnd; simpl;
    [reflexivity|].
  inversion Hnd as [|? ? Hnotin Hrest]; subst.
  rewrite (IH _ Hrest), getHeader_setHeader. simpl.
  destruct (k0 =? k)%string eqn:H0; [|reflexivity].
  apply String.eqb_eq in H0. subst k0.
  assert (Hnone : getHeader k rest = None).
  { clear -Hnotin. induction rest as [|[k1 v1] r IHr]; simpl in *; [reflexivity|].
    destruct (k1 =? k)%string eqn:H1.
    - apply String.eqb_eq in H1. subst. exfalso. auto.
    - apply IHr. auto. }
  now rewrite Hnone.
Qed.

(** X18.  Whatever headers a caller of [_doFetch] passes, the request
    carries the client's authorization header and asks for JSON: both keys
    are set after the caller's headers are copied, so a caller's own
    Authorization or Accept is overwritten.  Every other header of the caller
    is kept with its value, and no key occurs twice. *)
Theorem requestHeaders_fixed (auth : string) (h : option Headers) :
  getHeader "Authorization" (requestHeaders auth h) = Some auth
  /\ getHeader "Accept" (requestHeaders auth h) = Some "application/json"
  /\ NoDup (map fst (requestHeaders auth h))
  /\ (forall hs k,
        h = Some hs -> NoDup (map fst hs) ->
        k <> "Authorization" -> k <> "Accept" ->
        getHeader k (requestHeaders auth h) = getHeader k hs).
Proof.
  unfold requestHeaders.
  assert (Hfixed : NoDup (map fst [("Authorization", auth); ("Accept", "application/json")])).
  { simpl. constructor; [intros [H|[]]; discriminate|]. constructor; [intros []|constructor]. }
  split; [|split; [|split]].
  - rewrite (getHeader_assign _ _ _ Hfixed). reflexivity.
  - rewrite (getHeader_assign _ _ _ Hfixed). reflexivity.
  - apply assign_NoDup, assign_NoDup. constructor.
  - intros hs k -> Hnd Hk1 Hk2.
    rewrite (getHeader_assign _ _ _ Hfixed). cbn [getHeader].
    apply String.eqb_neq in Hk1, Hk2.
    rewrite String.eqb_sym in Hk1. rewrite String.eqb_sym in Hk2.
    rewrite Hk1, Hk2.
    rewrite (getHeader_assign _ _ _ Hnd). simpl. destruct (getHeader k hs); reflexivity.
Qed.

Lemma requestHeaders_fixed_witness :
  NoDup (map fst [("Content-Type", "application/json"); ("Authorization", "mine")])
  /\ getHeader "Content-Type"
       (requestHeaders "Bearer k"
          (Some [("Content-Type", "application/json"); ("Authorization", "mine")]))
     = getHeader "Content-Type" [("Content-Type", "application/json"); ("Authorization", "mine")]
  /\ getHeader "Authorization"
       (requestHeaders "Bearer k"
          (Some [("Content-Type", "application/json"); ("Authorization", "mine")]))
     = Some "Bearer k".
Proof.
  assert (Hnd : NoDup (map fst [("Content-Type", "application/json"); ("Authorization", "mine")])).
  { simpl. constructor; [intros [H|[]]; discriminate|]. constructor; [intros []|constructor]. }
  split; [exact Hnd|]. split; [|reflexivity].
  exact (proj2 (proj2 (proj2 (requestHeaders_fixed "Bearer k"
           (Some [("Content-Type", "application/json"); ("Authorization", "mine")]))))
           _ "Content-Type" eq_refl Hnd ltac:(discriminate) ltac:(discriminate)).
Defined.

(* ================================================================== *)
(** * One upload after the other *)

Lemma statusIds_app a b : statusIds (a ++ b) = (statusIds a ++ statusIds b)%list.
Proof.
  induction a as [|[rq rp|ms] a IH]; simpl; [reflexivity| |exact IH].
  destruct rq; simpl; rewrite IH; reflexivity.
Qed.

Lemma PollHistory_ids id interval evs :
  PollHistory id interval evs -> statusIds evs = repeat id (S (waits evs)).
Proof.
  induction 1 as [rp|rp rest _ IH]; simpl; [reflexivity|].
  now rewrite IH.
Qed.

(** X19.  [submitPostWithFiles] polls the uploads one at a time and in the
    order the upload step returned them: in the history of the polling loop
    the status requests come in blocks, one block of at least one request for
    each id of a front part of the id list, in the order of the list.  No
    request for a later id comes before the polling of an earlier id has
    ended, and when every id was polled to a usable status the blocks cover
    the whole list. *)
Theorem uploads_polled_in_order (E : Env) (config : Config) (fuel : nat)
        (opts : PollOptions) (tmo start : Z) (ids : list string) (acc : list value)
        (w w' : World) (r : Outcome (list value)) :
  pollEach E config fuel opts tmo start ids acc w = (r, w') -> r <> Starved ->
  exists evs,
    trace w' = (trace w ++ evs)%list
    /\ Blocks ids (statusIds evs)
    /\ (forall srcs, r = Ret srcs ->
        List.length srcs = (List.length acc + List.length ids)%nat
        /\ forall id, In id ids -> In id (statusIds evs)).
Proof.
  revert acc w r w'. induction ids as [|id rest IH]; intros acc w r w' Hrun Hr.
  - simpl in Hrun. inversion Hrun; subst. exists []. rewrite app_nil_r.
    split; [reflexivity|]. split; [constructor|].
    intros srcs Hs. inversion Hs; subst. split; [simpl; lia|]. intros id [].
  - rewrite pollEach_step in Hrun.
    destruct (tmo - (now w - start) <=? 0).
    { inversion Hrun; subst. exists []. rewrite app_nil_r.
      split; [reflexivity|]. split; [constructor|]. discriminate. }
    rewrite pollUntilProcessed_unfold in Hrun.
    destruct (pollLoop E fuel id _ _ (now w) w) as [[st|e|] w1] eqn:Hpoll.
    + destruct (pollLoop_verdict E id _ _ _ _ _ _ _ Hpoll ltac:(discriminate))
        as [evs1 [pre [last [Ht1 [Hph _]]]]].
      pose proof (PollHistory_ids _ _ _ Hph) as Hids1.
      destruct (usable st).
      * destruct (IH _ _ _ _ Hrun Hr) as [evs2 [Ht2 [Hb2 Hall]]].
        exists (evs1 ++ evs2)%list. split; [now rewrite Ht2, Ht1, app_assoc|].
        rewrite statusIds_app, Hids1. split; [now constructor|].
        intros srcs Hs. destruct (Hall srcs Hs) as [Hlen Hin].
        split; [rewrite Hlen, length_app; simpl; lia|].
        intros x [<-|Hx]; [simpl; auto|].
        apply in_or_app. right. auto.
      * inversion Hrun; subst. exists evs1. split; [exact Ht1|].
        rewrite Hids1. split; [|discriminate].
        rewrite <- (app_nil_r (repeat id (S (waits evs1)))). constructor. constructor.
    + inversion Hrun; subst.
      destruct (pollLoop_verdict E id _ _ _ _ _ _ _ Hpoll ltac:(discriminate))
        as [evs1 [pre [last [Ht1 [Hph _]]]]].
      pose proof (PollHistory_ids _ _ _ Hph) as Hids1.
      exists evs1. split; [exact Ht1|]. rewrite Hids1. split; [|discriminate].
      rewrite <- (app_nil_r (repeat id (S (waits evs1)))). constructor. constructor.
    + inversion Hrun; subst. congruence.
Qed.

Lemma uploads_polled_in_order_witness :
  exists evs,
    trace (snd (pollEach Scenario.smooth DEFAULTS 3 (mkPollOptions None None) 120000 0
                  ["U1"; "U2"] [] Scenario.w0))
    = (trace Scenario.w0 ++ evs)%list
    /\ Blocks ["U1"; "U2"] (statusIds evs)
    /\ (forall srcs, Ret [VStr "U1"; VStr "U2"] = Ret srcs ->
        List.length srcs = (List.length (@nil value) + List.length ["U1"; "U2"])%nat
        /\ forall id, In id ["U1"; "U2"] -> In id (statusIds evs)).
Proof.
  exact (uploads_polled_in_order Scenario.smooth DEFAULTS 3 (mkPollOptions None None)
           120000 0 ["U1"; "U2"] [] Scenario.w0 _ (Ret [VStr "U1"; VStr "U2"])
           eq_refl ltac:(discriminate)).
Defined.
